(** * RPGCanvas-Editor, [tools/normalize_original.py] and [tools/config.py]

    A shallow embedding of the transcript normaliser: the text transform
    [normalise_text], the discovery [gather_files], the batch loop
    [process_files], the report writer [write_report] and the entry point
    [main], together with the properties of the specification.

    Conventions of the embedding.
    - A Python [str] is a list of code points ([list Z]); [len] is [length].
    - [unicodedata] is an interface ([Unicodedata]); the results that hold
      for every Unicode database are stated over an arbitrary instance, the
      evaluations on concrete text use [unicodedata], the normalisation
      algorithm of UAX 15 run over an excerpt of the Unicode Character
      Database.
    - A [pathlib.Path] is the list of its parts below one fixed root; the
      filesystem is a finite map from paths to nodes, without symbolic links.
      The codec of the configured encoding is left abstract: a regular file
      holds text, or bytes that the codec rejects on reading.  On writing,
      the text is taken to be one that the codec accepts and a directory to
      accept new entries: the [UnicodeEncodeError] of a write and the
      permissions of directories are outside the model, and a property
      that depends on them carries the condition as a hypothesis.
    - Functions with effects live in the monad [M]: a world (filesystem,
      console input and output, log of the I/O calls) is threaded through
      and a Python exception is the result [Raise]. *)

From Stdlib Require Import ZArith Lia List Bool Ascii String.
From Stdlib Require Import DecimalString DecimalZ DecimalPos DecimalFacts.
From stdpp Require Import base option list gmap fin_maps sorting.

Set Warnings "-register-all".

Open Scope Z_scope.

(* ===================================================================== *)
(** * Part I: definitions                                                 *)
(* ===================================================================== *)

(** ** Python strings *)

Abbreviation str := (list Z).

(** [needle in hay] on character names (plain ASCII strings). *)
Fixpoint startswith (needle hay : string) : bool :=
  match needle, hay with
  | EmptyString, _ => true
  | String a n, String b h => if Ascii.eqb a b then startswith n h else false
  | String _ _, EmptyString => false
  end.

Fixpoint str_in (needle hay : string) : bool :=
  if startswith needle hay then true
  else match hay with
       | EmptyString => false
       | String _ h => str_in needle h
       end.

(** ** The [unicodedata] interface

    [normalize_NFKC s] is [unicodedata.normalize("NFKC", s)]; [name ch] is
    the registered name of [ch], [None] when [unicodedata.name(ch)] would
    raise for want of one. *)

Record Unicodedata := {
  normalize_NFKC : str -> str;
  name : Z -> option string
}.

(** [unicodedata.name(ch, default)]. *)
Definition name_default (U : Unicodedata) (ch : Z) (default : string) : string :=
  match name U ch with
  | Some n => n
  | None => default
  end.

(** ** [COMPATIBILITY_TRANSLATION] (lines 60-71) *)

Definition COMPATIBILITY_PAIRS : list (Z * str) :=
  [ (0x3000, [0x20]);   (* full-width space *)
    (0x2014, [0x2D]);   (* em dash *)
    (0x2013, [0x2D]);   (* en dash *)
    (0x00A0, [0x20]);   (* non-breaking space *)
    (0xFF5E, [0x7E]);   (* full-width tilde *)
    (0xFF0D, [0x2D]);   (* full-width hyphen-minus *)
    (0x2018, [0x27]);
    (0x2019, [0x27]);
    (0x201C, [0x22]);
    (0x201D, [0x22]) ].

(** [str.maketrans] of a dict literal: a dict from ordinals to strings. *)
Definition COMPATIBILITY_TRANSLATION : gmap Z str :=
  list_to_map COMPATIBILITY_PAIRS.

(** [s.translate(table)]: a character with an entry is replaced by the
    entry, any other character is kept. *)
Definition translate_char (table : gmap Z str) (ch : Z) : str :=
  match table !! ch with
  | Some r => r
  | None => [ch]
  end.

Definition translate (table : gmap Z str) (s : str) : str :=
  flat_map (translate_char table) s.

(** ** [_is_variation_selector] (lines 108-109) and [normalise_text]
       (lines 99-105) *)

Definition _is_variation_selector (U : Unicodedata) (ch : Z) : bool :=
  str_in "VARIATION SELECTOR" (name_default U ch "").

Definition normalise_text (U : Unicodedata) (content : str) : str :=
  let normalized := normalize_NFKC U content in
  let translated := translate COMPATIBILITY_TRANSLATION normalized in
  let cleaned := List.filter (fun ch => negb (_is_variation_selector U ch)) translated in
  cleaned.

(** The text on which the removal step works. *)
Definition substituted (U : Unicodedata) (content : str) : str :=
  translate COMPATIBILITY_TRANSLATION (normalize_NFKC U content).

(** What the specification calls a variation selector: a character whose
    registered name has the substring. *)
Definition has_selector_name (U : Unicodedata) (ch : Z) : Prop :=
  exists n pre post,
    name U ch = Some n /\
    n = String.append pre (String.append "VARIATION SELECTOR" post).

(** The source characters of the substitution table. *)
Definition is_source (ch : Z) : Prop := In ch (map fst COMPATIBILITY_PAIRS).

(** The removal step of [normalise_text] on its own. *)
Definition clean (U : Unicodedata) (s : str) : str :=
  List.filter (fun ch => negb (_is_variation_selector U ch)) s.

(** [needle] occurs in [hay] as a contiguous run. *)
Definition contains (needle hay : str) : Prop :=
  exists pre post, hay = pre ++ needle ++ post.

(** ** A concrete [unicodedata]: UAX 15 over an excerpt of the UCD

    A row of UnicodeData.txt: code point, name, canonical combining class,
    decomposition (the tag is [None] for a canonical mapping) and whether
    the character is excluded from composition. *)

Record UcdRow := {
  row_code : Z;
  row_name : string;
  row_ccc : Z;
  row_decomp : option (option string * list Z);
  row_excluded : bool
}.

Definition ucd_row (c : Z) (n : string) (k : Z)
    (d : option (option string * list Z)) : UcdRow :=
  {| row_code := c; row_name := n; row_ccc := k; row_decomp := d;
     row_excluded := false |}.

Definition tagged (tag : string) (m : list Z) : option (option string * list Z) :=
  Some (Some tag, m).

Definition canonical (m : list Z) : option (option string * list Z) :=
  Some (None, m).

(** The rows of Unicode 14.0 for the characters that the substitution table,
    the examples of the specification and the theorems below mention.  A code
    point without a row has no name, class 0 and no mapping. *)
Definition UCD_EXCERPT : list UcdRow :=
  [ ucd_row 0x0020 "SPACE" 0 None;
    ucd_row 0x0022 "QUOTATION MARK" 0 None;
    ucd_row 0x0027 "APOSTROPHE" 0 None;
    ucd_row 0x002D "HYPHEN-MINUS" 0 None;
    ucd_row 0x0041 "LATIN CAPITAL LETTER A" 0 None;
    ucd_row 0x0061 "LATIN SMALL LETTER A" 0 None;
    ucd_row 0x0062 "LATIN SMALL LETTER B" 0 None;
    ucd_row 0x007E "TILDE" 0 None;
    ucd_row 0x00A0 "NO-BREAK SPACE" 0 (tagged "noBreak" [0x0020]);
    ucd_row 0x00C1 "LATIN CAPITAL LETTER A WITH ACUTE" 0 (canonical [0x0041; 0x0301]);
    ucd_row 0x00E1 "LATIN SMALL LETTER A WITH ACUTE" 0 (canonical [0x0061; 0x0301]);
    ucd_row 0x0301 "COMBINING ACUTE ACCENT" 230 None;
    ucd_row 0x0323 "COMBINING DOT BELOW" 220 None;
    ucd_row 0x180B "MONGOLIAN FREE VARIATION SELECTOR ONE" 0 None;
    ucd_row 0x1EA1 "LATIN SMALL LETTER A WITH DOT BELOW" 0 (canonical [0x0061; 0x0323]);
    ucd_row 0x2013 "EN DASH" 0 None;
    ucd_row 0x2014 "EM DASH" 0 None;
    ucd_row 0x2018 "LEFT SINGLE QUOTATION MARK" 0 None;
    ucd_row 0x2019 "RIGHT SINGLE QUOTATION MARK" 0 None;
    ucd_row 0x201C "LEFT DOUBLE QUOTATION MARK" 0 None;
    ucd_row 0x201D "RIGHT DOUBLE QUOTATION MARK" 0 None;
    ucd_row 0x2764 "HEAVY BLACK HEART" 0 None;
    ucd_row 0x3000 "IDEOGRAPHIC SPACE" 0 (tagged "wide" [0x0020]);
    ucd_row 0x5168 "CJK UNIFIED IDEOGRAPH-5168" 0 None;
    ucd_row 0x683C "CJK UNIFIED IDEOGRAPH-683C" 0 None;
    ucd_row 0x7A7A "CJK UNIFIED IDEOGRAPH-7A7A" 0 None;
    ucd_row 0x89D2 "CJK UNIFIED IDEOGRAPH-89D2" 0 None;
    ucd_row 0xFE00 "VARIATION SELECTOR-1" 0 None;
    ucd_row 0xFE0E "VARIATION SELECTOR-15" 0 None;
    ucd_row 0xFE0F "VARIATION SELECTOR-16" 0 None;
    ucd_row 0xFF0D "FULLWIDTH HYPHEN-MINUS" 0 (tagged "wide" [0x002D]);
    ucd_row 0xFF21 "FULLWIDTH LATIN CAPITAL LETTER A" 0 (tagged "wide" [0x0041]);
    ucd_row 0xFF5E "FULLWIDTH TILDE" 0 (tagged "wide" [0x007E]);
    ucd_row 0xE0100 "VARIATION SELECTOR-17" 0 None ].

Fixpoint ucd_find (rows : list UcdRow) (c : Z) : option UcdRow :=
  match rows with
  | [] => None
  | r :: rows' => if row_code r =? c then Some r else ucd_find rows' c
  end.

Definition ucd_name (rows : list UcdRow) (c : Z) : option string :=
  match ucd_find rows c with
  | Some r => Some (row_name r)
  | None => None
  end.

Definition ucd_combining (rows : list UcdRow) (c : Z) : Z :=
  match ucd_find rows c with
  | Some r => row_ccc r
  | None => 0
  end.

(** Hangul syllables decompose and compose by arithmetic (UAX 15, 3.12). *)
Definition SBase := 0xAC00.
Definition LBase := 0x1100.
Definition VBase := 0x1161.
Definition TBase := 0x11A7.
Definition LCount := 19.
Definition VCount := 21.
Definition TCount := 28.
Definition NCount := 588.
Definition SCount := 11172.

Definition hangul_decompose (c : Z) : option (list Z) :=
  let s := c - SBase in
  if (0 <=? s) && (s <? SCount) then
    let l := LBase + s / NCount in
    let v := VBase + (s mod NCount) / TCount in
    let t := TBase + s mod TCount in
    Some (if t =? TBase then [l; v] else [l; v; t])
  else None.

Definition hangul_compose (a b : Z) : option Z :=
  let l := a - LBase in
  let v := b - VBase in
  let s := a - SBase in
  let t := b - TBase in
  if (0 <=? l) && (l <? LCount) && (0 <=? v) && (v <? VCount) then
    Some (SBase + (l * VCount + v) * TCount)
  else if (0 <=? s) && (s <? SCount) && (s mod TCount =? 0)
          && (0 <? t) && (t <? TCount) then
    Some (a + t)
  else None.

(** Compatibility decomposition of one character: canonical and tagged
    mappings are both followed, to the nesting depth [fuel]. *)
Fixpoint decompose_char (rows : list UcdRow) (fuel : nat) (c : Z) : list Z :=
  match hangul_decompose c with
  | Some d => d
  | None =>
      match fuel with
      | O => [c]
      | S fuel' =>
          match ucd_find rows c with
          | Some {| row_decomp := Some (_, m) |} =>
              flat_map (decompose_char rows fuel') m
          | _ => [c]
          end
      end
  end.

(** The mappings of the UCD nest three levels deep at most. *)
Definition DECOMPOSITION_DEPTH : nat := 3.

(** Canonical ordering: a character of class [k > 0] moves left past the
    characters of a greater class that end the text so far. *)
Fixpoint reorder_insert (rows : list UcdRow) (c : Z) (out : list Z) : list Z :=
  match out with
  | [] => [c]
  | x :: out' =>
      if forallb (fun y => ucd_combining rows c <? ucd_combining rows y) out
      then c :: out
      else x :: reorder_insert rows c out'
  end.

Definition canonical_order (rows : list UcdRow) (s : list Z) : list Z :=
  fold_left (fun out c =>
               if ucd_combining rows c =? 0 then out ++ [c]
               else reorder_insert rows c out) s [].

(** The primary composite of a pair: a Hangul syllable, or the character
    whose canonical mapping is the pair and which is not excluded. *)
Fixpoint composite_in (rows : list UcdRow) (a b : Z) : option Z :=
  match rows with
  | [] => None
  | r :: rows' =>
      match row_decomp r with
      | Some (None, [x; y]) =>
          if (x =? a) && (y =? b) && negb (row_excluded r)
          then Some (row_code r) else composite_in rows' a b
      | _ => composite_in rows' a b
      end
  end.

Definition primary_composite (rows : list UcdRow) (a b : Z) : option Z :=
  match hangul_compose a b with
  | Some p => Some p
  | None => composite_in rows a b
  end.

(** Canonical composition: [done] is the text before the last starter,
    [starter] that starter, [tail] what follows it and [last] the class of
    the last character kept. *)
Fixpoint compose_loop (rows : list UcdRow) (done : list Z) (starter : Z)
    (tail : list Z) (last : Z) (rest : list Z) : list Z :=
  match rest with
  | [] => done ++ starter :: tail
  | ch :: rest' =>
      let k := ucd_combining rows ch in
      let keep :=
        if k =? 0
        then compose_loop rows (done ++ starter :: tail) ch [] k rest'
        else compose_loop rows done starter (tail ++ [ch]) k rest' in
      match primary_composite rows starter ch with
      | Some p =>
          if (last <? k) || (last =? 0)
          then compose_loop rows done p tail last rest'
          else keep
      | None => keep
      end
  end.

Definition canonical_compose (rows : list UcdRow) (s : list Z) : list Z :=
  match s with
  | [] => []
  | c :: rest =>
      compose_loop rows [] c []
        (if ucd_combining rows c =? 0 then 0 else 256) rest
  end.

Definition nfkc (rows : list UcdRow) (s : str) : str :=
  canonical_compose rows
    (canonical_order rows
       (flat_map (decompose_char rows DECOMPOSITION_DEPTH) s)).

Definition unicodedata : Unicodedata :=
  {| normalize_NFKC := nfkc UCD_EXCERPT;
     name := ucd_name UCD_EXCERPT |}.

(** ** Paths ([pathlib.Path])

    A path is the list of its parts below one fixed root directory; the
    empty list is that root.  Parts are compared as written: no [..], no
    symbolic link and no second spelling of the same file. *)

Abbreviation Path := (list (list Z)).

(** A Python string literal of ASCII characters. *)
Definition py (s : string) : str :=
  map (fun a => Z.of_N (N_of_ascii a)) (list_ascii_of_string s).

(** [p / q] for a relative [q], and [p.joinpath(q)]. *)
Definition joinpath (p q : Path) : Path := p ++ q.

(** [p.parent]; the root is its own parent. *)
Definition parent (p : Path) : Path := removelast p.

(** [p.name]. *)
Definition path_name (p : Path) : str := List.last p [].

(** [p.relative_to(base)]; [None] stands for the [ValueError] raised when
    [base] is not a prefix of [p]. *)
Fixpoint relative_to (p base : Path) : option Path :=
  match base, p with
  | [], _ => Some p
  | b :: base', x :: p' =>
      if decide (b = x) then relative_to p' base' else None
  | _ :: _, [] => None
  end.

Fixpoint join_parts (parts : list str) : str :=
  match parts with
  | [] => []
  | [x] => x
  | x :: rest => x ++ [0x2F] ++ join_parts rest
  end.

(** [str(p)]. *)
Definition path_str (p : Path) : str :=
  match p with
  | [] => py "."
  | _ => join_parts p
  end.

(** Order of [str] and of [Path] values ([<=] of Python on strings and on
    pure paths: lexicographic, by code point and then by part). *)
Fixpoint str_leb (a b : str) : bool :=
  match a, b with
  | [], _ => true
  | _ :: _, [] => false
  | x :: a', y :: b' => (x <? y) || ((x =? y) && str_leb a' b')
  end.

Fixpoint path_leb (p q : Path) : bool :=
  match p, q with
  | [], _ => true
  | _ :: _, [] => false
  | x :: p', y :: q' =>
      if decide (x = y) then path_leb p' q' else str_leb x y
  end.

Definition path_le (p q : Path) : Prop := path_leb p q = true.

#[global] Instance path_le_dec : RelDecision path_le.
Proof. intros p q. unfold path_le. apply _. Defined.

(** ** The filesystem, the console and the monad of effects *)

(** Content of a regular file, seen through the configured encoding: text,
    or bytes that the codec rejects. *)
Inductive fdata :=
  | Text (s : str)
  | Undecodable.

Inductive node :=
  | File (readable writable : bool) (data : fdata)
  | Dir
  | Special.   (* socket, FIFO, device *)

Inductive exn :=
  | FileNotFoundError
  | FileExistsError
  | NotADirectoryError
  | IsADirectoryError
  | PermissionError
  | OSError
  | UnicodeDecodeError
  | ValueError
  | EOFError.

(** The I/O calls of [pathlib] that the program makes. *)
Inductive event :=
  | EvRead (p : Path)
  | EvWrite (p : Path) (s : str)
  | EvMkdir (p : Path).

Inductive Question := ASK_RUN_NOW | ASK_DRY_RUN.

(** What the program prints; a constructor per [print] or [input] call of
    the source. *)
Inductive Line :=
  | HEADER
  | STEP_TITLE
  | LINE_STEP_10
  | LINE_PROMPT (q : Question) (default : bool)
  | LINE_CANCELLED
  | LINE_NON_INTERACTIVE
  | LINE_ERROR_SOURCE (source_dir : Path)
  | LINE_HINT_SOURCE
  | LINE_WARN_EMPTY (source_dir : Path)
  | LINE_DONE_DRY_RUN (report_path : Path)
  | LINE_DONE (output_dir : Path)
  | LINE_REPORT (report_path : Path).

Record World := {
  fs : gmap Path node;
  stdin : list str;
  stdout : list Line;
  log : list event
}.

Inductive result (A : Type) :=
  | Ok (a : A)
  | Raise (e : exn).

Arguments Ok {A} a.
Arguments Raise {A} e.

Definition M (A : Type) : Type := World -> result A * World.

#[global] Instance M_ret : MRet M := fun A a w => (Ok a, w).

#[global] Instance M_bind : MBind M := fun A B f m w =>
  match m w with
  | (Ok a, w') => f a w'
  | (Raise e, w') => (Raise e, w')
  end.

Definition raise {A} (e : exn) : M A := fun w => (Raise e, w).

(** [try: body / except: handler]. *)
Definition try_except {A} (body : M A) (handler : exn -> M A) : M A :=
  fun w =>
    match body w with
    | (Ok a, w') => (Ok a, w')
    | (Raise e, w') => handler e w'
    end.

Definition get_fs : M (gmap Path node) := fun w => (Ok (fs w), w).

Definition put_fs (f : gmap Path node) : M unit := fun w =>
  (Ok tt, {| fs := f; stdin := stdin w; stdout := stdout w; log := log w |}).

Definition log_event (e : event) : M unit := fun w =>
  (Ok tt, {| fs := fs w; stdin := stdin w; stdout := stdout w;
             log := log w ++ [e] |}).

Definition print (l : Line) : M unit := fun w =>
  (Ok tt, {| fs := fs w; stdin := stdin w; stdout := stdout w ++ [l];
             log := log w |}).

(** [input(prompt)]: the prompt is printed and one line is taken from the
    console; [EOFError] when there is none. *)
Definition input (prompt : Line) : M str := fun w =>
  match stdin w with
  | [] => (Raise EOFError,
           {| fs := fs w; stdin := []; stdout := stdout w ++ [prompt];
              log := log w |})
  | answer :: rest =>
      (Ok answer,
       {| fs := fs w; stdin := rest; stdout := stdout w ++ [prompt];
          log := log w |})
  end.

(** The node at a path; the root is a directory that always exists. *)
Definition node_at (f : gmap Path node) (p : Path) : option node :=
  match p with
  | [] => Some Dir
  | _ => f !! p
  end.

Definition path_exists (f : gmap Path node) (p : Path) : bool :=
  match node_at f p with
  | Some _ => true
  | None => false
  end.

Definition is_dir (f : gmap Path node) (p : Path) : bool :=
  match node_at f p with
  | Some Dir => true
  | _ => false
  end.

Definition is_file (f : gmap Path node) (p : Path) : bool :=
  match node_at f p with
  | Some (File _ _ _) => true
  | _ => false
  end.

(** [os.mkdir(p)]. *)
Definition os_mkdir (p : Path) : M unit :=
  f ← get_fs;
  match node_at f p with
  | Some _ => raise FileExistsError
  | None =>
      match node_at f (parent p) with
      | None => raise FileNotFoundError
      | Some Dir => put_fs (<[p := Dir]> f)
      | Some _ => raise NotADirectoryError
      end
  end.

(** The [except OSError] clause of [Path.mkdir] with [exist_ok=True]. *)
Definition mkdir_except_OSError (p : Path) (e : exn) : M unit :=
  f ← get_fs;
  if is_dir f p then mret tt else raise e.

(** [p.mkdir(parents=False, exist_ok=True)]. *)
Definition mkdir_exist_ok (p : Path) : M unit :=
  try_except (os_mkdir p)
    (fun e => match e with
              | FileNotFoundError => raise FileNotFoundError
              | _ => mkdir_except_OSError p e
              end).

(** [p.mkdir(parents=True, exist_ok=True)], by recursion on the parts of
    [p] from the last one: [rp] is [p] reversed. *)
Fixpoint mkdir_parents_rev (rp : list str) : M unit :=
  try_except (os_mkdir (rev rp))
    (fun e => match e with
              | FileNotFoundError =>
                  match rp with
                  | [] => raise FileNotFoundError
                  | _ :: rparent =>
                      mkdir_parents_rev rparent ;;
                      mkdir_exist_ok (rev rp)
                  end
              | _ => mkdir_except_OSError (rev rp) e
              end).

Definition mkdir_parents_exist_ok (p : Path) : M unit :=
  log_event (EvMkdir p) ;;
  mkdir_parents_rev (rev p).

(** [p.read_text(encoding=...)]. *)
Definition read_text (p : Path) : M str :=
  log_event (EvRead p) ;;
  f ← get_fs;
  match node_at f p with
  | None => raise FileNotFoundError
  | Some Dir => raise IsADirectoryError
  | Some Special => raise OSError
  | Some (File false _ _) => raise PermissionError
  | Some (File true _ Undecodable) => raise UnicodeDecodeError
  | Some (File true _ (Text s)) => mret s
  end.

(** [p.write_text(s, encoding=...)]. *)
Definition write_text (p : Path) (s : str) : M unit :=
  log_event (EvWrite p s) ;;
  f ← get_fs;
  match node_at f p with
  | Some Dir => raise IsADirectoryError
  | Some Special => raise OSError
  | Some (File _ false _) => raise PermissionError
  | Some (File r true _) => put_fs (<[p := File r true (Text s)]> f)
  | None =>
      match node_at f (parent p) with
      | None => raise FileNotFoundError
      | Some Dir => put_fs (<[p := File true true (Text s)]> f)
      | Some _ => raise NotADirectoryError
      end
  end.

(** ** [json.dumps(payload, ensure_ascii=False, indent=2)] *)


Inductive json :=
  | JNull
  | JBool (b : bool)
  | JInt (n : Z)
  | JString (s : str)
  | JArray (items : list json)
  | JObject (members : list (str * json)).

Fixpoint uint_chars (d : Decimal.uint) : str :=
  match d with
  | Decimal.Nil => []
  | Decimal.D0 d => 0x30 :: uint_chars d
  | Decimal.D1 d => 0x31 :: uint_chars d
  | Decimal.D2 d => 0x32 :: uint_chars d
  | Decimal.D3 d => 0x33 :: uint_chars d
  | Decimal.D4 d => 0x34 :: uint_chars d
  | Decimal.D5 d => 0x35 :: uint_chars d
  | Decimal.D6 d => 0x36 :: uint_chars d
  | Decimal.D7 d => 0x37 :: uint_chars d
  | Decimal.D8 d => 0x38 :: uint_chars d
  | Decimal.D9 d => 0x39 :: uint_chars d
  end.

(** [int.__repr__]. *)
Definition int_repr (n : Z) : str :=
  match Z.to_int n with
  | Decimal.Pos d => uint_chars d
  | Decimal.Neg d => 0x2D :: uint_chars d
  end.

Definition hex_digit (n : Z) : Z :=
  if n <? 10 then 0x30 + n else 0x61 + (n - 10).

(** [ESCAPE_DCT] of [json.encoder]: the quote, the backslash and the
    controls below U+0020 are escaped, every other character goes out as it
    is ([ensure_ascii=False]). *)
Definition escape_char (c : Z) : str :=
  if c =? 0x22 then [0x5C; 0x22]
  else if c =? 0x5C then [0x5C; 0x5C]
  else if c =? 0x0A then [0x5C; 0x6E]
  else if c =? 0x0D then [0x5C; 0x72]
  else if c =? 0x09 then [0x5C; 0x74]
  else if c =? 0x08 then [0x5C; 0x62]
  else if c =? 0x0C then [0x5C; 0x66]
  else if (0 <=? c) && (c <? 0x20)
       then [0x5C; 0x75; 0x30; 0x30; hex_digit (c / 16); hex_digit (c mod 16)]
  else [c].

Definition encode_basestring (s : str) : str :=
  [0x22] ++ flat_map escape_char s ++ [0x22].

(** A line break followed by the indentation of nesting depth [level]. *)
Definition newline_indent (level : nat) : str :=
  0x0A :: repeat 0x20 (2 * level).

(** The items of a list after the first, each behind its separator, and
    the same for the members of a dict; [enc] encodes a value one level
    down and [sep] is the line break with the indentation of that level. *)
Definition encode_items (enc : json -> str) (sep : str) : list json -> str :=
  fix items (l : list json) : str :=
    match l with
    | [] => []
    | y :: l' => py "," ++ sep ++ enc y ++ items l'
    end.

Definition encode_members (enc : json -> str) (sep : str)
    : list (str * json) -> str :=
  fix members (l : list (str * json)) : str :=
    match l with
    | [] => []
    | (k, y) :: l' =>
        py "," ++ sep ++ encode_basestring k ++ py ": " ++ enc y ++ members l'
    end.

(** [_iterencode] with [indent=2]: the separators are "," and ": ". *)
Fixpoint iterencode (level : nat) (v : json) : str :=
  match v with
  | JNull => py "null"
  | JBool true => py "true"
  | JBool false => py "false"
  | JInt n => int_repr n
  | JString s => encode_basestring s
  | JArray [] => py "[]"
  | JArray (x :: rest) =>
      py "[" ++ newline_indent (S level) ++ iterencode (S level) x
      ++ encode_items (iterencode (S level)) (newline_indent (S level)) rest
      ++ newline_indent level ++ py "]"
  | JObject [] => py "{}"
  | JObject ((k, x) :: rest) =>
      py "{" ++ newline_indent (S level)
      ++ encode_basestring k ++ py ": " ++ iterencode (S level) x
      ++ encode_members (iterencode (S level)) (newline_indent (S level)) rest
      ++ newline_indent level ++ py "}"
  end.

Definition json_dumps (v : json) : str := iterencode 0 v.

(** ** [json.loads]

    The decoder of the standard library on the documents without floats:
    literals, integers, strings with their escapes, arrays and objects.  It
    is what the report is read back with.  [None] stands for
    [JSONDecodeError]. *)

Fixpoint skip_ws (s : str) : str :=
  match s with
  | [] => []
  | c :: s' =>
      if (c =? 0x20) || (c =? 0x09) || (c =? 0x0A) || (c =? 0x0D)
      then skip_ws s' else s
  end.

Definition hex_value (c : Z) : option Z :=
  if (0x30 <=? c) && (c <=? 0x39) then Some (c - 0x30)
  else if (0x61 <=? c) && (c <=? 0x66) then Some (c - 0x61 + 10)
  else if (0x41 <=? c) && (c <=? 0x46) then Some (c - 0x41 + 10)
  else None.

(** [_decode_uXXXX]. *)
Definition decode_uXXXX (a b c d : Z) : option Z :=
  match hex_value a, hex_value b, hex_value c, hex_value d with
  | Some x, Some y, Some z, Some t => Some (((x * 16 + y) * 16 + z) * 16 + t)
  | _, _, _, _ => None
  end.

Definition is_high_surrogate (u : Z) : bool := (0xD800 <=? u) && (u <=? 0xDBFF).
Definition is_low_surrogate (u : Z) : bool := (0xDC00 <=? u) && (u <=? 0xDFFF).

Definition prepend (c : Z) (r : option (str * str)) : option (str * str) :=
  match r with
  | Some (k, rest) => Some (c :: k, rest)
  | None => None
  end.

(** [scanstring] in strict mode, from the character after the opening
    quote: the text of the string and what follows the closing quote. *)
Fixpoint scanstring (s : str) : option (str * str) :=
  match s with
  | [] => None
  | c :: s1 =>
      if c =? 0x22 then Some ([], s1)
      else if c =? 0x5C then
        match s1 with
        | [] => None
        | e :: s2 =>
            if e =? 0x22 then prepend 0x22 (scanstring s2)
            else if e =? 0x5C then prepend 0x5C (scanstring s2)
            else if e =? 0x2F then prepend 0x2F (scanstring s2)
            else if e =? 0x62 then prepend 0x08 (scanstring s2)
            else if e =? 0x66 then prepend 0x0C (scanstring s2)
            else if e =? 0x6E then prepend 0x0A (scanstring s2)
            else if e =? 0x72 then prepend 0x0D (scanstring s2)
            else if e =? 0x74 then prepend 0x09 (scanstring s2)
            else if e =? 0x75 then
              match s2 with
              | h1 :: h2 :: h3 :: h4 :: s6 =>
                  match decode_uXXXX h1 h2 h3 h4 with
                  | None => None
                  | Some uni =>
                      if is_high_surrogate uni then
                        match s6 with
                        | b :: u :: l1 :: l2 :: l3 :: l4 :: s12 =>
                            if (b =? 0x5C) && (u =? 0x75) then
                              match decode_uXXXX l1 l2 l3 l4 with
                              | None => None
                              | Some uni2 =>
                                  if is_low_surrogate uni2
                                  then prepend
                                         (0x10000 + ((uni - 0xD800) * 1024
                                                     + (uni2 - 0xDC00)))
                                         (scanstring s12)
                                  else prepend uni (scanstring s6)
                              end
                            else prepend uni (scanstring s6)
                        | _ => prepend uni (scanstring s6)
                        end
                      else prepend uni (scanstring s6)
                  end
              | _ => None
              end
            else None
        end
      else if (0 <=? c) && (c <? 0x20) then None
      else prepend c (scanstring s1)
  end.

Definition digit_of (c : Z) : option (Decimal.uint -> Decimal.uint) :=
  if c =? 0x30 then Some Decimal.D0
  else if c =? 0x31 then Some Decimal.D1
  else if c =? 0x32 then Some Decimal.D2
  else if c =? 0x33 then Some Decimal.D3
  else if c =? 0x34 then Some Decimal.D4
  else if c =? 0x35 then Some Decimal.D5
  else if c =? 0x36 then Some Decimal.D6
  else if c =? 0x37 then Some Decimal.D7
  else if c =? 0x38 then Some Decimal.D8
  else if c =? 0x39 then Some Decimal.D9
  else None.

(** The longest run of digits at the head of [s]. *)
Fixpoint read_digits (s : str) : Decimal.uint * str :=
  match s with
  | [] => (Decimal.Nil, [])
  | c :: s' =>
      match digit_of c with
      | Some d => let '(u, rest) := read_digits s' in (d u, rest)
      | None => (Decimal.Nil, s)
      end
  end.

(** What may follow an integer: a fraction or an exponent would make the
    number a float, which the model leaves out. *)
Definition starts_float_part (s : str) : bool :=
  match s with
  | c :: _ => (c =? 0x2E) || (c =? 0x65) || (c =? 0x45)
  | [] => false
  end.

(** [NUMBER_RE] on the integers: "0", or a digit from 1 to 9 followed by
    digits. *)
Definition parse_natural (s : str) : option (Decimal.uint * str) :=
  match s with
  | [] => None
  | c :: s' =>
      if c =? 0x30 then
        if starts_float_part s' then None else Some (Decimal.D0 Decimal.Nil, s')
      else
        match digit_of c with
        | None => None
        | Some _ =>
            let '(u, rest) := read_digits s in
            if starts_float_part rest then None else Some (u, rest)
        end
  end.

Definition parse_int (s : str) : option (Z * str) :=
  match s with
  | [] => None
  | c :: s' =>
      if c =? 0x2D then
        match parse_natural s' with
        | Some (u, rest) => Some (Z.of_int (Decimal.Neg u), rest)
        | None => None
        end
      else
        match parse_natural s with
        | Some (u, rest) => Some (Z.of_int (Decimal.Pos u), rest)
        | None => None
        end
  end.

(** [d[k] = v] on a dict kept as the list of its items. *)
Fixpoint dict_set (d : list (str * json)) (k : str) (v : json)
    : list (str * json) :=
  match d with
  | [] => [(k, v)]
  | (k', v') :: d' =>
      if decide (k' = k) then (k', v) :: d' else (k', v') :: dict_set d' k v
  end.

Definition expect (lit : str) (v : json) (s : str) : option (json * str) :=
  if bool_decide (take (length lit) s = lit)
  then Some (v, drop (length lit) s) else None.

(** [JSONArray] after the first item has been found to exist: [s] is at an
    item, [n] bounds the number of items. *)
Fixpoint parse_items (pv : str -> option (json * str)) (n : nat) (s : str)
    (acc : list json) : option (list json * str) :=
  match n with
  | O => None
  | S n' =>
      match pv s with
      | None => None
      | Some (v, r) =>
          match skip_ws r with
          | [] => None
          | c :: r' =>
              if c =? 0x2C then parse_items pv n' (skip_ws r') (acc ++ [v])
              else if c =? 0x5D then Some (acc ++ [v], r')
              else None
          end
      end
  end.

(** [JSONObject]: [s] is at the quote that opens a key. *)
Fixpoint parse_members (pv : str -> option (json * str)) (n : nat) (s : str)
    (acc : list (str * json)) : option (list (str * json) * str) :=
  match n with
  | O => None
  | S n' =>
      match s with
      | [] => None
      | q :: s1 =>
          if q =? 0x22 then
            match scanstring s1 with
            | None => None
            | Some (k, r) =>
                match skip_ws r with
                | [] => None
                | c :: r1 =>
                    if c =? 0x3A then
                      match pv (skip_ws r1) with
                      | None => None
                      | Some (v, r2) =>
                          match skip_ws r2 with
                          | [] => None
                          | c' :: r3 =>
                              if c' =? 0x2C
                              then parse_members pv n' (skip_ws r3)
                                     (dict_set acc k v)
                              else if c' =? 0x7D
                              then Some (dict_set acc k v, r3)
                              else None
                          end
                      end
                    else None
                end
            end
          else None
      end
  end.

(** [scan_once]: one value at the head of [s]; [fuel] bounds the nesting. *)
Fixpoint parse_value (fuel : nat) (s : str) : option (json * str) :=
  match fuel with
  | O => None
  | S fuel' =>
      match s with
      | [] => None
      | c :: s1 =>
          if c =? 0x22 then
            match scanstring s1 with
            | Some (k, r) => Some (JString k, r)
            | None => None
            end
          else if c =? 0x7B then
            match skip_ws s1 with
            | [] => None
            | c' :: r =>
                if c' =? 0x7D then Some (JObject [], r)
                else
                  match parse_members (parse_value fuel') (length s1)
                          (c' :: r) [] with
                  | Some (l, r') => Some (JObject l, r')
                  | None => None
                  end
            end
          else if c =? 0x5B then
            match skip_ws s1 with
            | [] => None
            | c' :: r =>
                if c' =? 0x5D then Some (JArray [], r)
                else
                  match parse_items (parse_value fuel') (length s1)
                          (c' :: r) [] with
                  | Some (l, r') => Some (JArray l, r')
                  | None => None
                  end
            end
          else if c =? 0x6E then expect (py "null") JNull s
          else if c =? 0x74 then expect (py "true") (JBool true) s
          else if c =? 0x66 then expect (py "false") (JBool false) s
          else
            match parse_int s with
            | Some (n, r) => Some (JInt n, r)
            | None => None
            end
      end
  end.

(** [json.loads]: one value, with white space around it and nothing else;
    the nesting of a document is less than its length. *)
Definition json_loads (s : str) : option json :=
  match parse_value (S (length s)) (skip_ws s) with
  | Some (v, r) =>
      match skip_ws r with
      | [] => Some v
      | _ :: _ => None
      end
  | None => None
  end.

(** Nesting depth of a value, and the invariant of a Python value: the
    keys of a dict are distinct. *)
Fixpoint depth (v : json) : nat :=
  match v with
  | JArray l => S (fold_right (fun x acc => Nat.max (depth x) acc) O l)
  | JObject l => S (fold_right (fun kv acc => Nat.max (depth (snd kv)) acc) O l)
  | _ => 1%nat
  end.

Fixpoint json_wf (v : json) : Prop :=
  match v with
  | JArray l => fold_right (fun x acc => json_wf x /\ acc) True l
  | JObject l =>
      NoDup (map fst l)
      /\ fold_right (fun kv acc => json_wf (snd kv) /\ acc) True l
  | _ => True
  end.

(** Reading a member of a parsed object, an item of a parsed array. *)
Definition member (k : str) (v : json) : option json :=
  match v with
  | JObject l => snd <$> List.find (fun kv => bool_decide (fst kv = k)) l
  | _ => None
  end.

(** ** [tools/config.py] *)

Record NormalizeOriginalConfig := {
  source_dir : Path;
  output_dir : Path;
  report_path : Path;
  encoding : string
}.

(** [ensure_directories] (lines 33-42). *)
Definition ensure_directories (self : NormalizeOriginalConfig) : M unit :=
  mkdir_parents_exist_ok (output_dir self) ;;
  mkdir_parents_exist_ok (parent (report_path self)).

(** ** [tools/normalize_original.py] *)

Record FileReport := {
  path : str;
  changed : bool;
  characters_before : Z;
  characters_after : Z
}.

Record RunReport := {
  report_source_dir : str;
  report_output_dir : str;
  report_dry_run : bool;
  files : list FileReport
}.

(** The namespace that [parse_args] returns. *)
Record Namespace := {
  args_dry_run : bool;
  args_interactive : bool;
  args_source : option Path;
  args_output : option Path
}.

(** [fnmatch(name, "*.txt")] on a POSIX system. *)
Definition fnmatch_txt (name : str) : bool :=
  bool_decide (py ".txt" `suffix_of` name).

(** The walk of [rglob] reaches [p] from [source_dir] when every path from
    [source_dir] down to the parent of [p] is a directory. *)
Definition walkable (f : gmap Path node) (source_dir p : Path) : bool :=
  forallb (fun n => is_dir f (take n p))
    (seq (length source_dir) (length p - length source_dir)).

Definition below (source_dir p : Path) : bool :=
  bool_decide (source_dir `prefix_of` p)
  && bool_decide (length source_dir < length p)%nat.

(** [source_dir.rglob("*.txt")], in the order of the directory listing. *)
Definition rglob_txt (f : gmap Path node) (source_dir : Path) : list Path :=
  List.filter
    (fun p => below source_dir p && walkable f source_dir p
              && fnmatch_txt (path_name p))
    (map fst (map_to_list f)).

(** [gather_files] (lines 112-113). *)
Definition gather_files (f : gmap Path node) (source_dir : Path) : list Path :=
  merge_sort path_le (List.filter (is_file f) (rglob_txt f source_dir)).

(** [str.isspace], the characters that [str.strip] removes. *)
Definition isspace (c : Z) : bool :=
  ((0x09 <=? c) && (c <=? 0x0D)) || ((0x1C <=? c) && (c <=? 0x20))
  || (c =? 0x85) || (c =? 0xA0) || (c =? 0x1680)
  || ((0x2000 <=? c) && (c <=? 0x200A))
  || (c =? 0x2028) || (c =? 0x2029) || (c =? 0x202F) || (c =? 0x205F)
  || (c =? 0x3000).

Fixpoint lstrip (s : str) : str :=
  match s with
  | [] => []
  | c :: s' => if isspace c then lstrip s' else s
  end.

Definition strip (s : str) : str := rev (lstrip (rev (lstrip s))).

(** [str.lower] on the ASCII letters.  No other character of Unicode
    lowers into the letters of "yes", so the answers that
    [prompt_yes_no] accepts are the same. *)
Definition lower (s : str) : str :=
  map (fun c => if (0x41 <=? c) && (c <=? 0x5A) then c + 0x20 else c) s.

(** [prompt_yes_no] (lines 157-162). *)
Definition prompt_yes_no (prompt : Question) (default : bool) : M bool :=
  answer ← input (LINE_PROMPT prompt default);
  let normalized := lower (strip answer) in
  if bool_decide (normalized = []) then mret default
  else mret (bool_decide (normalized = py "y")
             || bool_decide (normalized = py "yes")).

(** The [ValueError] of [relative_to]. *)
Definition relative_to_or_raise (p base : Path) : M Path :=
  match relative_to p base with
  | Some rel => mret rel
  | None => raise ValueError
  end.

(** [dataclasses.asdict] of a [FileReport]. *)
Definition asdict (item : FileReport) : json :=
  JObject [ (py "path", JString (path item));
            (py "changed", JBool (changed item));
            (py "characters_before", JInt (characters_before item));
            (py "characters_after", JInt (characters_after item)) ].

Definition report_payload (report : RunReport) : json :=
  JObject [ (py "source_dir", JString (report_source_dir report));
            (py "output_dir", JString (report_output_dir report));
            (py "dry_run", JBool (report_dry_run report));
            (py "files", JArray (map asdict (files report))) ].

(** [write_report] (lines 144-154). *)
Definition write_report (report : RunReport) (cfg : NormalizeOriginalConfig)
    : M unit :=
  let payload := report_payload report in
  write_text (report_path cfg) (json_dumps payload).

Section Program.

Context (U : Unicodedata).

(** [PROJECT_ROOT] of [config.py]: the directory above the one that holds
    the module. *)
Context (PROJECT_ROOT : Path).

Definition DEFAULT_CONFIG : NormalizeOriginalConfig :=
  {| source_dir := joinpath PROJECT_ROOT [py "data"; py "original_txt"];
     output_dir := joinpath PROJECT_ROOT [py "results"; py "normalized_original"];
     report_path := joinpath PROJECT_ROOT
                      [py "results"; py "normalized_original"; py "report.json"];
     encoding := "utf-8" |}.

(** The body of the loop of [process_files] (lines 120-134), from the
    reports gathered so far to the reports after this file. *)
Definition process_file (path_ : Path) (cfg : NormalizeOriginalConfig)
    (dry_run : bool) (reports : list FileReport) : M (list FileReport) :=
  original ← read_text path_;
  let normalized := normalise_text U original in
  let changed_ := negb (bool_decide (normalized = original)) in
  rel ← relative_to_or_raise path_ (source_dir cfg);
  let reports :=
    reports ++ [ {| path := path_str rel;
                    changed := changed_;
                    characters_before := Z.of_nat (length original);
                    characters_after := Z.of_nat (length normalized) |} ] in
  (if negb dry_run then
     rel' ← relative_to_or_raise path_ (source_dir cfg);
     let output_path := joinpath (output_dir cfg) rel' in
     mkdir_parents_exist_ok (parent output_path) ;;
     write_text output_path normalized
   else mret tt) ;;
  mret reports.

Fixpoint process_loop (paths : list Path) (cfg : NormalizeOriginalConfig)
    (dry_run : bool) (reports : list FileReport) : M (list FileReport) :=
  match paths with
  | [] => mret reports
  | path_ :: paths' =>
      reports' ← process_file path_ cfg dry_run reports;
      process_loop paths' cfg dry_run reports'
  end.

(** [process_files] (lines 116-141). *)
Definition process_files (paths : list Path) (cfg : NormalizeOriginalConfig)
    (dry_run : bool) : M RunReport :=
  reports ← process_loop paths cfg dry_run [];
  mret {| report_source_dir := path_str (source_dir cfg);
          report_output_dir := path_str (output_dir cfg);
          report_dry_run := dry_run;
          files := reports |}.

(** The configuration that [main] builds from the arguments (lines
    168-182). *)
Definition config_of_args (args : Namespace) : NormalizeOriginalConfig :=
  match args_source args, args_output args with
  | Some source, Some output =>
      {| source_dir := source;
         output_dir := output;
         report_path := joinpath output [py "report.json"];
         encoding := encoding DEFAULT_CONFIG |}
  | Some source, None =>
      {| source_dir := source;
         output_dir := output_dir DEFAULT_CONFIG;
         report_path := report_path DEFAULT_CONFIG;
         encoding := encoding DEFAULT_CONFIG |}
  | None, Some output =>
      {| source_dir := source_dir DEFAULT_CONFIG;
         output_dir := output;
         report_path := joinpath output [py "report.json"];
         encoding := encoding DEFAULT_CONFIG |}
  | None, None => DEFAULT_CONFIG
  end.

(** [main] from the check of the source directory on (lines 200-219). *)
Definition main_run (cfg : NormalizeOriginalConfig) (dry_run : bool) : M Z :=
  f ← get_fs;
  if negb (path_exists f (source_dir cfg)) || negb (is_dir f (source_dir cfg))
  then
    print (LINE_ERROR_SOURCE (source_dir cfg)) ;;
    print LINE_HINT_SOURCE ;;
    mret 1
  else
    let paths := gather_files f (source_dir cfg) in
    if bool_decide (paths = []) then
      print (LINE_WARN_EMPTY (source_dir cfg)) ;;
      mret 0
    else
      report ← process_files paths cfg dry_run;
      write_report report cfg ;;
      (if dry_run then print (LINE_DONE_DRY_RUN (report_path cfg))
       else print (LINE_DONE (output_dir cfg)) ;;
            print (LINE_REPORT (report_path cfg))) ;;
      mret 0.

(** [main] (lines 165-219), from the parsed arguments. *)
Definition main (args : Namespace) : M Z :=
  let cfg := config_of_args args in
  ensure_directories cfg ;;
  print HEADER ;;
  print STEP_TITLE ;;
  print LINE_STEP_10 ;;
  let dry_run := args_dry_run args in
  if args_interactive args then
    run_now ← prompt_yes_no ASK_RUN_NOW true;
    if negb run_now then
      print LINE_CANCELLED ;;
      mret 0
    else
      dry_run ← prompt_yes_no ASK_DRY_RUN dry_run;
      main_run cfg dry_run
  else
    print LINE_NON_INTERACTIVE ;;
    main_run cfg dry_run.

(** [main] up to the check of the source directory (lines 166-198): the
    directories are set up, the banner is printed and the questions are
    asked.  [None] is the cancelled run, [Some dry_run] a run that goes on
    to [main_run]. *)
Definition main_prologue (args : Namespace) : M (option bool) :=
  let cfg := config_of_args args in
  ensure_directories cfg ;;
  print HEADER ;;
  print STEP_TITLE ;;
  print LINE_STEP_10 ;;
  let dry_run := args_dry_run args in
  if args_interactive args then
    run_now ← prompt_yes_no ASK_RUN_NOW true;
    if negb run_now then
      print LINE_CANCELLED ;;
      mret None
    else
      dry_run ← prompt_yes_no ASK_DRY_RUN dry_run;
      mret (Some dry_run)
  else
    print LINE_NON_INTERACTIVE ;;
    mret (Some dry_run).

(** The entry that the specification expects for a file of text
    [content] whose path below the source directory is [rel]. *)
Definition expected_report (content : str) (rel : Path) : FileReport :=
  {| path := path_str rel;
     changed := negb (bool_decide (normalise_text U content = content));
     characters_before := Z.of_nat (length content);
     characters_after := Z.of_nat (length (normalise_text U content)) |}.

End Program.

(** ** Vocabulary of the properties *)

(** A regular file, whatever its content and permissions. *)
Definition regular (o : option node) : Prop :=
  exists r w d, o = Some (File r w d).

(** How the program may change the filesystem: an entry stays as it is,
    or a directory appears where there was nothing, or, at a path that
    [P] allows, a regular file is written where there was nothing or a
    regular file. *)
Definition evolves (P : Path -> Prop) (f f' : gmap Path node) : Prop :=
  forall k,
    f' !! k = f !! k
    \/ (f !! k = None /\ f' !! k = Some Dir)
    \/ (P k /\ (f !! k = None \/ regular (f !! k)) /\ regular (f' !! k)).

Definition nowhere : Path -> Prop := fun _ => False.

(** Every entry of a well-formed filesystem lies in a directory. *)
Definition fs_wf (f : gmap Path node) : Prop :=
  forall p, is_Some (f !! p) -> is_dir f (parent p) = true.

Definition is_read (e : event) : Prop :=
  match e with
  | EvRead _ => True
  | _ => False
  end.

(** An answer that [prompt_yes_no] with default yes takes as a no. *)
Definition declines (answer : str) : Prop :=
  lower (strip answer) <> [] /\
  lower (strip answer) <> py "y" /\
  lower (strip answer) <> py "yes".

(** The path to which [process_files] writes the file [p]. *)
Definition output_path_of (cfg : NormalizeOriginalConfig) (p : Path)
    : option Path :=
  match relative_to p (source_dir cfg) with
  | Some rel => Some (joinpath (output_dir cfg) rel)
  | None => None
  end.

Definition is_output (cfg : NormalizeOriginalConfig) (paths : list Path)
    (k : Path) : Prop :=
  exists p, In p paths /\ output_path_of cfg p = Some k.


(** No file that [process_files] writes is one of the files it reads. *)
Definition no_alias (cfg : NormalizeOriginalConfig) (paths : list Path) : Prop :=
  forall p q, In p paths -> In q paths -> output_path_of cfg p <> Some q.

(** What a call of [mkdir] leaves behind: the console and the log are
    untouched and the filesystem has at most gained directories. *)
Definition mkdir_post (p : Path) (w : World) (r : result unit) (w' : World) : Prop :=
  stdin w' = stdin w /\ stdout w' = stdout w /\ log w' = log w /\
  evolves nowhere (fs w) (fs w') /\
  (r = Ok tt -> is_dir (fs w') p = true).

(** What may follow a value in an encoded document: nothing, a comma or a
    line break. *)
Definition terminated (rest : str) : Prop :=
  match rest with
  | [] => True
  | c :: _ => c = 0x2C \/ c = 0x0A
  end.

(** The digits that [int.__repr__] writes: a lone zero, or digits that
    begin with a digit other than zero. *)
Definition leading (u : Decimal.uint) : Prop :=
  match u with
  | Decimal.Nil | Decimal.D0 _ => False
  | _ => True
  end.

(** A character at which a value can begin in a document without floats:
    neither white space nor a closing bracket. *)
Definition value_head (c : Z) : bool :=
  negb ((c =? 0x20) || (c =? 0x09) || (c =? 0x0A) || (c =? 0x0D)
        || (c =? 0x5D) || (c =? 0x7D)).

Definition num_head (c : Z) : bool :=
  (c =? 0x2D) || ((0x30 <=? c) && (c <=? 0x39)).

(** [p] lies below [source_dir], at any depth. *)
Definition strictly_below (source_dir p : Path) : Prop :=
  source_dir `prefix_of` p /\ source_dir <> p.

(** Every path from [source_dir] down to the parent of [p] is a
    directory. *)
Definition reachable (f : gmap Path node) (source_dir p : Path) : Prop :=
  forall d, source_dir `prefix_of` d -> d `prefix_of` p -> d <> p ->
            is_dir f d = true.

(** The order in the words of the specification: each path, written as a
    string, is at most every later one in the order of strings. *)
Definition sorted_by_full_path (l : list Path) : Prop :=
  StronglySorted (fun p q => str_leb (path_str p) (path_str q) = true) l.

(** The value of [prompt_yes_no] on an answer. *)
Definition answer_value (default : bool) (answer : str) : bool :=
  let normalized := lower (strip answer) in
  if bool_decide (normalized = []) then default
  else bool_decide (normalized = py "y") || bool_decide (normalized = py "yes").

(** ** Worlds for the examples *)

Definition EXAMPLE_ROOT : Path := [py "proj"].

Definition example_config : NormalizeOriginalConfig := DEFAULT_CONFIG EXAMPLE_ROOT.

(** A project with two transcripts, one of them in a subdirectory, and a
    file of another kind. *)
Definition example_fs : gmap Path node :=
  {[ [py "proj"] := Dir;
     [py "proj"; py "data"] := Dir;
     [py "proj"; py "data"; py "original_txt"] := Dir;
     [py "proj"; py "data"; py "original_txt"; py "b.txt"]
       := File true true (Text [0x3000; 0x61]);
     [py "proj"; py "data"; py "original_txt"; py "sub"] := Dir;
     [py "proj"; py "data"; py "original_txt"; py "sub"; py "a.txt"]
       := File true true (Text [0x61]);
     [py "proj"; py "data"; py "original_txt"; py "c.md"]
       := File true true (Text [0x61]) ]}.

(** The same project when the second transcript is not valid text. *)
Definition broken_fs : gmap Path node :=
  <[ [py "proj"; py "data"; py "original_txt"; py "sub"; py "a.txt"]
     := File true true Undecodable ]> example_fs.

Definition world_of (f : gmap Path node) (answers : list str) : World :=
  {| fs := f; stdin := answers; stdout := []; log := [] |}.

Definition example_args (dry_run interactive : bool) : Namespace :=
  {| args_dry_run := dry_run; args_interactive := interactive;
     args_source := None; args_output := None |}.

Definition example_paths : list Path :=
  gather_files example_fs (source_dir example_config).

(** A configuration that normalises a directory in place. *)
Definition in_place_config : NormalizeOriginalConfig :=
  {| source_dir := [py "d"]; output_dir := [py "d"];
     report_path := [py "d"; py "report.json"]; encoding := "utf-8" |}.

Definition in_place_fs : gmap Path node :=
  {[ [py "d"] := Dir;
     [py "d"; py "a.txt"] := File true true (Text [0x3000]) ]}.

(** A directory with the transcript "a.txt" beside the directory "a". *)
Definition order_fs : gmap Path node :=
  {[ [py "src"] := Dir;
     [py "src"; py "a"] := Dir;
     [py "src"; py "a"; py "x.txt"] := File true true (Text [0x61]);
     [py "src"; py "a.txt"] := File true true (Text [0x62]) ]}.

(** The value of a computation that ends well. *)
Definition value_of {A} (x : result A * World) (d : A) : A :=
  match fst x with
  | Ok a => a
  | Raise _ => d
  end.

Definition empty_report : RunReport :=
  {| report_source_dir := []; report_output_dir := []; report_dry_run := false;
     files := [] |}.

(** ** Vocabulary of the further properties *)

(** The filesystem [f'] is [f] with new directories, each at a path that
    [D] allows and that held nothing. *)
Definition creates_dirs (D : Path -> Prop) (f f' : gmap Path node) : Prop :=
  forall k, f' !! k = f !! k \/ (D k /\ f !! k = None /\ f' !! k = Some Dir).

(** The errors of the filesystem calls, as opposed to the [ValueError] of
    [relative_to] and the [EOFError] of [input]. *)
Definition raised_by_io (e : exn) : Prop :=
  match e with
  | ValueError | EOFError => False
  | _ => True
  end.

(** The I/O calls of one turn of [process_files] that ends well, for the
    file [p] that held [content]. *)
Definition turn_events (U : Unicodedata) (cfg : NormalizeOriginalConfig)
    (dry_run : bool) (p : Path) (content : str) : list event :=
  EvRead p ::
  (if dry_run then []
   else match output_path_of cfg p with
        | Some out => [EvMkdir (parent out);
                       EvWrite out (normalise_text U content)]
        | None => []
        end).

(** A line of white space only. *)
Definition blank (s : str) : Prop := Forall (fun c => isspace c = true) s.

(** The spellings of "y" and "yes". *)
Definition YES_ANSWERS : list str :=
  [ py "y"; py "Y";
    py "yes"; py "yeS"; py "yEs"; py "yES";
    py "Yes"; py "YeS"; py "YEs"; py "YES" ].

(** The lines that end a run of [main] which processed files. *)
Definition done_lines (cfg : NormalizeOriginalConfig) (dry_run : bool)
    : list Line :=
  if dry_run then [LINE_DONE_DRY_RUN (report_path cfg)]
  else [LINE_DONE (output_dir cfg); LINE_REPORT (report_path cfg)].

(** The paths at which [main] may write a file: the report, and below the
    output directory a file whose name ends in ".txt". *)
Definition may_write (cfg : NormalizeOriginalConfig) (k : Path) : Prop :=
  k = report_path cfg \/
  (output_dir cfg `prefix_of` k /\ py ".txt" `suffix_of` path_name k).

(** The lines that open every run of [main]. *)
Definition BANNER : list Line := [HEADER; STEP_TITLE; LINE_STEP_10].

(** The world [w] with [input] left on the console input and the lines
    [lines] printed. *)
Definition console (w : World) (input : list str) (lines : list Line) : World :=
  {| fs := fs w; stdin := input; stdout := stdout w ++ lines; log := log w |}.

(** Arguments that point the output at one of the transcripts. *)
Definition output_on_file_args : Namespace :=
  {| args_dry_run := false; args_interactive := false;
     args_source := None;
     args_output := Some [py "proj"; py "data"; py "original_txt"; py "b.txt"] |}.

(** The project in which a directory stands where the report should go. *)
Definition report_blocked_fs : gmap Path node :=
  <[ [py "proj"; py "results"; py "normalized_original"; py "report.json"]
     := Dir ]>
    (<[ [py "proj"; py "results"; py "normalized_original"] := Dir ]>
       (<[ [py "proj"; py "results"] := Dir ]> example_fs)).

(** The project after a run: the output directory and the report are
    there. *)
Definition report_present_fs : gmap Path node :=
  <[ [py "proj"; py "results"; py "normalized_original"; py "report.json"]
     := File true true (Text (py "{}")) ]>
    (<[ [py "proj"; py "results"; py "normalized_original"] := Dir ]>
       (<[ [py "proj"; py "results"] := Dir ]> example_fs)).

(** A code point that UTF-8 encodes: any but a surrogate. *)
Definition is_scalar (c : Z) : bool :=
  ((0 <=? c) && (c <? 0xD800)) || ((0xDFFF <? c) && (c <=? 0x10FFFF)).

(** A text that [str.encode] accepts for "utf-8". *)
Definition encodable (s : str) : Prop := forallb is_scalar s = true.

(** The two filesystems agree outside the paths that [P] allows. *)
Definition agree_outside (P : Path -> Prop) (f f' : gmap Path node) : Prop :=
  forall k, f' !! k = f !! k \/ P k.

(** On the line of the output directory: above it, the directory itself or
    below it. *)
Definition on_output_line (cfg : NormalizeOriginalConfig) (k : Path) : Prop :=
  k `prefix_of` output_dir cfg \/ output_dir cfg `prefix_of` k.

(** Neither of the source and output directories is the other or lies in
    the other. *)
Definition separate (cfg : NormalizeOriginalConfig) : Prop :=
  ~ source_dir cfg `prefix_of` output_dir cfg /\
  ~ output_dir cfg `prefix_of` source_dir cfg.

(** A character that [json.dumps] with [ensure_ascii=False] writes as it
    is: not a control below U+0020, not the quote, not the backslash. *)
Definition plain (c : Z) : Prop := 0x20 <= c /\ c <> 0x22 /\ c <> 0x5C.

(** The member ["path": "s"] as it stands in a document. *)
Definition path_member (s : str) : str :=
  [0x22] ++ py "path" ++ [0x22] ++ py ": " ++ [0x22] ++ s ++ [0x22].

(** A report of one file with a name in Chinese. *)
Definition chinese_report : RunReport :=
  {| report_source_dir := py "data/original_txt";
     report_output_dir := py "results/normalized_original";
     report_dry_run := true;
     files := [ {| path := [0x4E2D; 0x6587; 0x2E; 0x74; 0x78; 0x74];
                   changed := false;
                   characters_before := 12;
                   characters_after := 12 |} ] |}.

(** The file [p] has been processed in the filesystem [f]: it holds a text
    whose normal form is in place at its output path, and [entry] is the
    entry of the report for it. *)
Definition settled (U : Unicodedata) (cfg : NormalizeOriginalConfig)
    (f : gmap Path node) (p : Path) (entry : FileReport) : Prop :=
  exists content wr rel rd,
    node_at f p = Some (File true wr (Text content)) /\
    relative_to p (source_dir cfg) = Some rel /\ rel <> [] /\
    is_dir f (parent (joinpath (output_dir cfg) rel)) = true /\
    f !! joinpath (output_dir cfg) rel
    = Some (File rd true (Text (normalise_text U content))) /\
    entry = expected_report U content rel.

(** The file [p] can be read in [f] and [entry] is its entry. *)
Definition readable (U : Unicodedata) (cfg : NormalizeOriginalConfig)
    (f : gmap Path node) (p : Path) (entry : FileReport) : Prop :=
  exists content wr rel,
    node_at f p = Some (File true wr (Text content)) /\
    relative_to p (source_dir cfg) = Some rel /\
    entry = expected_report U content rel.

(* ===================================================================== *)
(** * Part II: properties                                                 *)
(* ===================================================================== *)

(** ** The text normaliser *)

Section Normaliser.

Context (U : Unicodedata).

Local Abbreviation has_selector_name := (has_selector_name U).
Local Abbreviation clean := (clean U).

Lemma startswith_spec needle hay :
  startswith needle hay = true <-> exists post, hay = String.append needle post.
Proof.
  revert hay. induction needle as [|a n IH]; intros hay; simpl.
  - split; eauto.
  - destruct hay as [|b h].
    + split; [discriminate | intros [post Hp]; discriminate].
    + destruct (Ascii.eqb_spec a b) as [->|Hne].
      * rewrite IH. split; intros [post Hp]; exists post.
        -- now rewrite Hp.
        -- now inversion Hp.
      * split; [discriminate | intros [post Hp]; inversion Hp; congruence].
Qed.

Lemma str_in_spec needle hay :
  str_in needle hay = true <->
  exists pre post, hay = String.append pre (String.append needle post).
Proof.
  induction hay as [|b h IH]; simpl.
  - destruct (startswith needle "") eqn:E.
    + apply startswith_spec in E as [post Hp].
      split; [intros _; exists EmptyString, post; exact Hp | reflexivity].
    + split; [discriminate|].
      intros [pre [post Hp]]. destruct pre; simpl in Hp.
      * assert (startswith needle "" = true) by (apply startswith_spec; eauto).
        congruence.
      * discriminate.
  - destruct (startswith needle (String b h)) eqn:E.
    + apply startswith_spec in E as [post Hp].
      split; [intros _; exists EmptyString, post; exact Hp | reflexivity].
    + rewrite IH. split.
      * intros [pre [post Hp]]. exists (String b pre), post. simpl. now rewrite Hp.
      * intros [pre [post Hp]]. destruct pre as [|c pre]; simpl in Hp.
        -- assert (startswith needle (String b h) = true)
             by (apply startswith_spec; eauto).
           congruence.
        -- inversion Hp; subst. eauto.
Qed.

Lemma is_variation_selector_spec ch :
  _is_variation_selector U ch = true <-> has_selector_name ch.
Proof.
  unfold _is_variation_selector, has_selector_name, name_default.
  rewrite str_in_spec. destruct (name U ch) as [n|].
  - split.
    + intros [pre [post Hp]]. exists n, pre, post. auto.
    + intros [n' [pre [post [Hn Hp]]]]. inversion Hn; subst. eauto.
  - split.
    + intros [pre [post Hp]]. destruct pre; discriminate.
    + intros [n' [pre [post [Hn Hp]]]]. discriminate.
Qed.

Lemma unnamed_not_selector ch :
  name U ch = None -> _is_variation_selector U ch = false.
Proof.
  intros H. unfold _is_variation_selector, name_default. now rewrite H.
Qed.

Lemma normalise_text_unfold T :
  normalise_text U T = clean (substituted U T).
Proof. reflexivity. Qed.

(** The substitution table: lookups against the ten pairs. *)
Lemma table_lookup_Some ch r :
  COMPATIBILITY_TRANSLATION !! ch = Some r -> In (ch, r) COMPATIBILITY_PAIRS.
Proof.
  intros H. apply list_elem_of_In.
  now apply (elem_of_list_to_map_2 (M := gmap Z)).
Qed.

Lemma table_lookup_None ch :
  COMPATIBILITY_TRANSLATION !! ch = None -> ~ is_source ch.
Proof.
  intros H Hin. apply (not_elem_of_list_to_map_2 (M := gmap Z)) in H.
  apply H. now apply list_elem_of_In.
Qed.

Lemma replacement_not_source ch r x :
  In (ch, r) COMPATIBILITY_PAIRS -> In x r -> ~ is_source x.
Proof.
  unfold is_source. simpl. intros Hp Hx Hs.
  repeat (destruct Hp as [Hp|Hp]; [inversion Hp; subst; clear Hp; simpl in Hx |]);
    try contradiction;
    (destruct Hx as [<-|[]]; intuition discriminate).
Qed.

Lemma translate_char_no_source ch x :
  In x (translate_char COMPATIBILITY_TRANSLATION ch) -> ~ is_source x.
Proof.
  unfold translate_char.
  destruct (COMPATIBILITY_TRANSLATION !! ch) as [r|] eqn:E; intros Hx.
  - eapply replacement_not_source; eauto using table_lookup_Some.
  - destruct Hx as [<-|[]]. now apply table_lookup_None.
Qed.

Lemma translate_no_source s x :
  In x (translate COMPATIBILITY_TRANSLATION s) -> ~ is_source x.
Proof.
  unfold translate. rewrite in_flat_map. intros [ch [_ Hx]].
  eauto using translate_char_no_source.
Qed.

Lemma translate_char_fixed ch :
  ~ is_source ch -> translate_char COMPATIBILITY_TRANSLATION ch = [ch].
Proof.
  intros Hs. unfold translate_char.
  destruct (COMPATIBILITY_TRANSLATION !! ch) as [r|] eqn:E; [|reflexivity].
  exfalso. apply Hs. apply table_lookup_Some in E.
  unfold is_source. change ch with (fst (ch, r)). now apply in_map.
Qed.

Lemma translate_fixed s :
  (forall x, In x s -> ~ is_source x) ->
  translate COMPATIBILITY_TRANSLATION s = s.
Proof.
  induction s as [|c s IH]; intros H; [reflexivity|].
  unfold translate in *. simpl.
  rewrite translate_char_fixed by (apply H; now left).
  simpl. f_equal. apply IH. intros x Hx. apply H. now right.
Qed.

Lemma clean_In s x :
  In x (clean s) <-> In x s /\ _is_variation_selector U x = false.
Proof.
  unfold clean. rewrite filter_In. now rewrite negb_true_iff.
Qed.

Lemma clean_clean s : clean (clean s) = clean s.
Proof.
  induction s as [|c s IH]; [reflexivity|].
  unfold clean in *. simpl.
  destruct (negb (_is_variation_selector U c)) eqn:E; [|exact IH].
  simpl. rewrite E. now f_equal.
Qed.

Lemma clean_sublist s : sublist (clean s) s.
Proof.
  induction s as [|c s IH]; unfold clean in *; simpl.
  - constructor.
  - destruct (negb (_is_variation_selector U c)); now constructor.
Qed.

Lemma clean_count s x :
  _is_variation_selector U x = false ->
  count_occ Z.eq_dec (clean s) x = count_occ Z.eq_dec s x.
Proof.
  intros Hx. induction s as [|c s IH]; [reflexivity|].
  unfold clean in *. simpl.
  destruct (Z.eq_dec c x) as [->|Hne].
  - rewrite Hx. simpl. destruct (Z.eq_dec x x); [|contradiction]. now f_equal.
  - destruct (negb (_is_variation_selector U c)); [simpl|exact IH].
    destruct (Z.eq_dec c x); [contradiction|exact IH].
Qed.

Lemma clean_app s t : clean (s ++ t) = clean s ++ clean t.
Proof. apply List.filter_app. Qed.

Lemma clean_only (v : Z) s :
  _is_variation_selector U v = true ->
  (forall x, In x s -> x <> v -> _is_variation_selector U x = false) ->
  clean s = List.filter (fun x => negb (x =? v)) s.
Proof.
  intros Hv Hs. induction s as [|c s IH]; [reflexivity|].
  unfold clean in *. simpl. destruct (Z.eqb_spec c v) as [->|Hne].
  - rewrite Hv. simpl. apply IH. intros x Hx. apply Hs. now right.
  - rewrite (Hs c) by (auto; now left). simpl. f_equal.
    apply IH. intros x Hx. apply Hs. now right.
Qed.

(** Output of [normalise_text] never holds a source character of the
    table, whatever the normalisation did before. *)
Lemma normalise_text_no_source T x :
  In x (normalise_text U T) -> ~ is_source x.
Proof.
  rewrite normalise_text_unfold, clean_In. intros [Hx _].
  eauto using translate_no_source.
Qed.

(** C1, as amended.  A second pass changes nothing whenever the text that
    the first pass returned is already in NFKC form: the substitution finds
    no source character left and the removal no selector.  (Without that
    condition the removal of a selector can put a combining mark next to
    its base, which the second pass composes.) *)
Theorem normalise_text_idempotent_on_nfkc (T : str) :
  normalize_NFKC U (normalise_text U T) = normalise_text U T ->
  normalise_text U (normalise_text U T) = normalise_text U T.
Proof.
  intros Hstable.
  rewrite (normalise_text_unfold (normalise_text U T)).
  unfold substituted. rewrite Hstable.
  rewrite translate_fixed by (intros x; apply normalise_text_no_source).
  rewrite normalise_text_unfold. apply clean_clean.
Qed.

End Normaliser.

(** ** Evaluations on the excerpt *)

Example nfkc_keeps_selector :
  nfkc UCD_EXCERPT [0x61; 0xFE0F; 0x301] = [0x61; 0xFE0F; 0x301].
Proof. reflexivity. Qed.

Example nfkc_composes :
  nfkc UCD_EXCERPT [0x61; 0x301] = [0xE1].
Proof. reflexivity. Qed.

Example nfkc_reorders :
  nfkc UCD_EXCERPT [0x61; 0x301; 0x323] = [0x1EA1; 0x301].
Proof. reflexivity. Qed.

Example normalise_heart :
  normalise_text unicodedata [0x2764; 0xFE0F] = [0x2764].
Proof. vm_compute. reflexivity. Qed.

Example normalise_full_width_space :
  normalise_text unicodedata [0x5168; 0x89D2; 0x3000; 0x7A7A; 0x683C]
  = [0x5168; 0x89D2; 0x20; 0x7A7A; 0x683C].
Proof. vm_compute. reflexivity. Qed.

(** C1, counterexample.  On "a", VARIATION SELECTOR-16, COMBINING ACUTE
    ACCENT the first pass returns "a" followed by the accent (the selector
    kept the two apart during NFKC and is then removed); the second pass
    composes them into U+00E1. *)
Lemma normalise_text_not_idempotent :
  normalise_text unicodedata [0x61; 0xFE0F; 0x301] = [0x61; 0x301] /\
  normalise_text unicodedata (normalise_text unicodedata [0x61; 0xFE0F; 0x301])
    = [0xE1] /\
  ~ (forall T : str,
       normalise_text unicodedata (normalise_text unicodedata T)
       = normalise_text unicodedata T).
Proof.
  split; [vm_compute; reflexivity|].
  split; [vm_compute; reflexivity|].
  intros H. specialize (H [0x61; 0xFE0F; 0x301]).
  vm_compute in H. discriminate.
Qed.

Lemma normalise_text_idempotent_on_nfkc_witness :
  normalise_text unicodedata
    (normalise_text unicodedata [0x5168; 0x3000; 0x2014; 0x2764; 0xFE0F; 0xFF21])
  = normalise_text unicodedata [0x5168; 0x3000; 0x2014; 0x2764; 0xFE0F; 0xFF21].
Proof.
  apply (normalise_text_idempotent_on_nfkc unicodedata
           [0x5168; 0x3000; 0x2014; 0x2764; 0xFE0F; 0xFF21]).
  vm_compute. reflexivity.
Defined.


(** C3.  The removal step of [normalise_text] works on the normalised and
    substituted text and deletes exactly the characters whose name has the
    substring "VARIATION SELECTOR": the result is a subsequence of that
    text, no character of the result has such a name, and every other
    character keeps all its occurrences, in particular a character without a
    registered name.  Where U+FE0F carries its name of the UCD it is absent
    from every output, and when it is the only selector of the text the
    output is that text with the occurrences of U+FE0F deleted. *)
Theorem selector_removal (U : Unicodedata) (T : str) :
  normalise_text U T = clean U (substituted U T) /\
  sublist (normalise_text U T) (substituted U T) /\
  (forall ch, In ch (normalise_text U T) <->
              In ch (substituted U T) /\ ~ has_selector_name U ch) /\
  (forall ch, ~ has_selector_name U ch ->
     count_occ Z.eq_dec (normalise_text U T) ch
     = count_occ Z.eq_dec (substituted U T) ch) /\
  (forall ch, name U ch = None ->
     count_occ Z.eq_dec (normalise_text U T) ch
     = count_occ Z.eq_dec (substituted U T) ch) /\
  (forall pre ch post, substituted U T = pre ++ ch :: post ->
     normalise_text U T
     = clean U pre ++ (if _is_variation_selector U ch then [] else [ch])
       ++ clean U post) /\
  (name U 0xFE0F = Some "VARIATION SELECTOR-16"%string ->
     ~ In 0xFE0F (normalise_text U T) /\
     ((forall ch, In ch (substituted U T) -> ch <> 0xFE0F ->
                  ~ has_selector_name U ch) ->
      normalise_text U T
      = List.filter (fun ch => negb (ch =? 0xFE0F)) (substituted U T))).
Proof.
  assert (Hnot : forall ch, ~ has_selector_name U ch <->
                            _is_variation_selector U ch = false).
  { intros ch. rewrite <- is_variation_selector_spec.
    destruct (_is_variation_selector U ch); intuition congruence. }
  split; [reflexivity|].
  split; [apply clean_sublist|].
  split.
  { intros ch. rewrite normalise_text_unfold, clean_In, Hnot. reflexivity. }
  split.
  { intros ch Hch. rewrite normalise_text_unfold. apply clean_count.
    now apply Hnot. }
  split.
  { intros ch Hch. rewrite normalise_text_unfold. apply clean_count.
    now apply unnamed_not_selector. }
  split.
  { intros pre ch post Hs. rewrite normalise_text_unfold, Hs, clean_app.
    f_equal. unfold clean. simpl.
    now destruct (_is_variation_selector U ch). }
  intros Hname.
  assert (Hsel : _is_variation_selector U 0xFE0F = true).
  { unfold _is_variation_selector, name_default. rewrite Hname. reflexivity. }
  split.
  - rewrite normalise_text_unfold, clean_In. intros [_ Hf]. congruence.
  - intros Honly. rewrite normalise_text_unfold. apply clean_only; [exact Hsel|].
    intros x Hx Hne. apply Hnot. now apply Honly.
Qed.

Lemma selector_removal_witness :
  name unicodedata 0xFE0F = Some "VARIATION SELECTOR-16"%string /\
  ~ In 0xFE0F (normalise_text unicodedata [0x61; 0xFE0F; 0x62]) /\
  normalise_text unicodedata [0x61; 0xFE0F; 0x62] = [0x61; 0x62].
Proof.
  split; [reflexivity|].
  pose proof (selector_removal unicodedata [0x61; 0xFE0F; 0x62]) as H.
  destruct H as (_ & _ & _ & _ & _ & _ & H).
  destruct (H eq_refl) as [Hno Honly].
  split; [exact Hno|].
  rewrite Honly; [vm_compute; reflexivity|].
  intros ch Hin Hne Hsel.
  apply is_variation_selector_spec in Hsel.
  vm_compute in Hin.
  destruct Hin as [<-|[<-|[<-|[]]]];
    [vm_compute in Hsel; discriminate | contradiction
    | vm_compute in Hsel; discriminate].
Defined.

(** ** The filesystem primitives *)

Ltac munfold :=
  unfold mbind, M_bind, mret, M_ret, raise, try_except, get_fs, put_fs,
    log_event, print in *.

Lemma node_at_cons (f : gmap Path node) x p :
  node_at f (x :: p) = f !! (x :: p).
Proof. reflexivity. Qed.

Lemma node_at_lookup (f : gmap Path node) p :
  p <> [] -> node_at f p = f !! p.
Proof. destruct p; [congruence | reflexivity]. Qed.

Lemma node_at_None (f : gmap Path node) p :
  node_at f p = None -> p <> [] /\ f !! p = None.
Proof. destruct p; [discriminate | intros H; split; [discriminate | exact H]]. Qed.

Lemma regular_File r w d : regular (Some (File r w d)).
Proof. exists r, w, d. reflexivity. Qed.

Lemma not_regular_Dir : ~ regular (Some Dir).
Proof. intros (r & w & d & H). discriminate. Qed.

Lemma not_regular_None : ~ regular None.
Proof. intros (r & w & d & H). discriminate. Qed.

Lemma evolves_refl P f : evolves P f f.
Proof. intros k. now left. Qed.

Lemma evolves_weaken (P Q : Path -> Prop) f f' :
  (forall k, P k -> Q k) -> evolves P f f' -> evolves Q f f'.
Proof.
  intros HPQ H k. destruct (H k) as [H1|[H1|(H1 & H2 & H3)]]; auto.
Qed.

Lemma evolves_trans P f1 f2 f3 :
  evolves P f1 f2 -> evolves P f2 f3 -> evolves P f1 f3.
Proof.
  intros H12 H23 k.
  destruct (H12 k) as [A|[[A1 A2]|(A1 & A2 & A3)]];
    destruct (H23 k) as [B|[[B1 B2]|(B1 & B2 & B3)]].
  - left. congruence.
  - right. left. split; congruence.
  - right. right. rewrite <- A. auto.
  - right. left. split; congruence.
  - congruence.
  - exfalso. rewrite A2 in B2. destruct B2 as [B2|B2]; [discriminate|].
    now apply not_regular_Dir in B2.
  - right. right. rewrite B. auto.
  - exfalso. rewrite B1 in A3. now apply not_regular_None in A3.
  - right. right. auto.
Qed.

Lemma evolves_dir (P : Path -> Prop) f f' (p : Path) :
  evolves P f f' -> is_dir f p = true -> is_dir f' p = true.
Proof.
  intros H. unfold is_dir. destruct p as [|x p]; [auto|].
  rewrite !node_at_cons. intros Hd.
  destruct (H (x :: p)) as [A|[[A1 A2]|(A1 & A2 & A3)]].
  - now rewrite A.
  - now rewrite A2.
  - exfalso. destruct (f !! (x :: p)) as [[]|] eqn:E; try discriminate.
    destruct A2 as [A2|A2]; [discriminate | now apply not_regular_Dir in A2].
Qed.

Lemma evolves_insert_dir (P : Path -> Prop) (f : gmap Path node) (p : Path) :
  f !! p = None -> evolves P f (<[p := Dir]> f).
Proof.
  intros Hp k. destruct (decide (p = k)) as [->|Hne].
  - right. left. rewrite lookup_insert_eq. auto.
  - left. now rewrite lookup_insert_ne.
Qed.

(** [os.mkdir] either fails and changes nothing or adds one directory. *)
Lemma os_mkdir_spec p w r w' :
  os_mkdir p w = (r, w') ->
  (r = Ok tt /\ fs w !! p = None /\ p <> [] /\
   w' = {| fs := <[p := Dir]> (fs w); stdin := stdin w; stdout := stdout w;
           log := log w |})
  \/ (exists e, r = Raise e /\ w' = w).
Proof.
  unfold os_mkdir. munfold.
  destruct (node_at (fs w) p) as [n|] eqn:E.
  - intros H; inversion H; subst. right. eauto.
  - apply node_at_None in E as [Hne E].
    destruct (node_at (fs w) (parent p)) as [[]|];
      intros H; inversion H; subst; try (right; eexists; split; reflexivity).
    left. auto.
Qed.

Lemma is_dir_insert_dir (f : gmap Path node) p :
  is_dir (<[p := Dir]> f) p = true.
Proof.
  unfold is_dir. destruct p as [|x p]; [reflexivity|].
  now rewrite node_at_cons, lookup_insert_eq.
Qed.

Lemma mkdir_except_OSError_spec p e w r w' :
  mkdir_except_OSError p e w = (r, w') -> mkdir_post p w r w'.
Proof.
  unfold mkdir_except_OSError. munfold.
  destruct (is_dir (fs w) p) eqn:E; intros H; inversion H; subst;
    repeat split; auto using evolves_refl; discriminate.
Qed.

Lemma mkdir_exist_ok_spec p w r w' :
  mkdir_exist_ok p w = (r, w') -> mkdir_post p w r w'.
Proof.
  unfold mkdir_exist_ok. munfold.
  destruct (os_mkdir p w) as [r1 w1] eqn:E1.
  apply os_mkdir_spec in E1 as [(-> & Hp & Hne & ->)|(e & -> & ->)].
  - intros H; inversion H; subst. repeat split; simpl; auto.
    + now apply evolves_insert_dir.
    + intros _. apply is_dir_insert_dir.
  - destruct e; try apply mkdir_except_OSError_spec.
    intros H; inversion H; subst.
    repeat split; auto using evolves_refl; discriminate.
Qed.

Lemma mkdir_parents_rev_unfold rp :
  mkdir_parents_rev rp =
  try_except (os_mkdir (rev rp))
    (fun e => match e with
              | FileNotFoundError =>
                  match rp with
                  | [] => raise FileNotFoundError
                  | _ :: rparent =>
                      mkdir_parents_rev rparent ;;
                      mkdir_exist_ok (rev rp)
                  end
              | _ => mkdir_except_OSError (rev rp) e
              end).
Proof. destruct rp; reflexivity. Qed.

Lemma mkdir_parents_rev_spec rp : forall w r w',
  mkdir_parents_rev rp w = (r, w') -> mkdir_post (rev rp) w r w'.
Proof.
  induction rp as [|x rp IH]; intros w r w'; rewrite mkdir_parents_rev_unfold;
    unfold try_except.
  - destruct (os_mkdir (rev []) w) as [r1 w1] eqn:E1.
    apply os_mkdir_spec in E1 as [(-> & Hp & Hne & ->)|(e & -> & ->)].
    + now simpl in Hne.
    + destruct e; try apply mkdir_except_OSError_spec.
      unfold raise. intros H; inversion H; subst.
      repeat split; auto using evolves_refl; discriminate.
  - destruct (os_mkdir (rev (x :: rp)) w) as [r1 w1] eqn:E1.
    apply os_mkdir_spec in E1 as [(-> & Hp & Hne & ->)|(e & -> & ->)].
    + intros H; inversion H; subst. repeat split; simpl; auto.
      * now apply evolves_insert_dir.
      * intros _. apply is_dir_insert_dir.
    + destruct e; try apply mkdir_except_OSError_spec.
      unfold mbind, M_bind.
      destruct (mkdir_parents_rev rp w) as [r1 w1] eqn:E1.
      apply IH in E1 as (H1 & H2 & H3 & H4 & H5).
      destruct r1 as [[]|e].
      * intros E2. apply mkdir_exist_ok_spec in E2 as (G1 & G2 & G3 & G4 & G5).
        repeat split; try congruence; [eapply evolves_trans; eauto | exact G5].
      * intros H; inversion H; subst. repeat split; auto. discriminate.
Qed.

Lemma mkdir_parents_exist_ok_spec p w r w' :
  mkdir_parents_exist_ok p w = (r, w') ->
  stdin w' = stdin w /\ stdout w' = stdout w /\
  log w' = log w ++ [EvMkdir p] /\
  evolves nowhere (fs w) (fs w') /\
  (r = Ok tt -> is_dir (fs w') p = true).
Proof.
  unfold mkdir_parents_exist_ok. munfold. intros H.
  apply mkdir_parents_rev_spec in H as (H1 & H2 & H3 & H4 & H5).
  simpl in *. rewrite rev_involutive in H5. auto.
Qed.

Lemma read_text_spec p w r w' :
  read_text p w = (r, w') ->
  fs w' = fs w /\ stdin w' = stdin w /\ stdout w' = stdout w /\
  log w' = log w ++ [EvRead p] /\
  (forall s, r = Ok s <->
             exists wr, node_at (fs w) p = Some (File true wr (Text s))).
Proof.
  unfold read_text. munfold. simpl.
  destruct (node_at (fs w) p) as [[[] wr [s|]| |]|];
    intros Hres; inversion Hres; subst; simpl; repeat split; auto;
    try (intros [wr' Hs]; congruence); try discriminate.
  intros Hs. inversion Hs; eauto.
Qed.

Lemma write_text_spec p s w r w' :
  write_text p s w = (r, w') ->
  stdin w' = stdin w /\ stdout w' = stdout w /\
  log w' = log w ++ [EvWrite p s] /\
  ((r = Ok tt /\ p <> [] /\ (fs w !! p = None \/ regular (fs w !! p)) /\
    exists rd, fs w' = <[p := File rd true (Text s)]> (fs w))
   \/ (exists e, r = Raise e /\ fs w' = fs w)).
Proof.
  unfold write_text. munfold. simpl.
  destruct (node_at (fs w) p) as [[rd [] d| |]|] eqn:E.
  - intros Hres; inversion Hres; subst; simpl. repeat split; auto. left.
    assert (p <> []) by (intros ->; discriminate).
    rewrite node_at_lookup in E by assumption.
    repeat split; auto.
    + right. rewrite E. apply regular_File.
    + eauto.
  - intros Hres; inversion Hres; subst; simpl. repeat split; auto. right. eauto.
  - intros Hres; inversion Hres; subst; simpl. repeat split; auto. right. eauto.
  - intros Hres; inversion Hres; subst; simpl. repeat split; auto. right. eauto.
  - apply node_at_None in E as [Hne E].
    destruct (node_at (fs w) (parent p)) as [[]|];
      intros Hres; inversion Hres; subst; simpl; repeat split; auto;
      try (right; eauto; fail).
    left. repeat split; eauto.
Qed.

Lemma evolves_write (P : Path -> Prop) (f : gmap Path node) (p : Path) rd s :
  P p -> (f !! p = None \/ regular (f !! p)) ->
  evolves P f (<[p := File rd true (Text s)]> f).
Proof.
  intros HP Hold k. destruct (decide (p = k)) as [->|Hne].
  - right. right. rewrite lookup_insert_eq. auto using regular_File.
  - left. now rewrite lookup_insert_ne.
Qed.

Lemma relative_to_Some p base rel :
  relative_to p base = Some rel -> p = base ++ rel.
Proof.
  revert p. induction base as [|b base IH]; intros p.
  - destruct p; simpl; intros H; now inversion H.
  - destruct p as [|x p]; simpl; [discriminate|].
    destruct (decide (b = x)) as [->|]; [|discriminate].
    intros H. apply IH in H. now subst.
Qed.

Lemma relative_to_app base rel : relative_to (base ++ rel) base = Some rel.
Proof.
  induction base as [|b base IH]; simpl; [now destruct rel|].
  destruct (decide (b = b)); [exact IH | contradiction].
Qed.

Lemma output_path_of_inj cfg p q k :
  output_path_of cfg p = Some k -> output_path_of cfg q = Some k -> p = q.
Proof.
  unfold output_path_of, joinpath.
  destruct (relative_to p (source_dir cfg)) as [rp|] eqn:Ep; [|discriminate].
  destruct (relative_to q (source_dir cfg)) as [rq|] eqn:Eq; [|discriminate].
  intros Hp Hq. inversion Hp; inversion Hq; subst.
  apply relative_to_Some in Ep, Eq. subst.
  f_equal. eapply app_inv_head. eauto.
Qed.

(** Inversion of the monadic bind. *)
Lemma bind_inv {A B} (m : M A) (k : A -> M B) w r w' :
  (m ≫= k) w = (r, w') ->
  (exists a w1, m w = (Ok a, w1) /\ k a w1 = (r, w'))
  \/ (exists e, m w = (Raise e, w') /\ r = Raise e).
Proof.
  unfold mbind, M_bind. destruct (m w) as [[a|e] w1]; intros H.
  - left. eauto.
  - right. inversion H; subst. eauto.
Qed.

Lemma bind_Ok {A B} (m : M A) (k : A -> M B) w b w' :
  (m ≫= k) w = (Ok b, w') ->
  exists a w1, m w = (Ok a, w1) /\ k a w1 = (Ok b, w').
Proof.
  intros H. apply bind_inv in H as [H|(e & _ & H)]; [exact H | discriminate].
Qed.

Lemma bind_eq {A B} (m : M A) (k : A -> M B) w :
  (m ≫= k) w =
  match m w with
  | (Ok a, w1) => k a w1
  | (Raise e, w1) => (Raise e, w1)
  end.
Proof. reflexivity. Qed.

Lemma ret_inv {A} (a : A) w r w' :
  mret (M := M) a w = (r, w') -> r = Ok a /\ w' = w.
Proof. unfold mret, M_ret. intros H. now inversion H. Qed.

Lemma raise_inv {A} e w (r : result A) w' :
  raise e w = (r, w') -> r = Raise e /\ w' = w.
Proof. unfold raise. intros H. now inversion H. Qed.

Lemma relative_to_or_raise_inv p base w r w' :
  relative_to_or_raise p base w = (r, w') ->
  w' = w /\
  ((exists rel, relative_to p base = Some rel /\ r = Ok rel)
   \/ (relative_to p base = None /\ r = Raise ValueError)).
Proof.
  unfold relative_to_or_raise. destruct (relative_to p base) as [rel|].
  - intros H. apply ret_inv in H as [-> ->]. eauto.
  - intros H. apply raise_inv in H as [-> ->]. eauto.
Qed.

Section Batch.

Context (U : Unicodedata).

(** The part of a turn that writes (lines 131-134). *)
Lemma process_file_write p cfg rel content w r w' :
  relative_to p (source_dir cfg) = Some rel ->
  (rel' ← relative_to_or_raise p (source_dir cfg);
   let output_path := joinpath (output_dir cfg) rel' in
   mkdir_parents_exist_ok (parent output_path) ;;
   write_text output_path (normalise_text U content)) w = (r, w') ->
  let out := joinpath (output_dir cfg) rel in
  stdin w' = stdin w /\ stdout w' = stdout w /\
  ((exists e, r = Raise e /\ log w' = log w ++ [EvMkdir (parent out)] /\
              evolves nowhere (fs w) (fs w'))
   \/ (log w' = log w ++ [EvMkdir (parent out);
                          EvWrite out (normalise_text U content)] /\
       exists f1,
         evolves nowhere (fs w) f1 /\ is_dir f1 (parent out) = true /\
         ((r = Ok tt /\ out <> [] /\ (f1 !! out = None \/ regular (f1 !! out)) /\
           exists rd,
             fs w' = <[out := File rd true (Text (normalise_text U content))]> f1)
          \/ (exists e, r = Raise e /\ fs w' = f1)))).
Proof.
  intros Hrel H out.
  apply bind_inv in H as [(rel' & w1 & H1 & H2)|(e & H1 & ->)];
    apply relative_to_or_raise_inv in H1 as [-> [(rel0 & Hr & Heq)|[Hr Heq]]];
    try congruence.
  assert (rel' = rel) by congruence. subst rel'. clear Heq Hr.
  cbv zeta in H2.
  apply bind_inv in H2 as [([] & w2 & H2 & H3)|(e & H2 & ->)].
  - apply mkdir_parents_exist_ok_spec in H2 as (B1 & B2 & B3 & B4 & B5).
    apply write_text_spec in H3 as (C1 & C2 & C3 & C4).
    repeat split; try congruence. right. split.
    + rewrite C3, B3. now rewrite <- app_assoc.
    + exists (fs w2). split; [exact B4|]. split; [auto|].
      destruct C4 as [(Hr & Hne & Hold & rd & Hfs)|(e & Hr & Hfs)];
        [left; repeat split; eauto | right; eauto].
  - apply mkdir_parents_exist_ok_spec in H2 as (B1 & B2 & B3 & B4 & B5).
    repeat split; try congruence. left. eauto.
Qed.

(** One turn of the loop that ends well. *)
Lemma process_file_Ok p cfg dry_run acc w acc' w' :
  process_file U p cfg dry_run acc w = (Ok acc', w') ->
  exists content wr rel,
    node_at (fs w) p = Some (File true wr (Text content)) /\
    relative_to p (source_dir cfg) = Some rel /\
    acc' = acc ++ [expected_report U content rel] /\
    stdin w' = stdin w /\ stdout w' = stdout w /\
    (if dry_run
     then fs w' = fs w /\ log w' = log w ++ [EvRead p]
     else
       let out := joinpath (output_dir cfg) rel in
       log w' = log w ++ [EvRead p; EvMkdir (parent out);
                          EvWrite out (normalise_text U content)] /\
       exists f1 rd,
         evolves nowhere (fs w) f1 /\
         is_dir f1 (parent out) = true /\
         out <> [] /\
         (f1 !! out = None \/ regular (f1 !! out)) /\
         fs w' = <[out := File rd true (Text (normalise_text U content))]> f1).
Proof.
  intros H. unfold process_file in H.
  apply bind_Ok in H as (content & w1 & H1 & H).
  apply read_text_spec in H1 as (A1 & A2 & A3 & A4 & A5).
  destruct (proj1 (A5 content) eq_refl) as [wr Hnode].
  cbv zeta in H.
  apply bind_Ok in H as (rel & w1' & H2 & H).
  apply relative_to_or_raise_inv in H2 as [-> [(rel0 & Hr & Heq)|[Hr Heq]]];
    [|discriminate].
  inversion Heq; subst rel0; clear Heq.
  apply bind_Ok in H as ([] & w2 & H3 & H).
  apply ret_inv in H as [Hacc ->]. inversion Hacc; subst acc'; clear Hacc.
  exists content, wr, rel.
  split; [exact Hnode|]. split; [exact Hr|]. split; [reflexivity|].
  destruct dry_run; simpl in H3.
  - apply ret_inv in H3 as [_ ->]. auto.
  - apply (process_file_write _ _ rel) in H3 as (C1 & C2 & C3); [|exact Hr].
    split; [congruence|]. split; [congruence|].
    destruct C3 as [(e & He & _)|(Hlog & f1 & Hf1 & Hd & C3)]; [discriminate|].
    destruct C3 as [(_ & Hne & Hold & rd & Hfs)|(e & He & _)]; [|discriminate].
    split.
    + rewrite Hlog, A4. now rewrite <- app_assoc.
    + exists f1, rd. rewrite <- A1. auto.
Qed.

(** One turn of the loop, however it ends. *)
Lemma process_file_frame p cfg dry_run acc w r w' :
  process_file U p cfg dry_run acc w = (r, w') ->
  stdin w' = stdin w /\ stdout w' = stdout w /\
  evolves (fun k => dry_run = false /\ output_path_of cfg p = Some k)
    (fs w) (fs w') /\
  (dry_run = true -> fs w' = fs w) /\
  exists evs,
    log w' = log w ++ EvRead p :: evs /\
    (dry_run = true -> evs = []) /\
    (forall e, In e evs -> ~ is_read e) /\
    (forall q s, In (EvWrite q s) evs ->
                 dry_run = false /\ output_path_of cfg p = Some q).
Proof.
  intros H. unfold process_file in H.
  assert (Hnil : forall w0, fs w0 = fs w -> stdin w0 = stdin w ->
            stdout w0 = stdout w -> log w0 = log w ++ [EvRead p] ->
            stdin w0 = stdin w /\ stdout w0 = stdout w /\
            evolves (fun k => dry_run = false /\ output_path_of cfg p = Some k)
              (fs w) (fs w0) /\
            (dry_run = true -> fs w0 = fs w) /\
            exists evs,
              log w0 = log w ++ EvRead p :: evs /\
              (dry_run = true -> evs = []) /\
              (forall e, In e evs -> ~ is_read e) /\
              (forall q s, In (EvWrite q s) evs ->
                           dry_run = false /\ output_path_of cfg p = Some q)).
  { intros w0 F1 F2 F3 F4. repeat split; auto.
    - rewrite F1. apply evolves_refl.
    - exists []. repeat split; auto; intros; contradiction. }
  apply bind_inv in H as [(content & w1 & H1 & H)|(e & H1 & ->)];
    apply read_text_spec in H1 as (A1 & A2 & A3 & A4 & A5); [|now apply Hnil].
  cbv zeta in H.
  apply bind_inv in H as [(rel & w1' & H2 & H)|(e & H2 & ->)];
    apply relative_to_or_raise_inv in H2 as [-> [(rel0 & Hr & Heq)|[Hr Heq]]];
    try discriminate; [|now apply Hnil].
  inversion Heq; subst rel0; clear Heq.
  assert (Hout : output_path_of cfg p = Some (joinpath (output_dir cfg) rel))
    by (unfold output_path_of; now rewrite Hr).
  assert (Hw : forall r3 w3,
            (if negb dry_run
             then rel' ← relative_to_or_raise p (source_dir cfg);
                  let output_path := joinpath (output_dir cfg) rel' in
                  mkdir_parents_exist_ok (parent output_path) ;;
                  write_text output_path (normalise_text U content)
             else mret tt) w1 = (r3, w3) ->
            stdin w3 = stdin w /\ stdout w3 = stdout w /\
            evolves (fun k => dry_run = false /\ output_path_of cfg p = Some k)
              (fs w) (fs w3) /\
            (dry_run = true -> fs w3 = fs w) /\
            exists evs,
              log w3 = log w ++ EvRead p :: evs /\
              (dry_run = true -> evs = []) /\
              (forall e, In e evs -> ~ is_read e) /\
              (forall q s, In (EvWrite q s) evs ->
                           dry_run = false /\ output_path_of cfg p = Some q)).
  { intros r3 w3 H3. destruct dry_run; simpl in H3.
    - apply ret_inv in H3 as [_ ->]. now apply Hnil.
    - apply (process_file_write _ _ rel) in H3 as (C1 & C2 & C3); [|exact Hr].
      split; [congruence|]. split; [congruence|].
      destruct C3 as [(e & He & Hlog & Hfs)|(Hlog & f1 & Hf1 & Hd & C3)].
      + split; [|split; [discriminate|]].
        * rewrite <- A1. eapply evolves_weaken; [|exact Hfs]. intros k [].
        * exists [EvMkdir (parent (joinpath (output_dir cfg) rel))].
          split; [rewrite Hlog, A4; now rewrite <- app_assoc|].
          split; [discriminate|]. split.
          { intros e0 He0 Hr0. simpl in He0.
            destruct He0 as [<-|[]]; exact Hr0. }
          { intros q s Hq. simpl in Hq. destruct Hq as [Hq|[]]; discriminate. }
      + split; [|split; [discriminate|]].
        * rewrite <- A1. eapply evolves_trans.
          -- eapply evolves_weaken; [|exact Hf1]. intros k [].
          -- destruct C3 as [(_ & Hne & Hold & rd & ->)|(e & _ & ->)];
               [now apply evolves_write | apply evolves_refl].
        * exists [EvMkdir (parent (joinpath (output_dir cfg) rel));
                  EvWrite (joinpath (output_dir cfg) rel)
                    (normalise_text U content)].
          split; [rewrite Hlog, A4; now rewrite <- app_assoc|].
          split; [discriminate|]. split.
          { intros e0 He0 Hr0. simpl in He0.
            destruct He0 as [<-|[<-|[]]]; exact Hr0. }
          { intros q s Hq. simpl in Hq.
            destruct Hq as [Hq|[Hq|[]]]; [discriminate|].
            inversion Hq; subst. split; [reflexivity | exact Hout]. } }
  apply bind_inv in H as [([] & w2 & H3 & H)|(e & H3 & ->)].
  - apply ret_inv in H as [_ ->]. eapply Hw; eauto.
  - eapply Hw; eauto.
Qed.

Lemma process_file_read_fails p cfg dry_run acc w e w' :
  read_text p w = (Raise e, w') ->
  process_file U p cfg dry_run acc w = (Raise e, w').
Proof.
  intros H. unfold process_file. rewrite bind_eq. now rewrite H.
Qed.

(** The reports gathered so far do not influence what a turn does. *)
Lemma process_file_acc p cfg dry_run acc w :
  process_file U p cfg dry_run acc w =
  match process_file U p cfg dry_run [] w with
  | (Ok entries, w') => (Ok (acc ++ entries), w')
  | (Raise e, w') => (Raise e, w')
  end.
Proof.
  unfold process_file. rewrite !bind_eq.
  destruct (read_text p w) as [[content|e] w1]; [|reflexivity].
  cbv zeta. rewrite !bind_eq.
  destruct (relative_to_or_raise p (source_dir cfg) w1) as [[rel|e] w2];
    [|reflexivity].
  rewrite !bind_eq.
  match goal with |- context [?m w2] => destruct (m w2) as [[[]|e] w3] end;
    reflexivity.
Qed.

Lemma process_loop_cons p paths cfg dry_run acc w :
  process_loop U (p :: paths) cfg dry_run acc w =
  match process_file U p cfg dry_run acc w with
  | (Ok acc', w') => process_loop U paths cfg dry_run acc' w'
  | (Raise e, w') => (Raise e, w')
  end.
Proof. reflexivity. Qed.

Lemma process_loop_app l1 : forall l2 cfg dry_run acc w,
  process_loop U (l1 ++ l2) cfg dry_run acc w =
  match process_loop U l1 cfg dry_run acc w with
  | (Ok acc', w') => process_loop U l2 cfg dry_run acc' w'
  | (Raise e, w') => (Raise e, w')
  end.
Proof.
  induction l1 as [|p l1 IH]; intros l2 cfg dry_run acc w; [reflexivity|].
  simpl app. rewrite !process_loop_cons.
  destruct (process_file U p cfg dry_run acc w) as [[acc'|e] w']; [|reflexivity].
  apply IH.
Qed.

Lemma process_loop_acc paths : forall cfg dry_run acc w,
  process_loop U paths cfg dry_run acc w =
  match process_loop U paths cfg dry_run [] w with
  | (Ok entries, w') => (Ok (acc ++ entries), w')
  | (Raise e, w') => (Raise e, w')
  end.
Proof.
  induction paths as [|p paths IH]; intros cfg dry_run acc w.
  - simpl. unfold mret, M_ret. now rewrite app_nil_r.
  - rewrite !process_loop_cons.
    rewrite (process_file_acc p cfg dry_run acc).
    destruct (process_file U p cfg dry_run [] w) as [[entries|e] w1];
      [|reflexivity].
    rewrite (IH cfg dry_run (acc ++ entries)), (IH cfg dry_run ([] ++ entries)).
    destruct (process_loop U paths cfg dry_run [] w1) as [[more|e] w2];
      [|reflexivity].
    now rewrite app_assoc.
Qed.

Lemma process_loop_length paths : forall cfg dry_run acc w acc' w',
  process_loop U paths cfg dry_run acc w = (Ok acc', w') ->
  length acc' = (length acc + length paths)%nat.
Proof.
  induction paths as [|p paths IH]; intros cfg dry_run acc w acc' w' H.
  - apply ret_inv in H as [H _]. inversion H. simpl. lia.
  - rewrite process_loop_cons in H.
    destruct (process_file U p cfg dry_run acc w) as [[acc1|e] w1] eqn:E;
      [|discriminate].
    apply process_file_Ok in E as (c & wr & rel & _ & _ & -> & _).
    apply IH in H. rewrite H, length_app. simpl. lia.
Qed.

End Batch.

Section BatchLoop.

Context (U : Unicodedata).

Lemma is_output_mono cfg l1 l2 k :
  (forall p, In p l1 -> In p l2) -> is_output cfg l1 k -> is_output cfg l2 k.
Proof. intros Hsub (p & Hp & Hk). exists p. auto. Qed.

(** The whole loop, however it ends: the console is untouched, the
    filesystem evolves by new directories and by files written at output
    paths, and that only when [dry_run] is false; the log gains the reads
    of input files and the writes of output files. *)
Lemma process_loop_frame paths : forall cfg dry_run acc w r w',
  process_loop U paths cfg dry_run acc w = (r, w') ->
  stdin w' = stdin w /\ stdout w' = stdout w /\
  evolves (fun k => dry_run = false /\ is_output cfg paths k) (fs w) (fs w') /\
  (dry_run = true -> fs w' = fs w) /\
  exists evs,
    log w' = log w ++ evs /\
    (dry_run = true -> exists n, evs = map EvRead (take n paths)) /\
    (forall p, In (EvRead p) evs -> In p paths) /\
    (forall q s, In (EvWrite q s) evs ->
                 dry_run = false /\ is_output cfg paths q).
Proof.
  induction paths as [|p paths IH]; intros cfg dry_run acc w r w' H.
  - apply ret_inv in H as [-> ->]. repeat split; auto using evolves_refl.
    exists []. rewrite app_nil_r. repeat split; auto; try contradiction.
    intros _. exists O. reflexivity.
  - rewrite process_loop_cons in H.
    destruct (process_file U p cfg dry_run acc w) as [r1 w1] eqn:E.
    apply process_file_frame in E
      as (A1 & A2 & A3 & A4 & evs0 & A5 & A6 & A7 & A8).
    assert (A3' : evolves (fun k => dry_run = false
                                    /\ is_output cfg (p :: paths) k)
                    (fs w) (fs w1)).
    { eapply evolves_weaken; [|exact A3]. intros k [Hd Hk]. split; [exact Hd|].
      exists p. split; [now left | exact Hk]. }
    destruct r1 as [acc1|e].
    + apply IH in H as (B1 & B2 & B3 & B4 & evs1 & B5 & B6 & B7 & B8).
      split; [congruence|]. split; [congruence|]. split.
      { eapply evolves_trans; [exact A3'|].
        eapply evolves_weaken; [|exact B3]. intros k [Hd Hk]. split; [exact Hd|].
        eapply is_output_mono; [|exact Hk]. intros q Hq. now right. }
      split; [intros Hd; rewrite B4, A4 by exact Hd; reflexivity|].
      exists (EvRead p :: evs0 ++ evs1). split.
      { rewrite B5, A5. rewrite <- app_assoc. reflexivity. }
      split.
      { intros Hd. destruct (B6 Hd) as [n Hn]. exists (S n).
        rewrite (A6 Hd), Hn. reflexivity. }
      split.
      { intros q [Hq|Hq]; [inversion Hq; now left|].
        apply in_app_or in Hq as [Hq|Hq].
        - exfalso. exact (A7 _ Hq I).
        - right. now apply B7. }
      { intros q s [Hq|Hq]; [discriminate|].
        apply in_app_or in Hq as [Hq|Hq].
        - destruct (A8 _ _ Hq) as [Hd Hk]. split; [exact Hd|].
          exists p. split; [now left | exact Hk].
        - destruct (B8 _ _ Hq) as [Hd Hk]. split; [exact Hd|].
          eapply is_output_mono; [|exact Hk]. intros q' Hq'. now right. }
    + inversion H; subst. split; [exact A1|]. split; [exact A2|].
      split; [exact A3'|]. split; [exact A4|].
      exists (EvRead p :: evs0). split; [exact A5|]. split.
      { intros Hd. exists 1%nat. rewrite (A6 Hd). reflexivity. }
      split.
      { intros q [Hq|Hq]; [inversion Hq; now left|].
        exfalso. exact (A7 _ Hq I). }
      { intros q s [Hq|Hq]; [discriminate|].
        destruct (A8 _ _ Hq) as [Hd Hk]. split; [exact Hd|].
        exists p. split; [now left | exact Hk]. }
Qed.

(** In a loop that ends well every file was a readable text file when its
    turn came. *)
Lemma process_loop_reads paths : forall cfg dry_run acc w acc' w',
  process_loop U paths cfg dry_run acc w = (Ok acc', w') ->
  forall p, In p paths ->
  exists w_i content wr,
    evolves (fun k => dry_run = false /\ is_output cfg paths k)
      (fs w) (fs w_i) /\
    evolves (fun k => dry_run = false /\ is_output cfg paths k)
      (fs w_i) (fs w') /\
    node_at (fs w_i) p = Some (File true wr (Text content)).
Proof.
  induction paths as [|p0 paths IH]; intros cfg dry_run acc w acc' w' H p Hp;
    [contradiction|].
  assert (Hall := H). apply process_loop_frame in Hall as (_ & _ & Hall & _).
  rewrite process_loop_cons in H.
  destruct (process_file U p0 cfg dry_run acc w) as [[acc1|e] w1] eqn:E;
    [|discriminate].
  assert (Hstep := E).
  apply process_file_frame in Hstep as (_ & _ & Hstep & _).
  assert (Hstep' : evolves (fun k => dry_run = false
                                     /\ is_output cfg (p0 :: paths) k)
                     (fs w) (fs w1)).
  { eapply evolves_weaken; [|exact Hstep]. intros k [Hd Hk]. split; [exact Hd|].
    exists p0. split; [now left | exact Hk]. }
  destruct Hp as [<-|Hp].
  - apply process_file_Ok in E as (content & wr & rel & Hnode & _).
    exists w, content, wr. split; [apply evolves_refl|]. split; [exact Hall|].
    exact Hnode.
  - destruct (IH _ _ _ _ _ _ H p Hp) as (w_i & content & wr & G1 & G2 & G3).
    exists w_i, content, wr. split; [|split; [|exact G3]].
    + eapply evolves_trans; [exact Hstep'|].
      eapply evolves_weaken; [|exact G1]. intros k [Hd Hk]. split; [exact Hd|].
      eapply is_output_mono; [|exact Hk]. intros q Hq. now right.
    + eapply evolves_weaken; [|exact G2]. intros k [Hd Hk]. split; [exact Hd|].
      eapply is_output_mono; [|exact Hk]. intros q Hq. now right.
Qed.

Lemma evolves_file_back (P : Path -> Prop) f f' (p : Path) n :
  evolves P f f' -> ~ P p -> node_at f' p = Some n -> n <> Dir ->
  node_at f p = Some n.
Proof.
  intros He HP Hn Hd. destruct p as [|x p]; [exact Hn|].
  rewrite node_at_cons in *.
  destruct (He (x :: p)) as [A|[[A1 A2]|(A1 & _)]].
  - congruence.
  - congruence.
  - contradiction.
Qed.

Lemma evolves_file_forth (P : Path -> Prop) f f' (p : Path) n :
  evolves P f f' -> ~ P p -> f !! p = Some n -> f' !! p = Some n.
Proof.
  intros He HP Hn.
  destruct (He p) as [A|[[A1 A2]|(A1 & _)]]; congruence.
Qed.

Lemma parent_ne (p : Path) : p <> [] -> parent p <> p.
Proof.
  intros Hne Heq. unfold parent in Heq.
  assert (Hlen : length (removelast p) = length p) by now rewrite Heq.
  destruct p as [|y l] using rev_ind; [contradiction|].
  rewrite removelast_last, length_app in Hlen. simpl in Hlen. lia.
Qed.

Lemma is_dir_insert_other (f : gmap Path node) (d k : Path) n :
  is_dir f d = true -> d <> k -> is_dir (<[k := n]> f) d = true.
Proof.
  unfold is_dir. destruct d as [|x d]; [reflexivity|].
  intros Hd Hne. rewrite node_at_cons in *. now rewrite lookup_insert_ne.
Qed.

(** In a loop that writes and ends well, over distinct paths, the text
    that the turn of a file read is found normalised at its output path
    when the loop is over, in a directory. *)
Lemma process_loop_outputs paths : forall cfg acc w acc' w',
  NoDup paths ->
  process_loop U paths cfg false acc w = (Ok acc', w') ->
  forall i p, paths !! i = Some p ->
  exists acc_i w_i content wr rel rd,
    process_loop U (take i paths) cfg false acc w = (Ok acc_i, w_i) /\
    node_at (fs w_i) p = Some (File true wr (Text content)) /\
    relative_to p (source_dir cfg) = Some rel /\
    fs w' !! joinpath (output_dir cfg) rel
      = Some (File rd true (Text (normalise_text U content))) /\
    is_dir (fs w') (parent (joinpath (output_dir cfg) rel)) = true.
Proof.
  induction paths as [|p0 paths IH]; intros cfg acc w acc' w' Hnd H i p Hi;
    [discriminate|].
  apply NoDup_cons in Hnd as [Hnotin Hnd].
  rewrite process_loop_cons in H.
  destruct (process_file U p0 cfg false acc w) as [[acc1|e] w1] eqn:E;
    [|discriminate].
  destruct i as [|i]; simpl in Hi.
  - inversion Hi; subst p0; clear Hi.
    apply process_file_Ok in E
      as (content & wr & rel & Hnode & Hrel & _ & _ & _ & _ & f1 & rd & F1
          & F2 & F3 & F4 & F5).
    cbv zeta in *.
    apply process_loop_frame in H as (_ & _ & Hev & _).
    exists acc, w, content, wr, rel, rd.
    split; [reflexivity|]. split; [exact Hnode|]. split; [exact Hrel|].
    split.
    + eapply evolves_file_forth; [exact Hev| |].
      * intros [_ (q & Hq & Hk)].
        assert (q = p); [|subst; now apply Hnotin, list_elem_of_In].
        eapply output_path_of_inj; [exact Hk|].
        unfold output_path_of. now rewrite Hrel.
      * rewrite F5. apply lookup_insert_eq.
    + eapply evolves_dir; [exact Hev|].
      rewrite F5. apply is_dir_insert_other; [exact F2|].
      now apply parent_ne.
  - destruct (IH cfg acc1 w1 acc' w' Hnd H i p Hi)
      as (acc_i & w_i & content & wr & rel & rd & G1 & G2 & G3 & G4 & G5).
    exists acc_i, w_i, content, wr, rel, rd.
    split; [|auto].
    change (take (S i) (p0 :: paths)) with (p0 :: take i paths).
    rewrite process_loop_cons, E. exact G1.
Qed.

End BatchLoop.

Lemma process_files_inv U paths cfg dry_run w r w' :
  process_files U paths cfg dry_run w = (r, w') ->
  (exists reports,
     process_loop U paths cfg dry_run [] w = (Ok reports, w') /\
     r = Ok {| report_source_dir := path_str (source_dir cfg);
               report_output_dir := path_str (output_dir cfg);
               report_dry_run := dry_run;
               files := reports |})
  \/ (exists e, process_loop U paths cfg dry_run [] w = (Raise e, w')
                /\ r = Raise e).
Proof.
  unfold process_files. intros H.
  apply bind_inv in H as [(reports & w1 & H1 & H2)|(e & H1 & ->)].
  - apply ret_inv in H2 as [-> ->]. left. eauto.
  - right. eauto.
Qed.

(** C5, as amended.  [process_files] leaves the console alone and changes
    the filesystem only by creating directories and by writing regular files
    at output paths, and that only when [dry_run] is false; every write it
    makes goes to the output path of an input file.  With [dry_run] true the
    filesystem is left exactly as it was and a run that ends well reports
    one entry per file.  With [dry_run] false, in a run that ends well over
    distinct paths, the output path of each file, in an existing directory,
    holds the normalised form of the text that the turn of the file read.
    Input files keep their content when no output path is itself an input
    file, and the text read is then the one the file had at the start. *)
Theorem process_files_effects U paths cfg dry_run w r w' :
  process_files U paths cfg dry_run w = (r, w') ->
  stdin w' = stdin w /\ stdout w' = stdout w /\
  evolves (fun k => dry_run = false /\ is_output cfg paths k) (fs w) (fs w') /\
  (exists evs,
     log w' = log w ++ evs /\
     (dry_run = true -> exists n, evs = map EvRead (take n paths)) /\
     forall q s, In (EvWrite q s) evs ->
                 dry_run = false /\ is_output cfg paths q) /\
  (dry_run = true ->
     fs w' = fs w /\
     forall report, r = Ok report -> length (files report) = length paths) /\
  (dry_run = false -> forall report, r = Ok report ->
     (NoDup paths -> forall i p, paths !! i = Some p ->
        exists acc_i w_i content wr rel rd,
          process_loop U (take i paths) cfg false [] w = (Ok acc_i, w_i) /\
          node_at (fs w_i) p = Some (File true wr (Text content)) /\
          relative_to p (source_dir cfg) = Some rel /\
          fs w' !! joinpath (output_dir cfg) rel
            = Some (File rd true (Text (normalise_text U content))) /\
          is_dir (fs w') (parent (joinpath (output_dir cfg) rel)) = true /\
          (no_alias cfg paths ->
           node_at (fs w) p = Some (File true wr (Text content)))) /\
     (no_alias cfg paths -> forall p, In p paths -> fs w' !! p = fs w !! p)).
Proof.
  intros H.
  apply process_files_inv in H as [(reports & H & ->)|(e & H & ->)].
  - assert (Hf := H).
    apply process_loop_frame in Hf as (A1 & A2 & A3 & A4 & evs & A5 & A5' & _ & A6).
    split; [exact A1|]. split; [exact A2|]. split; [exact A3|].
    split; [exists evs; auto|]. split.
    + intros ->. split; [now apply A4|].
      intros report Hr. inversion Hr; subst; simpl.
      now apply process_loop_length in H.
    + intros -> report _. split.
      * intros Hnd i p Hi.
        destruct (process_loop_outputs U paths cfg [] w reports w' Hnd H i p Hi)
          as (acc_i & w_i & content & wr & rel & rd & G1 & G2 & G3 & G4 & G5).
        exists acc_i, w_i, content, wr, rel, rd.
        repeat (split; [assumption|]).
        intros Hna.
        assert (Hi' : In p paths).
        { apply list_elem_of_In. eapply list_elem_of_lookup_2; eauto. }
        apply process_loop_frame in G1 as (_ & _ & G1 & _).
        eapply evolves_file_back; [exact G1| |exact G2|discriminate].
        intros [_ (q & Hq & Hk)]. apply (Hna q p); [|exact Hi'|exact Hk].
        apply list_elem_of_In. apply list_elem_of_In in Hq.
        exact (subseteq_take _ _ _ Hq).
      * intros Hna p Hp.
        destruct (process_loop_reads U paths cfg false [] w reports w' H p Hp)
          as (w_i & content & wr & G1 & G2 & G3).
        assert (HP : ~ (false = false /\ is_output cfg paths p)).
        { intros [_ (q & Hq & Hk)]. exact (Hna q p Hq Hp Hk). }
        assert (p <> []) by (intros ->; discriminate).
        rewrite node_at_lookup in G3 by assumption.
        destruct (A3 p) as [B|[[B1 B2]|(B1 & _)]]; [exact B| |contradiction].
        exfalso. destruct (G2 p) as [C|[[C1 C2]|(C1 & _)]];
          [congruence|congruence|contradiction].
  - assert (Hf := H).
    apply process_loop_frame in Hf as (A1 & A2 & A3 & A4 & evs & A5 & A5' & _ & A6).
    split; [exact A1|]. split; [exact A2|]. split; [exact A3|].
    split; [exists evs; auto|]. split.
    + intros ->. split; [now apply A4|]. discriminate.
    + intros _ report Hr. discriminate.
Qed.

(** C9, for the batch alone: when the file [p] cannot be read after the
    files [pre] went through, [process_files] ends with the error of the
    read, in the world that the failed read left: nothing of [post] has
    been touched. *)
Lemma process_files_read_failure U pre p post cfg dry_run w acc w1 e w2 :
  process_loop U pre cfg dry_run [] w = (Ok acc, w1) ->
  read_text p w1 = (Raise e, w2) ->
  process_files U (pre ++ p :: post) cfg dry_run w = (Raise e, w2)
  /\ fs w2 = fs w1 /\ log w2 = log w1 ++ [EvRead p].
Proof.
  intros Hpre Hread. split.
  - unfold process_files. rewrite bind_eq, process_loop_app, Hpre.
    rewrite process_loop_cons.
    now rewrite (process_file_read_fails U p cfg dry_run acc w1 e w2 Hread).
  - apply read_text_spec in Hread as (A1 & _ & _ & A4 & _). auto.
Qed.

(** ** The report read back: [json.loads] after [json.dumps] *)

Lemma scanstring_plain c tail :
  c <> 0x22 -> c <> 0x5C -> (0 <=? c) && (c <? 0x20) = false ->
  scanstring (c :: tail) = prepend c (scanstring tail).
Proof.
  intros H1 H2 H3. cbn [scanstring].
  rewrite (proj2 (Z.eqb_neq c 0x22) H1), (proj2 (Z.eqb_neq c 0x5C) H2), H3.
  reflexivity.
Qed.

Lemma scanstring_escape c tail :
  scanstring (escape_char c ++ tail) = prepend c (scanstring tail).
Proof.
  unfold escape_char.
  destruct (Z.eqb_spec c 0x22) as [->|N1]; [reflexivity|].
  destruct (Z.eqb_spec c 0x5C) as [->|N2]; [reflexivity|].
  destruct (Z.eqb_spec c 0x0A) as [->|N3]; [reflexivity|].
  destruct (Z.eqb_spec c 0x0D) as [->|N4]; [reflexivity|].
  destruct (Z.eqb_spec c 0x09) as [->|N5]; [reflexivity|].
  destruct (Z.eqb_spec c 0x08) as [->|N6]; [reflexivity|].
  destruct (Z.eqb_spec c 0x0C) as [->|N7]; [reflexivity|].
  destruct ((0 <=? c) && (c <? 0x20)) eqn:E.
  - apply andb_true_iff in E as [E1 E2].
    apply Z.leb_le in E1. apply Z.ltb_lt in E2.
    assert (Hc : exists n : nat, (n < 32)%nat /\ c = Z.of_nat n).
    { exists (Z.to_nat c). split; lia. }
    destruct Hc as (n & Hn & ->).
    do 32 (destruct n as [|n]; [try reflexivity; lia|]). lia.
  - simpl app. now apply scanstring_plain.
Qed.

Lemma scanstring_encode s rest :
  scanstring (flat_map escape_char s ++ 0x22 :: rest) = Some (s, rest).
Proof.
  induction s as [|c s IH]; [reflexivity|].
  simpl flat_map. rewrite <- app_assoc, scanstring_escape, IH. reflexivity.
Qed.

Lemma read_digits_chars u rest :
  match rest with [] => True | c :: _ => digit_of c = None end ->
  read_digits (uint_chars u ++ rest) = (u, rest).
Proof.
  intros Hrest. induction u; simpl; try (rewrite IHu; reflexivity).
  destruct rest as [|c rest]; [reflexivity|]. simpl. now rewrite Hrest.
Qed.

Lemma terminated_no_digit rest :
  terminated rest -> match rest with [] => True | c :: _ => digit_of c = None end.
Proof. destruct rest as [|c rest]; [auto|]. intros [->| ->]; reflexivity. Qed.

Lemma terminated_no_float rest : terminated rest -> starts_float_part rest = false.
Proof. destruct rest as [|c rest]; [auto|]. intros [->| ->]; reflexivity. Qed.

Lemma nzhead_leading u : Decimal.nzhead u = Decimal.Nil \/ leading (Decimal.nzhead u).
Proof. induction u; simpl; auto. Qed.

Lemma to_int_shape n :
  match Z.to_int n with
  | Decimal.Pos u => u = Decimal.D0 Decimal.Nil \/ leading u
  | Decimal.Neg u => leading u
  end.
Proof.
  pose proof (DecimalZ.to_of (Z.to_int n)) as H.
  rewrite DecimalZ.of_to in H.
  destruct (Z.to_int n) as [u|u] eqn:E; simpl in H.
  - inversion H as [Hu]. unfold Decimal.unorm.
    destruct (nzhead_leading u) as [Hn|Hn].
    + rewrite Hn. now left.
    + right. destruct (Decimal.nzhead u); simpl in *; auto; contradiction.
  - destruct (nzhead_leading u) as [Hn|Hn].
    + rewrite Hn in H. discriminate.
    + destruct (Decimal.nzhead u) eqn:En; simpl in Hn; try contradiction;
        inversion H; subst; exact I.
Qed.

Lemma parse_natural_leading u rest :
  leading u -> terminated rest ->
  parse_natural (uint_chars u ++ rest) = Some (u, rest).
Proof.
  intros Hu Hrest.
  destruct u; simpl in Hu; try contradiction;
    unfold parse_natural; simpl uint_chars; simpl app;
    cbn [Z.eqb Pos.eqb digit_of read_digits];
    rewrite (read_digits_chars _ _ (terminated_no_digit _ Hrest));
    now rewrite (terminated_no_float _ Hrest).
Qed.

Lemma parse_natural_zero rest :
  terminated rest ->
  parse_natural (0x30 :: rest) = Some (Decimal.D0 Decimal.Nil, rest).
Proof.
  intros Hrest. unfold parse_natural. cbn [Z.eqb Pos.eqb].
  now rewrite (terminated_no_float _ Hrest).
Qed.

Lemma parse_int_repr n rest :
  terminated rest -> parse_int (int_repr n ++ rest) = Some (n, rest).
Proof.
  intros Hrest. unfold int_repr.
  pose proof (to_int_shape n) as Hs. pose proof (DecimalZ.of_to n) as Hn.
  destruct (Z.to_int n) as [u|u].
  - destruct Hs as [->|Hu].
    + simpl uint_chars. simpl app. unfold parse_int. cbn [Z.eqb Pos.eqb].
      rewrite parse_natural_zero by exact Hrest. now rewrite Hn.
    + pose proof (parse_natural_leading u rest Hu Hrest) as Hp.
      destruct u; simpl in Hu; try contradiction;
        simpl uint_chars in *; simpl app in *; unfold parse_int;
        cbn [Z.eqb Pos.eqb]; rewrite Hp; now rewrite Hn.
  - simpl app. unfold parse_int. cbn [Z.eqb Pos.eqb].
    rewrite (parse_natural_leading u rest Hs Hrest). now rewrite Hn.
Qed.

Lemma skip_ws_spaces n s : skip_ws (repeat 0x20 n ++ s) = skip_ws s.
Proof. induction n as [|n IH]; [reflexivity | exact IH]. Qed.

Lemma skip_ws_newline_indent level s :
  skip_ws (newline_indent level ++ s) = skip_ws s.
Proof. unfold newline_indent. simpl. apply skip_ws_spaces. Qed.

Lemma skip_ws_value_head c s : value_head c = true -> skip_ws (c :: s) = c :: s.
Proof.
  unfold value_head. intros H. apply negb_true_iff in H.
  apply orb_false_iff in H as [H H6]. apply orb_false_iff in H as [H H5].
  apply orb_false_iff in H as [H H4]. apply orb_false_iff in H as [H H3].
  apply orb_false_iff in H as [H1 H2].
  cbn [skip_ws]. now rewrite H1, H2, H3, H4.
Qed.

Lemma value_head_brackets c :
  value_head c = true -> (c =? 0x5D) = false /\ (c =? 0x7D) = false.
Proof.
  unfold value_head. intros H. apply negb_true_iff in H.
  apply orb_false_iff in H as [H H6]. apply orb_false_iff in H as [H H5].
  auto.
Qed.

Lemma int_repr_head n : exists c tl, int_repr n = c :: tl /\ num_head c = true.
Proof.
  unfold int_repr. pose proof (to_int_shape n) as Hs.
  destruct (Z.to_int n) as [u|u].
  - destruct Hs as [->|Hu]; [simpl; eauto|].
    destruct u; simpl in Hu; try contradiction; simpl; eauto.
  - simpl. eauto.
Qed.

Lemma num_head_value_head c : num_head c = true -> value_head c = true.
Proof.
  unfold num_head, value_head. intros H.
  apply negb_true_iff. apply orb_true_iff in H as [H|H].
  - apply Z.eqb_eq in H. now subst.
  - apply andb_true_iff in H as [H1 H2].
    apply Z.leb_le in H1. apply Z.leb_le in H2.
    repeat (apply orb_false_iff; split); apply Z.eqb_neq; lia.
Qed.

Lemma iterencode_head level v :
  exists c tl, iterencode level v = c :: tl /\ value_head c = true.
Proof.
  destruct v as [|[]|n|s|[|x l]|[|[k x] l]]; simpl; eauto.
  destruct (int_repr_head n) as (c & tl & -> & Hc).
  eauto using num_head_value_head.
Qed.

Lemma skip_ws_iterencode level v s :
  skip_ws (iterencode level v ++ s) = iterencode level v ++ s.
Proof.
  destruct (iterencode_head level v) as (c & tl & -> & Hc).
  simpl. now apply skip_ws_value_head.
Qed.

#[local] Arguments newline_indent : simpl never.
#[local] Arguments iterencode : simpl never.
#[local] Arguments encode_basestring : simpl never.

Lemma parse_value_number fuel c tl :
  num_head c = true ->
  parse_value (S fuel) (c :: tl) =
  match parse_int (c :: tl) with
  | Some (n, r) => Some (JInt n, r)
  | None => None
  end.
Proof.
  intros H. unfold num_head in H.
  assert (Hc : c = 0x2D \/ (0x30 <= c <= 0x39)).
  { apply orb_true_iff in H as [H|H].
    - apply Z.eqb_eq in H. now left.
    - apply andb_true_iff in H as [H1 H2].
      apply Z.leb_le in H1. apply Z.leb_le in H2. now right. }
  cbn [parse_value].
  rewrite (proj2 (Z.eqb_neq c 0x22)) by lia.
  rewrite (proj2 (Z.eqb_neq c 0x7B)) by lia.
  rewrite (proj2 (Z.eqb_neq c 0x5B)) by lia.
  rewrite (proj2 (Z.eqb_neq c 0x6E)) by lia.
  rewrite (proj2 (Z.eqb_neq c 0x74)) by lia.
  rewrite (proj2 (Z.eqb_neq c 0x66)) by lia.
  reflexivity.
Qed.

Lemma parse_value_int fuel n rest :
  terminated rest ->
  parse_value (S fuel) (int_repr n ++ rest) = Some (JInt n, rest).
Proof.
  intros Hrest. pose proof (parse_int_repr n rest Hrest) as Hp.
  destruct (int_repr_head n) as (c & tl & E & Hc). rewrite E in *.
  simpl app in *. rewrite parse_value_number by exact Hc. now rewrite Hp.
Qed.

Lemma parse_value_string fuel s rest :
  parse_value (S fuel) (encode_basestring s ++ rest) = Some (JString s, rest).
Proof.
  unfold encode_basestring. simpl app. cbn [parse_value Z.eqb Pos.eqb].
  rewrite <- app_assoc. simpl app. now rewrite scanstring_encode.
Qed.

Lemma encode_items_cons enc sep y l :
  encode_items enc sep (y :: l)
  = 0x2C :: sep ++ enc y ++ encode_items enc sep l.
Proof. reflexivity. Qed.

Lemma encode_members_cons enc sep k y l :
  encode_members enc sep ((k, y) :: l)
  = 0x2C :: sep ++ encode_basestring k ++ py ": " ++ enc y
    ++ encode_members enc sep l.
Proof. reflexivity. Qed.

Lemma encode_items_length enc sep l :
  (length l <= length (encode_items enc sep l))%nat.
Proof.
  induction l as [|y l IH]; [simpl; lia|].
  rewrite encode_items_cons. cbn [length]. rewrite !length_app. lia.
Qed.

Lemma encode_members_length enc sep l :
  (length l <= length (encode_members enc sep l))%nat.
Proof.
  induction l as [|[k y] l IH]; [simpl; lia|].
  rewrite encode_members_cons. cbn [length]. rewrite !length_app. lia.
Qed.

Lemma terminated_items enc sep l level tail :
  terminated (encode_items enc sep l ++ newline_indent level ++ tail).
Proof. destruct l; [simpl; auto | rewrite encode_items_cons; simpl; auto]. Qed.

Lemma terminated_members enc sep l level tail :
  terminated (encode_members enc sep l ++ newline_indent level ++ tail).
Proof.
  destruct l as [|[k y] l]; [simpl; auto | rewrite encode_members_cons; simpl; auto].
Qed.

(** The items of an array, read back one after the other. *)
Lemma parse_items_encode pv level inner rest l : forall x acc n,
  (forall y, In y (x :: l) -> forall r, terminated r ->
     pv (iterencode inner y ++ r) = Some (y, r)) ->
  (length l < n)%nat ->
  parse_items pv n
    (iterencode inner x
     ++ encode_items (iterencode inner) (newline_indent inner) l
     ++ newline_indent level ++ 0x5D :: rest) acc
  = Some (acc ++ x :: l, rest).
Proof.
  induction l as [|y l IH]; intros x acc n Hpv Hn.
  - destruct n as [|n]; [lia|]. cbn [parse_items].
    rewrite Hpv; [|now left|apply (terminated_items _ _ [])].
    change (encode_items (iterencode inner) (newline_indent inner) [])
      with (@nil Z).
    rewrite app_nil_l, skip_ws_newline_indent.
    reflexivity.
  - destruct n as [|n]; [simpl in Hn; lia|]. cbn [parse_items].
    rewrite Hpv; [|now left|apply (terminated_items _ _ (y :: l))].
    rewrite encode_items_cons, <- app_comm_cons.
    cbn [skip_ws Z.eqb Pos.eqb orb].
    rewrite <- !app_assoc. rewrite skip_ws_newline_indent.
    rewrite skip_ws_iterencode.
    rewrite IH.
    + now rewrite <- app_assoc.
    + intros z Hz. apply Hpv. now right.
    + simpl in Hn. lia.
Qed.

Lemma dict_set_fresh acc k v :
  ~ In k (map fst acc) -> dict_set acc k v = acc ++ [(k, v)].
Proof.
  induction acc as [|[k' v'] acc IH]; intros Hk; [reflexivity|].
  simpl in *. destruct (decide (k' = k)) as [->|Hne].
  - exfalso. apply Hk. now left.
  - f_equal. apply IH. intros Hin. apply Hk. now right.
Qed.

(** The members of an object, read back one after the other. *)
Lemma parse_members_encode pv level inner rest l : forall k x acc n,
  (forall k' y, In (k', y) ((k, x) :: l) -> forall r, terminated r ->
     pv (iterencode inner y ++ r) = Some (y, r)) ->
  NoDup (map fst acc ++ map fst ((k, x) :: l)) ->
  (length l < n)%nat ->
  parse_members pv n
    (encode_basestring k ++ py ": " ++ iterencode inner x
     ++ encode_members (iterencode inner) (newline_indent inner) l
     ++ newline_indent level ++ 0x7D :: rest) acc
  = Some (acc ++ (k, x) :: l, rest).
Proof.
  induction l as [|[k' y] l IH]; intros k x acc n Hpv Hnd Hn.
  - destruct n as [|n]; [lia|].
    unfold encode_basestring. rewrite <- !app_assoc. cbn [app].
    cbn [parse_members Z.eqb Pos.eqb].
    rewrite scanstring_encode.
    change (py ": " ++ ?t) with (0x3A :: 0x20 :: t).
    cbn [skip_ws Z.eqb Pos.eqb orb].
    rewrite skip_ws_iterencode.
    rewrite (Hpv k x); [|now left|apply (terminated_members _ _ [])].
    change (encode_members (iterencode inner) (newline_indent inner) [])
      with (@nil Z).
    rewrite app_nil_l, skip_ws_newline_indent.
    cbn [skip_ws Z.eqb Pos.eqb orb].
    rewrite dict_set_fresh; [reflexivity|].
    apply NoDup_app in Hnd as (_ & Hd & _). intros Hin.
    apply (Hd k); [now apply list_elem_of_In | simpl; left].
  - destruct n as [|n]; [simpl in Hn; lia|].
    assert (Hfresh : ~ In k (map fst acc)).
    { apply NoDup_app in Hnd as (_ & Hd & _). intros Hin.
      apply (Hd k); [now apply list_elem_of_In | simpl; left]. }
    unfold encode_basestring at 1. rewrite <- !app_assoc. cbn [app].
    cbn [parse_members Z.eqb Pos.eqb].
    rewrite scanstring_encode.
    change (py ": " ++ ?t) with (0x3A :: 0x20 :: t).
    cbn [skip_ws Z.eqb Pos.eqb orb].
    rewrite skip_ws_iterencode.
    rewrite (Hpv k x);
      [|now left|apply (terminated_members _ _ ((k', y) :: l))].
    rewrite encode_members_cons, <- app_comm_cons.
    cbn [skip_ws Z.eqb Pos.eqb orb].
    rewrite <- !app_assoc. rewrite skip_ws_newline_indent.
    rewrite dict_set_fresh by exact Hfresh.
    assert (Hq : forall t, skip_ws (encode_basestring k' ++ t)
                           = encode_basestring k' ++ t) by reflexivity.
    rewrite Hq.
    rewrite IH.
    + now rewrite <- app_assoc.
    + intros k0 z Hz. apply (Hpv k0). now right.
    + rewrite map_app. simpl. rewrite <- app_assoc. exact Hnd.
    + simpl in Hn. lia.
Qed.

Lemma depth_pos v : (1 <= depth v)%nat.
Proof. destruct v; simpl; lia. Qed.

Lemma depth_array l n y :
  (depth (JArray l) <= S n)%nat -> In y l -> (depth y <= n)%nat.
Proof.
  simpl. induction l as [|x l IH]; intros Hd Hy; [contradiction|].
  simpl in Hd. destruct Hy as [->|Hy]; [lia|]. apply IH; [lia | exact Hy].
Qed.

Lemma depth_object l n k y :
  (depth (JObject l) <= S n)%nat -> In (k, y) l -> (depth y <= n)%nat.
Proof.
  simpl. induction l as [|[k' x] l IH]; intros Hd Hy; [contradiction|].
  simpl in Hd. destruct Hy as [Hy|Hy]; [inversion Hy; subst; lia|].
  apply IH; [lia | exact Hy].
Qed.

Lemma json_wf_array l y : json_wf (JArray l) -> In y l -> json_wf y.
Proof.
  simpl. induction l as [|x l IH]; intros Hw Hy; [contradiction|].
  simpl in Hw. destruct Hw as [Hx Hl]. destruct Hy as [->|Hy]; auto.
Qed.

Lemma json_wf_object l k y : json_wf (JObject l) -> In (k, y) l -> json_wf y.
Proof.
  simpl. intros [_ Hw]. induction l as [|[k' x] l IH]; intros Hy; [contradiction|].
  simpl in Hw. destruct Hw as [Hx Hl].
  destruct Hy as [Hy|Hy]; [inversion Hy; subst; auto | auto].
Qed.

Lemma iterencode_array level x l :
  iterencode level (JArray (x :: l))
  = 0x5B :: newline_indent (S level) ++ iterencode (S level) x
    ++ encode_items (iterencode (S level)) (newline_indent (S level)) l
    ++ newline_indent level ++ [0x5D].
Proof. reflexivity. Qed.

Lemma iterencode_object level k x l :
  iterencode level (JObject ((k, x) :: l))
  = 0x7B :: newline_indent (S level)
    ++ encode_basestring k ++ py ": " ++ iterencode (S level) x
    ++ encode_members (iterencode (S level)) (newline_indent (S level)) l
    ++ newline_indent level ++ [0x7D].
Proof. reflexivity. Qed.

(** One value read back from its encoding, whatever follows it. *)
Lemma parse_value_iterencode fuel : forall v level rest,
  (depth v <= fuel)%nat -> json_wf v -> terminated rest ->
  parse_value fuel (iterencode level v ++ rest) = Some (v, rest).
Proof.
  induction fuel as [|fuel IH]; intros v level rest Hd Hw Hrest.
  - pose proof (depth_pos v). lia.
  - destruct v as [|[]|n|s|[|x l]|[|[k x] l]].
    + reflexivity.
    + reflexivity.
    + reflexivity.
    + now apply parse_value_int.
    + apply parse_value_string.
    + reflexivity.
    + rewrite iterencode_array. rewrite <- app_comm_cons.
      cbn [parse_value Z.eqb Pos.eqb].
      rewrite <- !app_assoc. rewrite skip_ws_newline_indent.
      rewrite skip_ws_iterencode.
      set (X := iterencode (S level) x
                ++ encode_items (iterencode (S level))
                     (newline_indent (S level)) l
                ++ newline_indent level ++ [0x5D] ++ rest).
      assert (HX : exists c r, X = c :: r /\ value_head c = true).
      { unfold X. destruct (iterencode_head (S level) x) as (c & tl & -> & Hc).
        simpl. eauto. }
      destruct HX as (c & r & HXc & Hc). rewrite HXc.
      rewrite (proj1 (value_head_brackets c Hc)). rewrite <- HXc. unfold X.
      change ([0x5D] ++ rest) with (0x5D :: rest).
      rewrite parse_items_encode; [reflexivity| |].
      * intros y Hy r0 Hr0. apply IH; [|eapply json_wf_array; eauto|exact Hr0].
        eapply depth_array; eauto.
      * rewrite !length_app.
        pose proof (encode_items_length (iterencode (S level))
                      (newline_indent (S level)) l).
        unfold newline_indent at 1. simpl length. lia.
    + reflexivity.
    + rewrite iterencode_object. rewrite <- app_comm_cons.
      cbn [parse_value Z.eqb Pos.eqb].
      rewrite <- !app_assoc. rewrite skip_ws_newline_indent.
      assert (Hq : forall t, skip_ws (encode_basestring k ++ t)
                             = encode_basestring k ++ t) by reflexivity.
      rewrite Hq.
      set (X := encode_basestring k ++ py ": " ++ iterencode (S level) x
                ++ encode_members (iterencode (S level))
                     (newline_indent (S level)) l
                ++ newline_indent level ++ [0x7D] ++ rest).
      assert (HX : exists r, X = 0x22 :: r) by (unfold X; simpl; eauto).
      destruct HX as (r & HXc). rewrite HXc.
      cbn [Z.eqb Pos.eqb]. rewrite <- HXc. unfold X.
      change ([0x7D] ++ rest) with (0x7D :: rest).
      rewrite parse_members_encode; [reflexivity| | |].
      * intros k' y Hy r0 Hr0. apply IH; [|eapply json_wf_object; eauto|exact Hr0].
        eapply depth_object; eauto.
      * simpl. simpl in Hw. tauto.
      * rewrite !length_app.
        pose proof (encode_members_length (iterencode (S level))
                      (newline_indent (S level)) l).
        unfold newline_indent at 1. simpl length. lia.
Qed.

Lemma items_depth enc sep l :
  (forall y, In y l -> (depth y <= length (enc y))%nat) ->
  (fold_right (fun x acc => Nat.max (depth x) acc) O l
   <= length (encode_items enc sep l))%nat.
Proof.
  induction l as [|y l IH]; intros H; [simpl; lia|].
  rewrite encode_items_cons. cbn [length fold_right]. rewrite !length_app.
  pose proof (H y (or_introl eq_refl)).
  assert (forall z, In z l -> (depth z <= length (enc z))%nat)
    by (intros z Hz; apply H; now right).
  specialize (IH H1). lia.
Qed.

Lemma members_depth enc sep l :
  (forall k y, In (k, y) l -> (depth y <= length (enc y))%nat) ->
  (fold_right (fun kv acc => Nat.max (depth (snd kv)) acc) O l
   <= length (encode_members enc sep l))%nat.
Proof.
  induction l as [|[k y] l IH]; intros H; [simpl; lia|].
  rewrite encode_members_cons. cbn [length fold_right snd]. rewrite !length_app.
  pose proof (H k y (or_introl eq_refl)).
  assert (forall k' z, In (k', z) l -> (depth z <= length (enc z))%nat)
    by (intros k' z Hz; apply (H k'); now right).
  specialize (IH H1). lia.
Qed.

(** A document is longer than it is deep. *)
Lemma iterencode_depth n : forall v level,
  (depth v <= n)%nat -> (depth v <= length (iterencode level v))%nat.
Proof.
  induction n as [|n IH]; intros v level Hd.
  - pose proof (depth_pos v). lia.
  - destruct v as [|[]|i|s|[|x l]|[|[k x] l]];
      try (unfold iterencode; simpl; lia).
    + destruct (iterencode_head level (JInt i)) as (c & tl & -> & _).
      simpl. lia.
    + rewrite iterencode_array. cbn [length depth fold_right].
      rewrite !length_app.
      assert (H1 : (depth x <= length (iterencode (S level) x))%nat).
      { apply IH. eapply depth_array; [exact Hd | now left]. }
      assert (H2 := items_depth (iterencode (S level))
                      (newline_indent (S level)) l).
      assert (H3 : forall y, In y l ->
                     (depth y <= length (iterencode (S level) y))%nat).
      { intros y Hy. apply IH. eapply depth_array; [exact Hd | now right]. }
      specialize (H2 H3). lia.
    + rewrite iterencode_object. cbn [length depth fold_right snd].
      rewrite !length_app.
      assert (H1 : (depth x <= length (iterencode (S level) x))%nat).
      { apply IH. eapply depth_object; [exact Hd | now left]. }
      assert (H2 := members_depth (iterencode (S level))
                      (newline_indent (S level)) l).
      assert (H3 : forall k' y, In (k', y) l ->
                     (depth y <= length (iterencode (S level) y))%nat).
      { intros k' y Hy. apply IH. eapply depth_object; [exact Hd | right; exact Hy]. }
      specialize (H2 H3). lia.
Qed.

(** The decoder reads back what the encoder wrote. *)
Lemma json_loads_dumps v : json_wf v -> json_loads (json_dumps v) = Some v.
Proof.
  intros Hw. unfold json_loads, json_dumps.
  pose proof (skip_ws_iterencode O v []) as Hs. rewrite app_nil_r in Hs.
  rewrite Hs.
  pose proof (parse_value_iterencode (S (length (iterencode 0 v))) v O []) as Hp.
  rewrite app_nil_r in Hp. rewrite Hp; [reflexivity| |exact Hw|exact I].
  pose proof (iterencode_depth (depth v) v O (le_n _)). lia.
Qed.

(** ** The report of a batch *)

Lemma json_wf_asdict item : json_wf (asdict item).
Proof.
  unfold asdict. simpl. split; [|tauto].
  apply (bool_decide_unpack _). vm_compute. exact I.
Qed.

Lemma json_wf_entries l : json_wf (JArray (map asdict l)).
Proof.
  induction l as [|item l IH]; [exact I|].
  split; [apply json_wf_asdict | exact IH].
Qed.

Lemma json_wf_payload report : json_wf (report_payload report).
Proof.
  unfold report_payload. split.
  - apply (bool_decide_unpack _). vm_compute. exact I.
  - cbn [fold_right snd]. repeat split. apply json_wf_entries.
Qed.

Lemma write_report_Ok report cfg w w' :
  write_report report cfg w = (Ok tt, w') ->
  exists rd,
    fs w' !! report_path cfg
    = Some (File rd true (Text (json_dumps (report_payload report)))).
Proof.
  unfold write_report. intros H.
  apply write_text_spec in H as (_ & _ & _ & [(_ & _ & _ & rd & ->)|(e & He & _)]);
    [|discriminate].
  exists rd. apply lookup_insert_eq.
Qed.

Section Report.

Context (U : Unicodedata).

Lemma expected_report_unchanged content rel :
  normalise_text U content = content ->
  changed (expected_report U content rel) = false /\
  characters_before (expected_report U content rel)
  = characters_after (expected_report U content rel).
Proof.
  intros H. unfold expected_report; simpl. rewrite H.
  split; [|reflexivity]. now rewrite bool_decide_eq_true_2.
Qed.

Lemma expected_report_changed content rel :
  changed (expected_report U content rel) = true <->
  normalise_text U content <> content.
Proof.
  unfold expected_report; simpl. rewrite negb_true_iff.
  rewrite bool_decide_eq_false. reflexivity.
Qed.

(** The entries of a batch that ends well, turn by turn. *)
Lemma process_loop_entries paths : forall cfg dry_run acc w acc' w',
  process_loop U paths cfg dry_run acc w = (Ok acc', w') ->
  forall i p, paths !! i = Some p ->
  exists acc_i w_i content wr rel,
    process_loop U (take i paths) cfg dry_run acc w = (Ok acc_i, w_i) /\
    node_at (fs w_i) p = Some (File true wr (Text content)) /\
    relative_to p (source_dir cfg) = Some rel /\
    acc' !! (length acc + i)%nat = Some (expected_report U content rel).
Proof.
  induction paths as [|p0 paths IH]; intros cfg dry_run acc w acc' w' H i p Hi;
    [discriminate|].
  rewrite process_loop_cons in H.
  destruct (process_file U p0 cfg dry_run acc w) as [[acc1|e] w1] eqn:E;
    [|discriminate].
  destruct i as [|i]; simpl in Hi.
  - inversion Hi; subst p0; clear Hi.
    apply process_file_Ok in E as (content & wr & rel & Hnode & Hrel & -> & _).
    exists acc, w, content, wr, rel.
    split; [reflexivity|]. split; [exact Hnode|]. split; [exact Hrel|].
    rewrite process_loop_acc in H.
    destruct (process_loop U paths cfg dry_run [] w1) as [[more|e] w2];
      [|discriminate].
    inversion H; subst. rewrite Nat.add_0_r, <- app_assoc.
    rewrite lookup_app_r by lia. now rewrite Nat.sub_diag.
  - destruct (IH cfg dry_run acc1 w1 acc' w' H i p Hi)
      as (acc_i & w_i & content & wr & rel & G1 & G2 & G3 & G4).
    exists acc_i, w_i, content, wr, rel.
    split.
    + change (take (S i) (p0 :: paths)) with (p0 :: take i paths).
      rewrite process_loop_cons, E. exact G1.
    + split; [exact G2|]. split; [exact G3|].
      apply process_file_Ok in E as (c0 & wr0 & rel0 & _ & _ & -> & _).
      rewrite length_app in G4. simpl in G4.
      replace (length acc + S i)%nat with (length acc + 1 + i)%nat by lia.
      exact G4.
Qed.

End Report.

(** C4.  In a batch that ends well the report has one entry per path, in
    order, and the entry of a file is built from the text that the turn of
    the file read: [changed] tells whether normalising alters that text and
    the two counts are the lengths of the text before and after; with
    [dry_run] true that text is the one the file had when the batch began.
    An entry of a text that normalising leaves alone has [changed] false and
    equal counts.  The report that [write_report] then writes parses back to
    its payload, whose [files] array has one object per path with these
    counts. *)
Theorem report_entries U paths cfg dry_run w report w' :
  process_files U paths cfg dry_run w = (Ok report, w') ->
  length (files report) = length paths /\
  (forall i p, paths !! i = Some p ->
     exists acc_i w_i content wr rel,
       process_loop U (take i paths) cfg dry_run [] w = (Ok acc_i, w_i) /\
       node_at (fs w_i) p = Some (File true wr (Text content)) /\
       (dry_run = true -> fs w_i = fs w) /\
       relative_to p (source_dir cfg) = Some rel /\
       files report !! i = Some (expected_report U content rel)) /\
  (forall item, In item (files report) ->
     exists content,
       changed item = negb (bool_decide (normalise_text U content = content)) /\
       characters_before item = Z.of_nat (length content) /\
       characters_after item = Z.of_nat (length (normalise_text U content)) /\
       (normalise_text U content = content ->
        changed item = false /\
        characters_before item = characters_after item)) /\
  (forall w'', write_report report cfg w' = (Ok tt, w'') ->
     exists rd doc,
       fs w'' !! report_path cfg = Some (File rd true (Text doc)) /\
       json_loads doc = Some (report_payload report) /\
       member (py "files") (report_payload report)
       = Some (JArray (map asdict (files report))) /\
       length (map asdict (files report)) = length paths /\
       forall i item, files report !! i = Some item ->
         map asdict (files report) !! i = Some (asdict item) /\
         member (py "characters_before") (asdict item)
         = Some (JInt (characters_before item)) /\
         member (py "characters_after") (asdict item)
         = Some (JInt (characters_after item)) /\
         member (py "changed") (asdict item) = Some (JBool (changed item))).
Proof.
  intros H.
  apply process_files_inv in H as [(reports & H & Hr)|(e & _ & Hr)];
    [|discriminate].
  inversion Hr; subst report; clear Hr. cbn [files].
  assert (Hlen : length reports = length paths)
    by (apply process_loop_length in H; exact H).
  assert (Hentries : forall i p, paths !! i = Some p ->
     exists acc_i w_i content wr rel,
       process_loop U (take i paths) cfg dry_run [] w = (Ok acc_i, w_i) /\
       node_at (fs w_i) p = Some (File true wr (Text content)) /\
       (dry_run = true -> fs w_i = fs w) /\
       relative_to p (source_dir cfg) = Some rel /\
       reports !! i = Some (expected_report U content rel)).
  { intros i p Hi.
    destruct (process_loop_entries U paths cfg dry_run [] w reports w' H i p Hi)
      as (acc_i & w_i & content & wr & rel & G1 & G2 & G3 & G4).
    exists acc_i, w_i, content, wr, rel.
    split; [exact G1|]. split; [exact G2|]. split; [|auto].
    apply process_loop_frame in G1 as (_ & _ & _ & G1 & _). exact G1. }
  split; [exact Hlen|]. split; [exact Hentries|]. split.
  - intros item Hitem. apply list_elem_of_In in Hitem.
    apply list_elem_of_lookup in Hitem as [i Hi].
    assert (Hp : exists p, paths !! i = Some p).
    { apply lookup_lt_is_Some. rewrite <- Hlen. eapply lookup_lt_Some; eauto. }
    destruct Hp as [p Hp].
    destruct (Hentries i p Hp) as (_ & _ & content & _ & rel & _ & _ & _ & _ & G).
    rewrite Hi in G. inversion G; subst item.
    exists content. repeat split; try reflexivity;
      now apply expected_report_unchanged.
  - intros w'' Hw. apply write_report_Ok in Hw as [rd Hw].
    exists rd, (json_dumps (report_payload
                  {| report_source_dir := path_str (source_dir cfg);
                     report_output_dir := path_str (output_dir cfg);
                     report_dry_run := dry_run;
                     files := reports |})).
    split; [exact Hw|]. split; [apply json_loads_dumps, json_wf_payload|].
    split; [reflexivity|]. split; [now rewrite length_map|].
    intros i item Hi. split; [now rewrite list_lookup_fmap, Hi|].
    repeat split; reflexivity.
Qed.

(** ** Discovery *)

Lemma str_leb_refl a : str_leb a a = true.
Proof.
  induction a as [|x a IH]; [reflexivity|]. simpl.
  rewrite Z.eqb_refl, IH. apply orb_true_r.
Qed.

Lemma str_leb_total a : forall b, str_leb a b = true \/ str_leb b a = true.
Proof.
  induction a as [|x a IH]; intros [|y b]; simpl; auto.
  destruct (Z.ltb_spec x y); [now left|].
  destruct (Z.ltb_spec y x); [now right|].
  assert (x = y) by lia. subst. rewrite Z.eqb_refl. simpl. apply IH.
Qed.

Lemma str_leb_antisym a : forall b,
  str_leb a b = true -> str_leb b a = true -> a = b.
Proof.
  induction a as [|x a IH]; intros [|y b]; simpl; try discriminate; auto.
  intros H1 H2.
  apply orb_true_iff in H1 as [H1|H1]; apply orb_true_iff in H2 as [H2|H2].
  - apply Z.ltb_lt in H1. apply Z.ltb_lt in H2. lia.
  - apply Z.ltb_lt in H1. apply andb_true_iff in H2 as [H2 _].
    apply Z.eqb_eq in H2. lia.
  - apply Z.ltb_lt in H2. apply andb_true_iff in H1 as [H1 _].
    apply Z.eqb_eq in H1. lia.
  - apply andb_true_iff in H1 as [H1 H1']. apply andb_true_iff in H2 as [_ H2'].
    apply Z.eqb_eq in H1. subst. f_equal. now apply IH.
Qed.

Lemma str_leb_trans a : forall b c,
  str_leb a b = true -> str_leb b c = true -> str_leb a c = true.
Proof.
  induction a as [|x a IH]; intros [|y b] [|z c]; simpl; try discriminate; auto.
  intros H1 H2.
  apply orb_true_iff in H1 as [H1|H1]; apply orb_true_iff in H2 as [H2|H2].
  - apply Z.ltb_lt in H1. apply Z.ltb_lt in H2.
    apply orb_true_iff. left. apply Z.ltb_lt. lia.
  - apply Z.ltb_lt in H1. apply andb_true_iff in H2 as [H2 _].
    apply Z.eqb_eq in H2. apply orb_true_iff. left. apply Z.ltb_lt. lia.
  - apply Z.ltb_lt in H2. apply andb_true_iff in H1 as [H1 _].
    apply Z.eqb_eq in H1. apply orb_true_iff. left. apply Z.ltb_lt. lia.
  - apply andb_true_iff in H1 as [H1 H1']. apply andb_true_iff in H2 as [H2 H2'].
    apply Z.eqb_eq in H1. apply Z.eqb_eq in H2. subst.
    rewrite Z.eqb_refl. simpl. rewrite (IH b c H1' H2'). apply orb_true_r.
Qed.

#[global] Instance path_le_total : Total path_le.
Proof.
  intros p. unfold path_le. induction p as [|x p IH]; intros [|y q]; simpl; auto.
  destruct (decide (x = y)) as [->|Hne].
  - destruct (decide (y = y)); [apply IH | contradiction].
  - destruct (decide (y = x)); [congruence | apply str_leb_total].
Qed.

#[global] Instance path_le_trans : Transitive path_le.
Proof.
  intros p. unfold path_le.
  induction p as [|x p IH]; intros [|y q] [|z r]; simpl; try discriminate; auto.
  destruct (decide (x = y)) as [->|Hxy]; destruct (decide (y = z)) as [->|Hyz].
  - destruct (decide (z = z)); [apply IH | contradiction].
  - destruct (decide (y = z)); [contradiction | auto].
  - destruct (decide (x = z)); [contradiction | auto].
  - intros H1 H2. destruct (decide (x = z)) as [->|Hxz].
    + exfalso. apply Hxy. now apply str_leb_antisym.
    + eapply str_leb_trans; eauto.
Qed.

#[global] Instance path_le_antisym : AntiSymm (=) path_le.
Proof.
  intros p. unfold path_le.
  induction p as [|x p IH]; intros [|y q]; simpl; try discriminate; auto.
  destruct (decide (x = y)) as [->|Hxy].
  - destruct (decide (y = y)); [|contradiction].
    intros H1 H2. f_equal. now apply IH.
  - destruct (decide (y = x)); [congruence|].
    intros H1 H2. exfalso. apply Hxy. now apply str_leb_antisym.
Qed.

(** The order of paths is the lexicographic one: a path comes before the
    paths that extend it, and two paths that part ways are ordered by the
    first part in which they differ, parts being ordered in the same way by
    their first differing character. *)
Lemma str_leb_lexicographic a : forall b,
  str_leb a b = true <->
  a `prefix_of` b \/
  exists c x y a' b', a = c ++ x :: a' /\ b = c ++ y :: b' /\ x < y.
Proof.
  induction a as [|x a IH]; intros b.
  - split; [intros _; left; apply prefix_nil | reflexivity].
  - destruct b as [|y b].
    + split; [discriminate|]. intros [H|(c & x0 & y0 & a' & b' & _ & H & _)].
      * now apply prefix_nil_not in H.
      * now destruct c.
    + cbn [str_leb]. rewrite orb_true_iff, andb_true_iff, Z.ltb_lt, Z.eqb_eq, IH.
      split.
      * intros [Hlt|[-> [Hp|(c & x0 & y0 & a' & b' & -> & -> & Hlt)]]].
        -- right. exists [], x, y, a, b. auto.
        -- left. now apply prefix_cons.
        -- right. exists (y :: c), x0, y0, a', b'. auto.
      * intros [Hp|(c & x0 & y0 & a' & b' & Ha & Hb & Hlt)].
        -- right. split; [eapply prefix_cons_inv_1; eauto|].
           left. eapply prefix_cons_inv_2; eauto.
        -- destruct c as [|z c]; simpl in Ha, Hb;
             inversion Ha; inversion Hb; subst.
           ++ now left.
           ++ right. split; [reflexivity|]. right.
              exists c, x0, y0, a', b'. auto.
Qed.

Lemma path_le_lexicographic (p : Path) : forall q : Path,
  path_le p q <->
  p `prefix_of` q \/
  exists c x y p' q',
    p = c ++ x :: p' /\ q = c ++ y :: q' /\ x <> y /\ str_leb x y = true.
Proof.
  unfold path_le. induction p as [|x p IH]; intros q.
  - split; [intros _; left; apply prefix_nil | reflexivity].
  - destruct q as [|y q].
    + split; [discriminate|]. intros [H|(c & x0 & y0 & p' & q' & _ & H & _)].
      * now apply prefix_nil_not in H.
      * now destruct c.
    + cbn [path_leb]. destruct (decide (x = y)) as [->|Hne].
      * rewrite IH. split.
        -- intros [Hp|(c & x0 & y0 & p' & q' & -> & -> & Hd & Hle)].
           ++ left. now apply prefix_cons.
           ++ right. exists (y :: c), x0, y0, p', q'. auto.
        -- intros [Hp|(c & x0 & y0 & p' & q' & Ha & Hb & Hd & Hle)].
           ++ left. eapply prefix_cons_inv_2; eauto.
           ++ destruct c as [|z c]; simpl in Ha, Hb;
                inversion Ha; inversion Hb; subst; [contradiction|].
              right. exists c, x0, y0, p', q'. auto.
      * split.
        -- intros Hle. right. exists [], x, y, p, q. auto.
        -- intros [Hp|(c & x0 & y0 & p' & q' & Ha & Hb & Hd & Hle)].
           ++ exfalso. apply Hne. eapply prefix_cons_inv_1; eauto.
           ++ destruct c as [|z c]; simpl in Ha, Hb;
                inversion Ha; inversion Hb; subst; [exact Hle|contradiction].
Qed.

(** The order goes by parts, not by the characters of the joined string:
    "a/b.txt" comes before "a.b/c.txt", although "." sorts before "/". *)
Example path_order_by_parts :
  path_le [py "a"; py "b.txt"] [py "a.b"; py "c.txt"] /\
  str_leb (path_str [py "a.b"; py "c.txt"]) (path_str [py "a"; py "b.txt"]) = true /\
  str_leb (path_str [py "a"; py "b.txt"]) (path_str [py "a.b"; py "c.txt"]) = false.
Proof. repeat split. Qed.

Lemma walkable_spec f source_dir p :
  source_dir `prefix_of` p ->
  walkable f source_dir p = true <-> reachable f source_dir p.
Proof.
  intros Hpre. unfold walkable, reachable. rewrite forallb_forall. split.
  - intros H d Hsd Hdp Hne.
    assert (Hd : d = take (length d) p).
    { destruct Hdp as [t ->]. now rewrite take_app_length. }
    rewrite Hd. apply H. apply in_seq.
    apply prefix_length in Hsd. assert (Hl := prefix_length _ _ Hdp).
    assert (length d <> length p).
    { intros Heq. apply Hne. destruct Hdp as [t ->].
      rewrite length_app in Heq. destruct t; [now rewrite app_nil_r|].
      simpl in Heq. lia. }
    lia.
  - intros H n Hn. apply in_seq in Hn. apply H.
    + destruct Hpre as [t ->]. rewrite take_app_ge by lia.
      now apply prefix_app_r.
    + apply prefix_take.
    + intros Heq. assert (length (take n p) = length p) by now rewrite Heq.
      rewrite length_take in H0. lia.
Qed.

Lemma below_spec source_dir p :
  below source_dir p = true <-> strictly_below source_dir p.
Proof.
  unfold below, strictly_below. rewrite andb_true_iff, !bool_decide_eq_true.
  split.
  - intros [Hp Hl]. split; [exact Hp|]. intros ->. lia.
  - intros [Hp Hne]. split; [exact Hp|].
    destruct Hp as [t ->]. rewrite length_app.
    destruct t; [now rewrite app_nil_r in Hne|]. simpl. lia.
Qed.

Lemma is_file_spec f (p : Path) :
  p <> [] -> is_file f p = true <-> regular (f !! p).
Proof.
  intros Hne. unfold is_file. rewrite node_at_lookup by exact Hne.
  destruct (f !! p) as [[]|]; split; intros H;
    try discriminate; try apply regular_File; try reflexivity;
    destruct H as (r & w & d & H); discriminate.
Qed.

(** In a well-formed filesystem the walk reaches every entry. *)
Lemma fs_wf_reachable f source_dir p :
  fs_wf f -> is_Some (f !! p) -> reachable f source_dir p.
Proof.
  intros Hwf Hp d _ Hdp Hne.
  destruct Hdp as [t ->]. revert Hp Hne.
  induction t as [|x t IH] using rev_ind; intros Hp Hne.
  - now rewrite app_nil_r in Hne.
  - apply Hwf in Hp. unfold parent in Hp.
    rewrite app_assoc, removelast_last in Hp.
    destruct t as [|y t].
    + now rewrite app_nil_r in Hp.
    + apply IH.
      * unfold is_dir in Hp.
        destruct (d ++ y :: t) as [|z l] eqn:E; [now destruct d|].
        rewrite node_at_cons in Hp.
        destruct (f !! (z :: l)) as [n|]; [eauto | discriminate].
      * intros Heq. apply (f_equal length) in Heq.
        rewrite length_app in Heq. simpl in Heq. lia.
Qed.

(** The members of the list that [gather_files] returns. *)
Lemma gather_files_members (f : gmap Path node) (source_dir : Path) (p : Path) :
  In p (gather_files f source_dir) <->
  regular (f !! p) /\ strictly_below source_dir p /\
  reachable f source_dir p /\ py ".txt" `suffix_of` path_name p.
Proof.
  revert p. intros p. unfold gather_files.
    rewrite <- list_elem_of_In, merge_sort_Permutation, list_elem_of_In.
    rewrite filter_In. unfold rglob_txt. rewrite filter_In.
    rewrite !andb_true_iff. unfold fnmatch_txt. rewrite bool_decide_eq_true.
    rewrite below_spec. split.
    - intros [[Hin [[Hb Hw] Hn]] Hf].
      assert (Hne : p <> []).
      { destruct Hb as [Hp Hne]. intros ->. apply Hne.
        now apply prefix_nil_inv in Hp. }
      apply is_file_spec in Hf; [|exact Hne].
      apply walkable_spec in Hw; [|apply Hb]. auto.
    - intros (Hr & Hb & Hw & Hn).
      assert (Hne : p <> []).
      { destruct Hb as [Hp Hne]. intros ->. apply Hne.
        now apply prefix_nil_inv in Hp. }
      split; [|now apply is_file_spec].
      split; [|split; [split; [exact Hb|]|exact Hn]].
      + destruct Hr as (r & w & d & Hr).
        apply in_map_iff. exists (p, File r w d). split; [reflexivity|].
        apply list_elem_of_In. now apply elem_of_map_to_list.
      + apply walkable_spec; [apply Hb | exact Hw].
Qed.

(** C6, as amended.  [gather_files] returns exactly the regular files that
    the walk reaches below the source directory and whose name ends in
    ".txt", hence, in a well-formed filesystem, exactly the regular files
    below it with such a name; directories and special files are left out;
    the list is without repetition and in the increasing order of
    [pathlib]: two paths are compared part by part, a path before its
    extensions and otherwise by the first part in which they differ, and
    two parts are compared character by character, a part before its
    extensions and otherwise by the first code point in which they differ.
    This is not the order of the paths written as strings. *)
Theorem gather_files_spec (f : gmap Path node) (source_dir : Path) :
  (forall p, In p (gather_files f source_dir) <->
     regular (f !! p) /\ strictly_below source_dir p /\
     reachable f source_dir p /\ py ".txt" `suffix_of` path_name p) /\
  (fs_wf f ->
   forall p, In p (gather_files f source_dir) <->
     regular (f !! p) /\ strictly_below source_dir p /\
     py ".txt" `suffix_of` path_name p) /\
  (forall p, In p (gather_files f source_dir) ->
     f !! p <> Some Dir /\ f !! p <> Some Special) /\
  StronglySorted path_le (gather_files f source_dir) /\
  NoDup (gather_files f source_dir) /\
  (forall p q : Path,
     path_le p q <->
     p `prefix_of` q \/
     exists c x y p' q',
       p = c ++ x :: p' /\ q = c ++ y :: q' /\ x <> y /\ str_leb x y = true) /\
  (forall a b : str,
     str_leb a b = true <->
     a `prefix_of` b \/
     exists c x y a' b', a = c ++ x :: a' /\ b = c ++ y :: b' /\ x < y).
Proof.
  pose proof (gather_files_members f source_dir) as Hmem.
  split; [exact Hmem|]. split.
  { intros Hwf p. rewrite Hmem. split.
    - intros (H1 & H2 & _ & H4). auto.
    - intros (H1 & H2 & H4). repeat split; try tauto; try apply H2.
      apply fs_wf_reachable; [exact Hwf|].
      destruct H1 as (r & w & d & ->). eauto. }
  split.
  { intros p Hp. apply Hmem in Hp as [(r & w & d & ->) _].
    split; discriminate. }
  split; [|split; [|split]].
  - unfold gather_files. apply StronglySorted_merge_sort; apply _.
  - unfold gather_files. rewrite merge_sort_Permutation.
    apply NoDup_ListNoDup, List.NoDup_filter, List.NoDup_filter.
    apply NoDup_ListNoDup. apply NoDup_fst_map_to_list.
  - intros p q. apply path_le_lexicographic.
  - intros a b. apply str_leb_lexicographic.
Qed.

(** ** The entry point *)

Lemma print_spec l w :
  print l w = (Ok tt, {| fs := fs w; stdin := stdin w;
                         stdout := stdout w ++ [l]; log := log w |}).
Proof. reflexivity. Qed.

Lemma print_inv l w r w' :
  print l w = (r, w') ->
  r = Ok tt /\ fs w' = fs w /\ stdin w' = stdin w /\ log w' = log w /\
  stdout w' = stdout w ++ [l].
Proof. rewrite print_spec. intros H. inversion H; subst. auto. Qed.

Lemma prompt_yes_no_spec q default w r w' :
  prompt_yes_no q default w = (r, w') ->
  fs w' = fs w /\ log w' = log w /\
  stdout w' = stdout w ++ [LINE_PROMPT q default] /\
  ((stdin w = [] /\ stdin w' = [] /\ r = Raise EOFError)
   \/ (exists a rest, stdin w = a :: rest /\ stdin w' = rest /\
                      r = Ok (answer_value default a))).
Proof.
  unfold prompt_yes_no. rewrite bind_eq. unfold input.
  destruct (stdin w) as [|a rest] eqn:E.
  - intros H. inversion H; subst. simpl. repeat split; auto.
  - cbv zeta. intros H.
    assert (Hr : r = Ok (answer_value default a)
                 /\ w' = {| fs := fs w; stdin := rest;
                            stdout := stdout w ++ [LINE_PROMPT q default];
                            log := log w |}).
    { unfold answer_value. cbv zeta.
      repeat case_bool_decide; apply ret_inv in H as [-> ->];
        split; try reflexivity; congruence. }
    destruct Hr as [-> ->]. simpl.
    repeat (split; [reflexivity|]). right. exists a, rest. auto.
Qed.

Lemma declines_answer a : declines a <-> answer_value true a = false.
Proof.
  unfold declines, answer_value. cbv zeta.
  destruct (bool_decide (lower (strip a) = [])) eqn:E1.
  - apply bool_decide_eq_true in E1. split; [tauto | discriminate].
  - apply bool_decide_eq_false in E1. rewrite orb_false_iff.
    rewrite !bool_decide_eq_false. tauto.
Qed.

Lemma evolves_nowhere_regular f f' (k : Path) :
  evolves nowhere f f' -> regular (f' !! k) -> f' !! k = f !! k.
Proof.
  intros He Hr. destruct (He k) as [A|[[A1 A2]|([] & _)]]; [exact A|].
  rewrite A2 in Hr. now apply not_regular_Dir in Hr.
Qed.

Lemma ensure_directories_spec cfg w r w' :
  ensure_directories cfg w = (r, w') ->
  stdin w' = stdin w /\ stdout w' = stdout w /\
  evolves nowhere (fs w) (fs w') /\
  (exists evs, log w' = log w ++ EvMkdir (output_dir cfg) :: evs) /\
  (r = Ok tt ->
   log w' = log w ++ [EvMkdir (output_dir cfg);
                      EvMkdir (parent (report_path cfg))] /\
   is_dir (fs w') (output_dir cfg) = true /\
   is_dir (fs w') (parent (report_path cfg)) = true).
Proof.
  unfold ensure_directories. intros H.
  apply bind_inv in H as [([] & w1 & H1 & H2)|(e & H1 & ->)].
  - apply mkdir_parents_exist_ok_spec in H1 as (A1 & A2 & A3 & A4 & A5).
    apply mkdir_parents_exist_ok_spec in H2 as (B1 & B2 & B3 & B4 & B5).
    split; [congruence|]. split; [congruence|].
    split; [eapply evolves_trans; eauto|]. split.
    + exists [EvMkdir (parent (report_path cfg))].
      rewrite B3, A3. now rewrite <- app_assoc.
    + intros Hr. split; [rewrite B3, A3; now rewrite <- app_assoc|].
      split; [|auto]. eapply evolves_dir; [exact B4|auto].
  - apply mkdir_parents_exist_ok_spec in H1 as (A1 & A2 & A3 & A4 & A5).
    split; [exact A1|]. split; [exact A2|]. split; [exact A4|]. split.
    + exists []. exact A3.
    + discriminate.
Qed.

Section EntryPoint.

Context (U : Unicodedata) (PROJECT_ROOT : Path).

Local Abbreviation cfg_of := (config_of_args PROJECT_ROOT).

(** [main] is its prologue followed by [main_run]. *)
Lemma main_eq args w :
  main U PROJECT_ROOT args w =
  match main_prologue PROJECT_ROOT args w with
  | (Ok None, w') => (Ok 0, w')
  | (Ok (Some dry_run), w') => main_run U (cfg_of args) dry_run w'
  | (Raise e, w') => (Raise e, w')
  end.
Proof.
  unfold main, main_prologue, mbind, M_bind, mret, M_ret, print. cbv zeta.
  destruct (ensure_directories (cfg_of args) w) as [[[]|e] w1]; [|reflexivity].
  cbv beta iota.
  destruct (args_interactive args); cbv beta iota; [|reflexivity].
  destruct (prompt_yes_no ASK_RUN_NOW true _) as [[[]|e] w2];
    cbn [negb]; cbv beta iota; try reflexivity.
  destruct (prompt_yes_no ASK_DRY_RUN _ w2) as [[b|e] w3]; reflexivity.
Qed.

(** What the prologue does, however it ends: directories may appear, no
    file is read or written, and the first call is the [mkdir] of the
    output directory. *)
Lemma main_prologue_spec args w r w' :
  main_prologue PROJECT_ROOT args w = (r, w') ->
  evolves nowhere (fs w) (fs w') /\
  (exists evs, log w' = log w ++ EvMkdir (output_dir (cfg_of args)) :: evs) /\
  (forall r1 w1, ensure_directories (cfg_of args) w = (r1, w1) ->
     fs w' = fs w1 /\ log w' = log w1 /\
     match r1 with
     | Raise e => r = Raise e /\ w' = w1
     | Ok _ => exists lines, stdout w' = stdout w ++ HEADER :: lines
     end) /\
  (forall o, r = Ok o ->
     log w' = log w ++ [EvMkdir (output_dir (cfg_of args));
                        EvMkdir (parent (report_path (cfg_of args)))] /\
     is_dir (fs w') (output_dir (cfg_of args)) = true /\
     is_dir (fs w') (parent (report_path (cfg_of args))) = true).
Proof.
  intros H.
  unfold main_prologue, mbind, M_bind, mret, M_ret, print in H. cbv zeta in H.
  destruct (ensure_directories (cfg_of args) w) as [r1 w1] eqn:E.
  assert (E' := E).
  apply ensure_directories_spec in E' as (A1 & A2 & A3 & A4 & A5).
  destruct r1 as [[]|e].
  2:{ inversion H; subst. split; [exact A3|]. split; [exact A4|]. split.
      - intros r1 w1' Hr. inversion Hr; subst. auto.
      - discriminate. }
  destruct (A5 eq_refl) as (A6 & A7 & A8). clear A5.
  cbv beta iota in H.
  assert (Hgoal : forall w0, fs w0 = fs w1 -> log w0 = log w1 ->
            (exists lines, stdout w0 = stdout w ++ HEADER :: lines) ->
            evolves nowhere (fs w) (fs w0) /\
            (exists evs, log w0 = log w
                         ++ EvMkdir (output_dir (cfg_of args)) :: evs) /\
            (forall r1 w1', (Ok tt, w1) = (r1, w1') ->
               fs w0 = fs w1' /\ log w0 = log w1' /\
               match r1 with
               | Raise e => r = Raise e /\ w0 = w1'
               | Ok _ => exists lines, stdout w0 = stdout w ++ HEADER :: lines
               end) /\
            (forall o, r = Ok o ->
               log w0 = log w ++ [EvMkdir (output_dir (cfg_of args));
                                  EvMkdir (parent (report_path (cfg_of args)))] /\
               is_dir (fs w0) (output_dir (cfg_of args)) = true /\
               is_dir (fs w0) (parent (report_path (cfg_of args))) = true)).
  { intros w0 F1 F2 F3. split; [now rewrite F1|]. split.
    - destruct A4 as [evs A4]. exists evs. now rewrite F2.
    - split.
      + intros r1 w1' Hr. inversion Hr; subst. auto.
      + intros o _. rewrite F1, F2. auto. }
  destruct (args_interactive args); cbv beta iota in H.
  - match type of H with context [prompt_yes_no ASK_RUN_NOW true ?w0] =>
      destruct (prompt_yes_no ASK_RUN_NOW true w0) as [r2 w2] eqn:E2 end.
    apply prompt_yes_no_spec in E2 as (B1 & B2 & B3 & B4). simpl in B1, B2, B3.
    assert (Hw2 : exists lines, stdout w2 = stdout w ++ HEADER :: lines).
    { rewrite B3, A2. rewrite <- !app_assoc. simpl. eauto. }
    destruct r2 as [[]|e]; cbn [negb] in H; cbv beta iota in H.
    + destruct (prompt_yes_no ASK_DRY_RUN (args_dry_run args) w2)
        as [r3 w3] eqn:E3.
      apply prompt_yes_no_spec in E3 as (C1 & C2 & C3 & C4).
      assert (Hw3 : exists lines, stdout w3 = stdout w ++ HEADER :: lines).
      { destruct Hw2 as [lines Hw2]. rewrite C3, Hw2.
        rewrite <- app_assoc. simpl. eauto. }
      destruct r3 as [b|e]; inversion H; subst;
        apply Hgoal; congruence || exact Hw3.
    + inversion H; subst. apply Hgoal; simpl; try congruence.
      destruct Hw2 as [lines Hw2]. rewrite Hw2.
      rewrite <- app_assoc. simpl. eauto.
    + inversion H; subst. apply Hgoal; congruence || exact Hw2.
  - inversion H; subst. apply Hgoal; simpl; try congruence.
    exists [STEP_TITLE; LINE_STEP_10; LINE_NON_INTERACTIVE].
    rewrite A2. rewrite <- !app_assoc. reflexivity.
Qed.

End EntryPoint.

Lemma is_dir_exists f p : is_dir f p = true -> path_exists f p = true.
Proof. unfold is_dir, path_exists. now destruct (node_at f p) as [[]|]. Qed.

Lemma path_name_joinpath p q x :
  path_name (joinpath p (q ++ [x])) = x.
Proof. unfold path_name, joinpath. now rewrite app_assoc, last_last. Qed.

Section Run.

Context (U : Unicodedata).

Lemma main_run_missing cfg dry_run w :
  is_dir (fs w) (source_dir cfg) = false ->
  main_run U cfg dry_run w =
  (Ok 1, {| fs := fs w; stdin := stdin w;
            stdout := stdout w ++ [LINE_ERROR_SOURCE (source_dir cfg);
                                   LINE_HINT_SOURCE];
            log := log w |}).
Proof.
  intros H. unfold main_run, mbind, M_bind, get_fs. rewrite H.
  rewrite orb_true_r. unfold print, mret, M_ret. simpl.
  now rewrite <- app_assoc.
Qed.

Lemma main_run_empty cfg dry_run w :
  is_dir (fs w) (source_dir cfg) = true ->
  gather_files (fs w) (source_dir cfg) = [] ->
  main_run U cfg dry_run w =
  (Ok 0, {| fs := fs w; stdin := stdin w;
            stdout := stdout w ++ [LINE_WARN_EMPTY (source_dir cfg)];
            log := log w |}).
Proof.
  intros H Hg. unfold main_run, mbind, M_bind, get_fs.
  rewrite H, (is_dir_exists _ _ H), Hg. reflexivity.
Qed.

Lemma main_run_batch cfg dry_run w :
  is_dir (fs w) (source_dir cfg) = true ->
  gather_files (fs w) (source_dir cfg) <> [] ->
  main_run U cfg dry_run w =
  (report ← process_files U (gather_files (fs w) (source_dir cfg)) cfg dry_run;
   write_report report cfg ;;
   (if dry_run then print (LINE_DONE_DRY_RUN (report_path cfg))
    else print (LINE_DONE (output_dir cfg)) ;;
         print (LINE_REPORT (report_path cfg))) ;;
   mret 0) w.
Proof.
  intros H Hg. unfold main_run. rewrite bind_eq. unfold get_fs.
  rewrite H, (is_dir_exists _ _ H). simpl orb. cbv iota zeta.
  now rewrite bool_decide_eq_false_2.
Qed.

Lemma main_run_raises cfg dry_run w e w' :
  is_dir (fs w) (source_dir cfg) = true ->
  gather_files (fs w) (source_dir cfg) <> [] ->
  process_files U (gather_files (fs w) (source_dir cfg)) cfg dry_run w
  = (Raise e, w') ->
  main_run U cfg dry_run w = (Raise e, w').
Proof.
  intros H Hg Hp. rewrite main_run_batch by assumption.
  rewrite bind_eq. now rewrite Hp.
Qed.

Lemma main_run_tail cfg (dry_run : bool) w r w' :
  ((if dry_run then print (LINE_DONE_DRY_RUN (report_path cfg))
    else print (LINE_DONE (output_dir cfg)) ;;
         print (LINE_REPORT (report_path cfg))) ;;
   mret 0) w = (r, w') ->
  fs w' = fs w /\ log w' = log w /\ exists lines, stdout w' = stdout w ++ lines.
Proof.
  destruct dry_run; unfold mbind, M_bind, mret, M_ret, print;
    intros H; inversion H; subst; simpl; repeat split; eauto.
  rewrite <- app_assoc. eauto.
Qed.

(** [main_run] never removes an entry and never replaces a directory; the
    log and the output only grow. *)
Lemma main_run_frame cfg dry_run w r w' :
  main_run U cfg dry_run w = (r, w') ->
  evolves (fun _ => True) (fs w) (fs w') /\
  (exists evs, log w' = log w ++ evs) /\
  (exists lines, stdout w' = stdout w ++ lines).
Proof.
  destruct (is_dir (fs w) (source_dir cfg)) eqn:Hd.
  2:{ rewrite main_run_missing by exact Hd. intros H. inversion H; subst.
      simpl. split; [apply evolves_refl|]. split; [exists []|eauto].
      now rewrite app_nil_r. }
  destruct (decide (gather_files (fs w) (source_dir cfg) = [])) as [Hg|Hg].
  { rewrite main_run_empty by assumption. intros H. inversion H; subst.
    simpl. split; [apply evolves_refl|]. split; [exists []|eauto].
    now rewrite app_nil_r. }
  rewrite main_run_batch by assumption. intros H.
  assert (Hbatch : forall r1 w1,
            process_files U (gather_files (fs w) (source_dir cfg)) cfg dry_run w
            = (r1, w1) ->
            evolves (fun _ => True) (fs w) (fs w1) /\
            (exists evs, log w1 = log w ++ evs) /\ stdout w1 = stdout w).
  { intros r1 w1 H1.
    apply process_files_inv in H1 as [(reports & H1 & _)|(e & H1 & _)];
      apply process_loop_frame in H1
        as (_ & A2 & A3 & _ & evs & A5 & _);
      (split; [eapply evolves_weaken; [|exact A3]; auto|]); eauto. }
  apply bind_inv in H as [(report & w1 & H1 & H2)|(e & H1 & ->)];
    [|destruct (Hbatch _ _ H1) as (B1 & B2 & B3); split; [exact B1|];
      split; [exact B2|]; exists []; now rewrite app_nil_r].
  destruct (Hbatch _ _ H1) as (B1 & [evs1 B2] & B3).
  assert (Hwrite : forall r2 w2, write_report report cfg w1 = (r2, w2) ->
            evolves (fun _ => True) (fs w1) (fs w2) /\
            (exists evs, log w2 = log w1 ++ evs) /\ stdout w2 = stdout w1).
  { intros r2 w2 H3. unfold write_report in H3.
    apply write_text_spec in H3 as (_ & C2 & C3 & C4).
    split; [|eauto].
    destruct C4 as [(_ & _ & Hold & rd & ->)|(e & _ & ->)];
      [now apply evolves_write | apply evolves_refl]. }
  apply bind_inv in H2 as [([] & w2 & H2 & H3)|(e & H2 & ->)].
  - destruct (Hwrite _ _ H2) as (C1 & [evs2 C2] & C3).
    apply main_run_tail in H3 as (D1 & D2 & [lines D3]).
    split; [rewrite D1; eapply evolves_trans; eauto|]. split.
    + exists (evs1 ++ evs2). rewrite D2, C2, B2. now rewrite app_assoc.
    + exists lines. congruence.
  - destruct (Hwrite _ _ H2) as (C1 & [evs2 C2] & C3).
    split; [eapply evolves_trans; eauto|]. split.
    + exists (evs1 ++ evs2). rewrite C2, B2. now rewrite app_assoc.
    + exists []. rewrite app_nil_r. congruence.
Qed.

End Run.

Lemma report_name PROJECT_ROOT args :
  path_name (report_path (config_of_args PROJECT_ROOT args)) = py "report.json".
Proof.
  unfold config_of_args, DEFAULT_CONFIG.
  destruct (args_source args), (args_output args); cbn [report_path].
  - apply (path_name_joinpath _ []).
  - apply (path_name_joinpath _ [py "results"; py "normalized_original"]).
  - apply (path_name_joinpath _ []).
  - apply (path_name_joinpath _ [py "results"; py "normalized_original"]).
Qed.

(** A file that discovery found is never written to the report path. *)
Lemma output_not_report f cfg p :
  In p (gather_files f (source_dir cfg)) ->
  path_name (report_path cfg) = py "report.json" ->
  output_path_of cfg p <> Some (report_path cfg).
Proof.
  intros Hp Hname Hout.
  apply gather_files_members in Hp as (_ & [Hpre Hne] & _ & Hsuf).
  unfold output_path_of in Hout.
  destruct (relative_to p (source_dir cfg)) as [rel|] eqn:E; [|discriminate].
  inversion Hout as [Hrp]. apply relative_to_Some in E. subst p.
  destruct rel as [|x rel] using rev_ind; [now rewrite app_nil_r in Hne|].
  clear IHrel. rewrite <- Hrp in Hname.
  rewrite path_name_joinpath in Hname.
  unfold path_name in Hsuf. rewrite app_assoc, last_last in Hsuf.
  subst x. revert Hsuf. apply (bool_decide_eq_false_1 _). vm_compute.
  reflexivity.
Qed.

Section EntryPointClaims.

Context (U : Unicodedata) (PROJECT_ROOT : Path).

Local Abbreviation cfg_of := (config_of_args PROJECT_ROOT).


(** C8, as amended.  When the first question of an interactive run is
    answered with a no, [main] returns 0 after the cancellation message; no
    file is read or written and every regular file is as it was, but the run
    is not without effect: the output directory and the directory of the
    report, which [ensure_directories] set up before the question, exist
    when it ends. *)
Theorem main_cancelled args w answer rest w1 :
  args_interactive args = true ->
  stdin w = answer :: rest ->
  declines answer ->
  ensure_directories (cfg_of args) w = (Ok tt, w1) ->
  exists w',
    main U PROJECT_ROOT args w = (Ok 0, w') /\
    fs w' = fs w1 /\
    log w' = log w ++ [EvMkdir (output_dir (cfg_of args));
                       EvMkdir (parent (report_path (cfg_of args)))] /\
    stdin w' = rest /\
    stdout w' = stdout w ++ [HEADER; STEP_TITLE; LINE_STEP_10;
                             LINE_PROMPT ASK_RUN_NOW true; LINE_CANCELLED] /\
    is_dir (fs w') (output_dir (cfg_of args)) = true /\
    is_dir (fs w') (parent (report_path (cfg_of args))) = true /\
    (forall k, regular (fs w' !! k) -> fs w' !! k = fs w !! k).
Proof.
  intros Hi Hin Hno He. assert (He' := He).
  apply ensure_directories_spec in He' as (A1 & A2 & A3 & _ & A5).
  destruct (A5 eq_refl) as (A6 & A7 & A8).
  apply declines_answer in Hno.
  unfold main, mbind, M_bind, mret, M_ret, print. cbv zeta.
  rewrite He, Hi. cbv beta iota.
  unfold prompt_yes_no at 1. unfold mbind, M_bind, input. cbn [stdin].
  rewrite A1, Hin. cbv beta iota zeta.
  assert (Hv : (if bool_decide (lower (strip answer) = [])
                then mret (M := M) true
                else mret (bool_decide (lower (strip answer) = py "y")
                           || bool_decide (lower (strip answer) = py "yes")))
               = mret (M := M) false).
  { unfold answer_value in Hno. cbv zeta in Hno.
    repeat case_bool_decide; simpl in *; congruence. }
  rewrite Hv. unfold mret, M_ret. cbn [negb]. cbv beta iota.
  eexists. split; [reflexivity|]. cbn [fs log stdin stdout].
  split; [reflexivity|]. split; [exact A6|]. split; [reflexivity|].
  split; [rewrite A2; now rewrite <- !app_assoc|].
  split; [exact A7|]. split; [exact A8|].
  intros k. now apply evolves_nowhere_regular.
Qed.

(** C9.  When the file [p] cannot be read after the files [pre] went
    through, [process_files] ends with the error of that read in the world
    that the failed read left, so that nothing was done for the files
    [post]; and when this happens in a run of [main], [main] ends with the
    same error in the same world: the log of the run holds no write to the
    report path and no read of a file other than [pre] and [p]. *)
Theorem read_failure_aborts cfg dry_run pre p post w0 acc w1 e w2 :
  process_loop U pre cfg dry_run [] w0 = (Ok acc, w1) ->
  read_text p w1 = (Raise e, w2) ->
  process_files U (pre ++ p :: post) cfg dry_run w0 = (Raise e, w2) /\
  fs w2 = fs w1 /\ log w2 = log w1 ++ [EvRead p] /\
  (forall args w,
     cfg = cfg_of args ->
     main_prologue PROJECT_ROOT args w = (Ok (Some dry_run), w0) ->
     is_dir (fs w0) (source_dir cfg) = true ->
     gather_files (fs w0) (source_dir cfg) = pre ++ p :: post ->
     main U PROJECT_ROOT args w = (Raise e, w2) /\
     exists evs,
       log w2 = log w ++ evs /\
       (forall s, ~ In (EvWrite (report_path cfg) s) evs) /\
       (forall q, In (EvRead q) evs -> In q (pre ++ [p]))).
Proof.
  intros Hpre Hread.
  destruct (process_files_read_failure U pre p post cfg dry_run w0 acc w1 e w2
              Hpre Hread) as (B1 & B2 & B3).
  split; [exact B1|]. split; [exact B2|]. split; [exact B3|].
  intros args w -> Hp Hd Hg. split.
  - rewrite main_eq, Hp. apply main_run_raises; [exact Hd| |].
    + rewrite Hg. now destruct pre.
    + rewrite Hg. exact B1.
  - apply main_prologue_spec in Hp as (_ & _ & _ & A4).
    destruct (A4 _ eq_refl) as (A5 & _).
    apply process_loop_frame in Hpre
      as (_ & _ & _ & _ & evs1 & C1 & _ & C2 & C3).
    exists ([EvMkdir (output_dir (cfg_of args));
             EvMkdir (parent (report_path (cfg_of args)))]
            ++ evs1 ++ [EvRead p]).
    split; [rewrite B3, C1, A5; now rewrite <- !app_assoc|]. split.
    + intros s Hin. apply in_app_or in Hin as [Hin|Hin].
      { destruct Hin as [Hin|[Hin|[]]]; discriminate. }
      apply in_app_or in Hin as [Hin|Hin].
      * destruct (C3 _ _ Hin) as [_ (q & Hq & Hout)].
        eapply (output_not_report (fs w0) (cfg_of args) q);
          [|apply report_name|exact Hout].
        rewrite Hg. apply in_or_app. now left.
      * destruct Hin as [Hin|[]]. discriminate.
    + intros q Hin. apply in_app_or in Hin as [Hin|Hin].
      { destruct Hin as [Hin|[Hin|[]]]; discriminate. }
      apply in_app_or in Hin as [Hin|Hin].
      * apply in_or_app. left. now apply C2.
      * destruct Hin as [Hin|[]]. inversion Hin. apply in_or_app. right. now left.
Qed.

(** C10.  The first thing [main] does, on every invocation, is to call
    [ensure_directories]: the [mkdir] of the output directory heads the log
    of the run, the console has not been used when the call returns, and an
    error of the call ends the run at once.  When the call succeeds the
    [mkdir] of the directory of the report follows, the banner is the first
    output and the two directories exist when the run ends, however it ends;
    in particular they exist at the end of every run that returns an exit
    status, whichever it is. *)
Theorem main_ensures_directories args w r w' :
  main U PROJECT_ROOT args w = (r, w') ->
  (exists evs, log w' = log w ++ EvMkdir (output_dir (cfg_of args)) :: evs) /\
  (forall r1 w1, ensure_directories (cfg_of args) w = (r1, w1) ->
     stdin w1 = stdin w /\ stdout w1 = stdout w /\
     match r1 with
     | Raise e => r = Raise e /\ w' = w1
     | Ok _ =>
         (exists evs,
            log w' = log w ++ [EvMkdir (output_dir (cfg_of args));
                               EvMkdir (parent (report_path (cfg_of args)))]
                     ++ evs) /\
         (exists lines, stdout w' = stdout w ++ HEADER :: lines) /\
         evolves (fun _ => True) (fs w1) (fs w') /\
         is_dir (fs w') (output_dir (cfg_of args)) = true /\
         is_dir (fs w') (parent (report_path (cfg_of args))) = true
     end) /\
  (forall code, r = Ok code ->
     is_dir (fs w') (output_dir (cfg_of args)) = true /\
     is_dir (fs w') (parent (report_path (cfg_of args))) = true).
Proof.
  intros H. rewrite main_eq in H.
  destruct (main_prologue PROJECT_ROOT args w) as [r0 w0] eqn:Hp.
  apply main_prologue_spec in Hp as (A1 & [evs0 A2] & A3 & A4).
  assert (Hrun : forall dry_run, main_run U (cfg_of args) dry_run w0 = (r, w') ->
            evolves (fun _ => True) (fs w0) (fs w') /\
            (exists evs, log w' = log w0 ++ evs) /\
            (exists lines, stdout w' = stdout w0 ++ lines))
    by (intros dry_run; apply main_run_frame).
  assert (Hend : evolves (fun _ => True) (fs w0) (fs w') /\
                 (exists evs, log w' = log w0 ++ evs) /\
                 (exists lines, stdout w' = stdout w0 ++ lines) /\
                 (forall code, r = Ok code -> exists o, r0 = Ok o) /\
                 (forall e, r0 = Raise e -> r = Raise e /\ w' = w0)).
  { destruct r0 as [[dry_run|]|e].
    - destruct (Hrun _ H) as (B1 & B2 & B3). repeat split; eauto; discriminate.
    - inversion H; subst. split; [apply evolves_refl|].
      split; [exists []; now rewrite app_nil_r|].
      split; [exists []; now rewrite app_nil_r|].
      split; [eauto|discriminate].
    - inversion H; subst. split; [apply evolves_refl|].
      split; [exists []; now rewrite app_nil_r|].
      split; [exists []; now rewrite app_nil_r|].
      split; [discriminate|]. intros e0 He0. inversion He0. auto. }
  destruct Hend as (E1 & [evs E2] & [lines E3] & E4 & E5).
  split; [|split].
  - exists (evs0 ++ evs). rewrite E2, A2. rewrite <- app_assoc. reflexivity.
  - intros r1 w1 He. assert (He' := He).
    apply ensure_directories_spec in He' as (F1 & F2 & _ & _ & F5).
    split; [exact F1|]. split; [exact F2|].
    destruct (A3 _ _ He) as (G1 & G2 & G3).
    destruct r1 as [[]|e].
    + destruct (F5 eq_refl) as (F6 & F7 & F8).
      assert (E1' : evolves (fun _ => True) (fs w1) (fs w'))
        by (rewrite <- G1; exact E1).
      split; [|split; [|split; [exact E1'|]]].
      * exists evs. rewrite E2, G2, F6. now rewrite <- app_assoc.
      * destruct G3 as [lines0 G3]. exists (lines0 ++ lines).
        rewrite E3, G3. rewrite <- app_assoc. reflexivity.
      * split; eapply evolves_dir; eauto.
    + destruct G3 as [-> ->]. destruct (E5 _ eq_refl) as [-> ->]. auto.
  - intros code Hr. destruct (E4 _ Hr) as [o ->].
    destruct (A4 _ eq_refl) as (_ & D1 & D2).
    split; eapply evolves_dir; eauto.
Qed.

End EntryPointClaims.

(** ** Examples, witnesses and counterexamples *)

Example example_paths_eq :
  example_paths
  = [ [py "proj"; py "data"; py "original_txt"; py "b.txt"];
      [py "proj"; py "data"; py "original_txt"; py "sub"; py "a.txt"] ].
Proof. vm_compute. reflexivity. Qed.

Lemma pair_eq {A B} (x : A * B) (a : A) : fst x = a -> x = (a, snd x).
Proof. intros <-. apply surjective_pairing. Qed.

Lemma fs_wf_check (f : gmap Path node) :
  map_Forall (fun p _ => is_dir f (parent p) = true) f -> fs_wf f.
Proof. intros H p [n Hn]. exact (H p n Hn). Qed.

Lemma example_fs_wf : fs_wf example_fs.
Proof.
  apply fs_wf_check. apply (bool_decide_unpack _). vm_compute. exact I.
Qed.


Lemma gather_files_spec_witness :
  In [py "proj"; py "data"; py "original_txt"; py "sub"; py "a.txt"]
    example_paths /\
  (In [py "proj"; py "data"; py "original_txt"; py "c.md"] example_paths
   <-> False).
Proof.
  destruct (gather_files_spec example_fs (source_dir example_config))
    as (_ & H & _).
  specialize (H example_fs_wf). split.
  - apply (proj2 (H _)). split; [|split].
    + vm_compute. eauto.
    + split; [|discriminate]. exists [py "sub"; py "a.txt"]. reflexivity.
    + exists [0x61]. reflexivity.
  - split; [|contradiction]. intros Hin.
    destruct (proj1 (H _) Hin) as (_ & _ & Hs).
    revert Hs. apply (bool_decide_eq_false_1 _). vm_compute. reflexivity.
Defined.

(** C6, counterexample: with the transcript "src/a.txt" beside the
    directory "src/a" that holds "x.txt", [gather_files] returns
    "src/a/x.txt" first, although as a string "src/a.txt" comes first ("."
    sorts before "/"): the list is not sorted by full path. *)
Lemma gather_files_not_by_full_path :
  fs_wf order_fs /\
  gather_files order_fs [py "src"]
  = [ [py "src"; py "a"; py "x.txt"]; [py "src"; py "a.txt"] ] /\
  path_str [py "src"; py "a"; py "x.txt"] = py "src/a/x.txt" /\
  path_str [py "src"; py "a.txt"] = py "src/a.txt" /\
  str_leb (py "src/a.txt") (py "src/a/x.txt") = true /\
  str_leb (py "src/a/x.txt") (py "src/a.txt") = false /\
  ~ sorted_by_full_path (gather_files order_fs [py "src"]).
Proof.
  assert (Hg : gather_files order_fs [py "src"]
               = [ [py "src"; py "a"; py "x.txt"]; [py "src"; py "a.txt"] ])
    by (vm_compute; reflexivity).
  split.
  { apply fs_wf_check. apply (bool_decide_unpack _). vm_compute. exact I. }
  split; [exact Hg|]. repeat (split; [reflexivity|]).
  rewrite Hg. unfold sorted_by_full_path. intros Hs.
  apply StronglySorted_inv in Hs as [_ Hall].
  apply Forall_inv in Hall. vm_compute in Hall. discriminate.
Qed.

(** C4, witness: the dry run over the example project. *)
Lemma report_entries_witness :
  length (files (value_of
                   (process_files unicodedata example_paths example_config
                      true (world_of example_fs []))
                   empty_report))
  = length example_paths.
Proof.
  refine (proj1 (report_entries unicodedata example_paths example_config true
                   (world_of example_fs []) _
                   (snd (process_files unicodedata example_paths example_config
                           true (world_of example_fs []))) _)).
  apply pair_eq. vm_compute. reflexivity.
Defined.

(** C5, counterexample: with the output directory set to the source
    directory the run that is not a dry run overwrites its input file. *)
Lemma process_files_overwrites_input :
  let p := [py "d"; py "a.txt"] in
  let run := process_files unicodedata [p] in_place_config false
               (world_of in_place_fs []) in
  (exists report, fst run = Ok report) /\
  in_place_fs !! p = Some (File true true (Text [0x3000])) /\
  fs (snd run) !! p = Some (File true true (Text [0x20])).
Proof.
  cbv zeta. split; [eexists; vm_compute; reflexivity|].
  split; vm_compute; reflexivity.
Qed.

(** C5, witness: the run over the example project leaves its two inputs
    alone. *)
Lemma process_files_effects_witness :
  fs (snd (process_files unicodedata example_paths example_config false
             (world_of example_fs [])))
    !! [py "proj"; py "data"; py "original_txt"; py "b.txt"]
  = example_fs !! [py "proj"; py "data"; py "original_txt"; py "b.txt"]
  /\
  fs (snd (process_files unicodedata example_paths example_config false
             (world_of example_fs [])))
    !! [py "proj"; py "data"; py "original_txt"; py "sub"; py "a.txt"]
  = example_fs !! [py "proj"; py "data"; py "original_txt"; py "sub"; py "a.txt"].
Proof.
  pose proof (process_files_effects unicodedata example_paths example_config
                false (world_of example_fs [])
                (fst (process_files unicodedata example_paths example_config
                        false (world_of example_fs [])))
                (snd (process_files unicodedata example_paths example_config
                        false (world_of example_fs [])))) as H.
  destruct H as (_ & _ & _ & _ & _ & H); [apply surjective_pairing|].
  destruct (H eq_refl
              (value_of (process_files unicodedata example_paths example_config
                           false (world_of example_fs [])) empty_report))
    as [_ Hin]; [vm_compute; reflexivity|].
  assert (Hna : no_alias example_config example_paths).
  { intros p q Hp Hq.
    rewrite example_paths_eq in Hp, Hq. simpl in Hp, Hq.
    destruct Hp as [<-|[<-|[]]]; destruct Hq as [<-|[<-|[]]];
      vm_compute; discriminate. }
  split; apply (Hin Hna); rewrite example_paths_eq; simpl; auto.
Defined.



(** C8, counterexample: the cancelled run has created the output
    directory. *)
Lemma main_cancelled_creates_directories :
  let args := example_args false true in
  let w := world_of ∅ [py "n"] in
  let run := main unicodedata EXAMPLE_ROOT args w in
  fst run = Ok 0 /\
  is_dir (fs w) (output_dir (config_of_args EXAMPLE_ROOT args)) = false /\
  is_dir (fs (snd run)) (output_dir (config_of_args EXAMPLE_ROOT args)) = true /\
  fs (snd run) <> fs w.
Proof.
  cbv zeta. split; [vm_compute; reflexivity|].
  split; [vm_compute; reflexivity|]. split; [vm_compute; reflexivity|].
  intros Heq.
  assert (H : is_dir (fs (snd (main unicodedata EXAMPLE_ROOT
                                 (example_args false true)
                                 (world_of ∅ [py "n"]))))
                (output_dir (config_of_args EXAMPLE_ROOT
                               (example_args false true))) = true)
    by (vm_compute; reflexivity).
  rewrite Heq in H. vm_compute in H. discriminate.
Qed.

(** C8, witness: the answer " No " cancels the run over the example
    project. *)
Lemma main_cancelled_witness :
  exists w', main unicodedata EXAMPLE_ROOT (example_args false true)
               (world_of example_fs [py " No "]) = (Ok 0, w')
             /\ stdin w' = [].
Proof.
  destruct (main_cancelled unicodedata EXAMPLE_ROOT (example_args false true)
              (world_of example_fs [py " No "]) (py " No ") []
              (snd (ensure_directories
                      (config_of_args EXAMPLE_ROOT (example_args false true))
                      (world_of example_fs [py " No "]))))
    as (w' & H1 & _ & _ & H2 & _).
  - reflexivity.
  - reflexivity.
  - unfold declines. repeat split; vm_compute; discriminate.
  - apply pair_eq. vm_compute. reflexivity.
  - exists w'. auto.
Defined.

(** C9, witness: the second transcript of the project is not valid text;
    the first one is processed, the run ends with the decoding error and the
    report is not written. *)
Lemma read_failure_aborts_witness :
  let b := [py "proj"; py "data"; py "original_txt"; py "b.txt"] in
  let a := [py "proj"; py "data"; py "original_txt"; py "sub"; py "a.txt"] in
  fst (process_files unicodedata [b; a] example_config false
         (world_of broken_fs []))
  = Raise UnicodeDecodeError.
Proof.
  cbv zeta.
  pose (w0 := world_of broken_fs []).
  pose (b := [py "proj"; py "data"; py "original_txt"; py "b.txt"]).
  pose (a := [py "proj"; py "data"; py "original_txt"; py "sub"; py "a.txt"]).
  pose (pre := process_loop unicodedata [b] example_config false [] w0).
  destruct (read_failure_aborts unicodedata EXAMPLE_ROOT example_config false
              [b] a [] w0 (value_of pre []) (snd pre) UnicodeDecodeError
              (snd (read_text a (snd pre)))) as (H & _).
  - apply pair_eq. vm_compute. reflexivity.
  - apply pair_eq. vm_compute. reflexivity.
  - change ([b] ++ [a]) with [b; a] in H. fold w0. fold b. fold a.
    now rewrite H.
Defined.

(** C10, witness: a dry run over the example project returns 0 and the two
    directories exist when it ends. *)
Lemma main_ensures_directories_witness :
  let run := main unicodedata EXAMPLE_ROOT (example_args true false)
               (world_of example_fs []) in
  fst run = Ok 0 /\
  is_dir (fs (snd run)) (output_dir example_config) = true /\
  is_dir (fs (snd run)) (parent (report_path example_config)) = true.
Proof.
  cbv zeta. split; [vm_compute; reflexivity|].
  destruct (main_ensures_directories unicodedata EXAMPLE_ROOT
              (example_args true false) (world_of example_fs [])
              (fst (main unicodedata EXAMPLE_ROOT (example_args true false)
                      (world_of example_fs [])))
              (snd (main unicodedata EXAMPLE_ROOT (example_args true false)
                      (world_of example_fs []))))
    as (_ & _ & H); [apply surjective_pairing|].
  apply (H 0). vm_compute. reflexivity.
Defined.

(* ===================================================================== *)
(** * Part III: further properties of the code                            *)
(* ===================================================================== *)

(** ** The text normaliser, further *)

Section NormaliserFurther.

Context (U : Unicodedata).

(** Every entry of the table is one character long. *)
Lemma translate_char_single ch :
  exists r, translate_char COMPATIBILITY_TRANSLATION ch = [r].
Proof.
  unfold translate_char.
  destruct (COMPATIBILITY_TRANSLATION !! ch) as [r|] eqn:E; [|eauto].
  apply table_lookup_Some in E. simpl in E.
  repeat (destruct E as [E|E]; [inversion E; subst; eauto|]).
  contradiction.
Qed.

Lemma translate_length s :
  length (translate COMPATIBILITY_TRANSLATION s) = length s.
Proof.
  induction s as [|c s IH]; [reflexivity|].
  unfold translate in *. simpl.
  destruct (translate_char_single c) as [r ->]. simpl. now f_equal.
Qed.

Lemma clean_all s :
  (forall c, In c s -> _is_variation_selector U c = false) -> clean U s = s.
Proof.
  induction s as [|c s IH]; intros H; [reflexivity|].
  unfold clean in *. simpl. rewrite (H c) by now left. simpl.
  f_equal. apply IH. intros x Hx. apply H. now right.
Qed.

Lemma selector_false ch :
  ~ has_selector_name U ch <-> _is_variation_selector U ch = false.
Proof.
  rewrite <- is_variation_selector_spec.
  destruct (_is_variation_selector U ch); intuition congruence.
Qed.

(** X1. The substitution is one character for one character, so that the
    normalised text is as long as the NFKC form of the input less the
    variation selectors that were removed from it. *)
Theorem normalise_text_length (T : str) :
  length (substituted U T) = length (normalize_NFKC U T) /\
  (length (normalise_text U T)
   + length (List.filter (_is_variation_selector U) (substituted U T))
   = length (normalize_NFKC U T))%nat /\
  (length (normalise_text U T) <= length (normalize_NFKC U T))%nat.
Proof.
  assert (H1 : length (substituted U T) = length (normalize_NFKC U T))
    by apply translate_length.
  assert (H2 : (length (normalise_text U T)
                + length (List.filter (_is_variation_selector U) (substituted U T))
                = length (substituted U T))%nat).
  { rewrite normalise_text_unfold. unfold clean.
    generalize (substituted U T). intros s.
    induction s as [|c s IH]; [reflexivity|]. simpl.
    destruct (_is_variation_selector U c); simpl; lia. }
  split; [exact H1|]. split; lia.
Qed.

(** X2. A text in NFKC form is returned as it is exactly when it holds no
    source character of the table and no variation selector. *)
Theorem normalise_text_fixed (T : str) :
  normalize_NFKC U T = T ->
  (normalise_text U T = T <->
   forall c, In c T -> ~ is_source c /\ ~ has_selector_name U c).
Proof.
  intros Hn. split.
  - intros Hfix c Hc. rewrite <- Hfix in Hc. split.
    + eapply normalise_text_no_source; eauto.
    + rewrite normalise_text_unfold in Hc. apply clean_In in Hc as [_ Hc].
      now apply selector_false.
  - intros H. rewrite normalise_text_unfold. unfold substituted. rewrite Hn.
    rewrite translate_fixed by (intros x Hx; now apply H).
    apply clean_all. intros c Hc. apply selector_false. now apply H.
Qed.

End NormaliserFurther.

Lemma normalise_text_fixed_witness :
  normalise_text unicodedata [0x61; 0x62] = [0x61; 0x62].
Proof.
  apply (proj2 (normalise_text_fixed unicodedata [0x61; 0x62] eq_refl)).
  intros c Hc. split.
  - intros Hs. revert Hc. revert Hs. unfold is_source. simpl.
    intuition (subst; discriminate).
  - intros Hs. apply is_variation_selector_spec in Hs.
    destruct Hc as [<-|[<-|[]]]; vm_compute in Hs; discriminate.
Defined.

(** ** Directory set-up, further *)

Lemma creates_dirs_refl D f : creates_dirs D f f.
Proof. intros k. now left. Qed.

Lemma creates_dirs_weaken (D E : Path -> Prop) f f' :
  (forall k, D k -> E k) -> creates_dirs D f f' -> creates_dirs E f f'.
Proof. intros HDE H k. destruct (H k) as [A|(A1 & A2 & A3)]; auto. Qed.

Lemma creates_dirs_trans D f1 f2 f3 :
  creates_dirs D f1 f2 -> creates_dirs D f2 f3 -> creates_dirs D f1 f3.
Proof.
  intros H12 H23 k.
  destruct (H12 k) as [A|(A1 & A2 & A3)]; destruct (H23 k) as [B|(B1 & B2 & B3)].
  - left. congruence.
  - right. rewrite <- A. auto.
  - right. rewrite B. auto.
  - congruence.
Qed.

Lemma creates_dirs_insert (D : Path -> Prop) (f : gmap Path node) (p : Path) :
  D p -> f !! p = None -> creates_dirs D f (<[p := Dir]> f).
Proof.
  intros HD Hp k. destruct (decide (p = k)) as [->|Hne].
  - right. rewrite lookup_insert_eq. auto.
  - left. now rewrite lookup_insert_ne.
Qed.

Lemma creates_dirs_evolves D f f' : creates_dirs D f f' -> evolves nowhere f f'.
Proof. intros H k. destruct (H k) as [A|(A1 & A2 & A3)]; auto. Qed.

Lemma mkdir_except_OSError_inv p e w r w' :
  mkdir_except_OSError p e w = (r, w') ->
  w' = w /\ (r = Ok tt /\ is_dir (fs w) p = true
             \/ r = Raise e /\ is_dir (fs w) p = false).
Proof.
  unfold mkdir_except_OSError. munfold.
  destruct (is_dir (fs w) p) eqn:E; intros H; inversion H; subst; auto.
Qed.

Lemma mkdir_exist_ok_creates p w r w' :
  mkdir_exist_ok p w = (r, w') -> creates_dirs (eq p) (fs w) (fs w').
Proof.
  unfold mkdir_exist_ok. munfold.
  destruct (os_mkdir p w) as [r1 w1] eqn:E1.
  apply os_mkdir_spec in E1 as [(-> & Hp & Hne & ->)|(e & -> & ->)].
  - intros H; inversion H; subst. simpl. now apply creates_dirs_insert.
  - destruct e;
      try (intros H; apply mkdir_except_OSError_inv in H as [-> _];
           apply creates_dirs_refl).
    intros H; inversion H; subst. apply creates_dirs_refl.
Qed.

(** [mkdir(parents=True)] creates directories on the way to its target
    only. *)
Lemma mkdir_parents_rev_creates rp : forall w r w',
  mkdir_parents_rev rp w = (r, w') ->
  creates_dirs (fun k => k `prefix_of` rev rp) (fs w) (fs w').
Proof.
  induction rp as [|x rp IH]; intros w r w'; rewrite mkdir_parents_rev_unfold;
    unfold try_except.
  - destruct (os_mkdir (rev []) w) as [r1 w1] eqn:E1.
    apply os_mkdir_spec in E1 as [(-> & Hp & Hne & ->)|(e & -> & ->)].
    + now simpl in Hne.
    + destruct e;
        try (intros H; apply mkdir_except_OSError_inv in H as [-> _];
             apply creates_dirs_refl).
      unfold raise. intros H; inversion H; subst. apply creates_dirs_refl.
  - destruct (os_mkdir (rev (x :: rp)) w) as [r1 w1] eqn:E1.
    apply os_mkdir_spec in E1 as [(-> & Hp & Hne & ->)|(e & -> & ->)].
    + intros H; inversion H; subst. simpl fs.
      now apply creates_dirs_insert.
    + destruct e;
        try (intros H; apply mkdir_except_OSError_inv in H as [-> _];
             apply creates_dirs_refl).
      unfold mbind, M_bind.
      destruct (mkdir_parents_rev rp w) as [r1 w1] eqn:E1.
      apply IH in E1.
      assert (E1' : creates_dirs (fun k => k `prefix_of` rev (x :: rp))
                      (fs w) (fs w1)).
      { eapply creates_dirs_weaken; [|exact E1]. intros k Hk. simpl.
        now apply prefix_app_r. }
      destruct r1 as [[]|e].
      * intros E2. apply mkdir_exist_ok_creates in E2.
        eapply creates_dirs_trans; [exact E1'|].
        eapply creates_dirs_weaken; [|exact E2]. intros k <-. reflexivity.
      * intros H; inversion H; subst. exact E1'.
Qed.

Lemma mkdir_parents_exist_ok_creates p w r w' :
  mkdir_parents_exist_ok p w = (r, w') ->
  creates_dirs (fun k => k `prefix_of` p) (fs w) (fs w').
Proof.
  unfold mkdir_parents_exist_ok. munfold. intros H.
  apply mkdir_parents_rev_creates in H. simpl in H.
  now rewrite rev_involutive in H.
Qed.

Lemma mkdir_parents_rev_existing rp w :
  is_dir (fs w) (rev rp) = true -> mkdir_parents_rev rp w = (Ok tt, w).
Proof.
  intros Hd. rewrite mkdir_parents_rev_unfold.
  unfold try_except, os_mkdir. munfold.
  unfold is_dir in Hd.
  destruct (node_at (fs w) (rev rp)) as [[]|] eqn:E; try discriminate.
  unfold mkdir_except_OSError. munfold. unfold is_dir. now rewrite E.
Qed.

Lemma mkdir_parents_rev_occupied rp w n :
  node_at (fs w) (rev rp) = Some n -> n <> Dir ->
  mkdir_parents_rev rp w = (Raise FileExistsError, w).
Proof.
  intros Hn Hd. rewrite mkdir_parents_rev_unfold.
  unfold try_except, os_mkdir. munfold. rewrite Hn.
  unfold mkdir_except_OSError. munfold. unfold is_dir. rewrite Hn.
  destruct n; try reflexivity. contradiction.
Qed.

(** On a directory that exists [mkdir(parents=True, exist_ok=True)] does
    nothing. *)
Lemma mkdir_parents_exist_ok_existing p w :
  is_dir (fs w) p = true ->
  mkdir_parents_exist_ok p w =
  (Ok tt, {| fs := fs w; stdin := stdin w; stdout := stdout w;
             log := log w ++ [EvMkdir p] |}).
Proof.
  intros Hd. unfold mkdir_parents_exist_ok. rewrite bind_eq.
  unfold log_event. apply mkdir_parents_rev_existing.
  now rewrite rev_involutive.
Qed.

(** On a path that holds something other than a directory it fails with
    [FileExistsError] and changes nothing. *)
Lemma mkdir_parents_exist_ok_occupied p w n :
  node_at (fs w) p = Some n -> n <> Dir ->
  mkdir_parents_exist_ok p w =
  (Raise FileExistsError,
   {| fs := fs w; stdin := stdin w; stdout := stdout w;
      log := log w ++ [EvMkdir p] |}).
Proof.
  intros Hn Hd. unfold mkdir_parents_exist_ok. rewrite bind_eq.
  unfold log_event. apply (mkdir_parents_rev_occupied _ _ n); [|exact Hd].
  now rewrite rev_involutive.
Qed.

Lemma ensure_directories_dirs cfg w r w' :
  ensure_directories cfg w = (r, w') ->
  creates_dirs (fun k => k `prefix_of` output_dir cfg
                         \/ k `prefix_of` parent (report_path cfg))
    (fs w) (fs w').
Proof.
  unfold ensure_directories. rewrite bind_eq.
  destruct (mkdir_parents_exist_ok (output_dir cfg) w) as [r1 w1] eqn:E1.
  apply mkdir_parents_exist_ok_creates in E1.
  assert (E1' : creates_dirs (fun k => k `prefix_of` output_dir cfg
                                \/ k `prefix_of` parent (report_path cfg))
                  (fs w) (fs w1))
    by (eapply creates_dirs_weaken; [|exact E1]; auto).
  destruct r1 as [[]|e]; [|intros H; inversion H; subst; exact E1'].
  intros E2. apply mkdir_parents_exist_ok_creates in E2.
  eapply creates_dirs_trans; [exact E1'|].
  eapply creates_dirs_weaken; [|exact E2]; auto.
Qed.

(** X3. [ensure_directories] creates nothing but directories, each of them the
    output directory, the directory of the report or a directory above one of
    the two; the source directory is touched only when it is one of these. *)
Theorem ensure_directories_creates cfg w :
  let w' := snd (ensure_directories cfg w) in
  creates_dirs (fun k => k `prefix_of` output_dir cfg
                         \/ k `prefix_of` parent (report_path cfg))
    (fs w) (fs w') /\
  (~ source_dir cfg `prefix_of` output_dir cfg ->
   ~ source_dir cfg `prefix_of` parent (report_path cfg) ->
   fs w' !! source_dir cfg = fs w !! source_dir cfg).
Proof.
  intros w'.
  assert (H : creates_dirs (fun k => k `prefix_of` output_dir cfg
                                     \/ k `prefix_of` parent (report_path cfg))
                (fs w) (fs w')).
  { subst w'. destruct (ensure_directories cfg w) as [r w1] eqn:E.
    now apply ensure_directories_dirs in E. }
  split; [exact H|].
  intros H1 H2. destruct (H (source_dir cfg)) as [A|([A|A] & _)];
    [exact A | contradiction | contradiction].
Qed.

(** X4. A second call of [ensure_directories] finds the directories that the
    first one set up: it succeeds and leaves the filesystem as it is. *)
Theorem ensure_directories_idempotent cfg w w1 :
  ensure_directories cfg w = (Ok tt, w1) ->
  ensure_directories cfg w1 =
  (Ok tt, {| fs := fs w1; stdin := stdin w1; stdout := stdout w1;
             log := log w1 ++ [EvMkdir (output_dir cfg);
                               EvMkdir (parent (report_path cfg))] |}).
Proof.
  intros H. apply ensure_directories_spec in H as (_ & _ & _ & _ & H).
  destruct (H eq_refl) as (_ & H1 & H2).
  unfold ensure_directories. rewrite bind_eq.
  rewrite mkdir_parents_exist_ok_existing by exact H1.
  rewrite mkdir_parents_exist_ok_existing by exact H2.
  simpl. now rewrite <- app_assoc.
Qed.

Lemma ensure_directories_idempotent_witness :
  fst (ensure_directories example_config
         (snd (ensure_directories example_config (world_of example_fs []))))
  = Ok tt /\
  fs (snd (ensure_directories example_config
             (snd (ensure_directories example_config (world_of example_fs [])))))
  = fs (snd (ensure_directories example_config (world_of example_fs []))).
Proof.
  assert (H : ensure_directories example_config (world_of example_fs [])
              = (Ok tt, snd (ensure_directories example_config
                               (world_of example_fs []))))
    by (apply pair_eq; vm_compute; reflexivity).
  pose proof (ensure_directories_idempotent example_config
                (world_of example_fs []) _ H) as E.
  split; [exact (f_equal fst E) | exact (f_equal (fun x => fs (snd x)) E)].
Defined.

(** ** The batch, further *)

Lemma read_text_raises p w e w' :
  read_text p w = (Raise e, w') -> raised_by_io e.
Proof.
  unfold read_text. munfold. simpl.
  destruct (node_at (fs w) p) as [[[] wr [s|]| |]|];
    intros H; inversion H; exact I.
Qed.

Lemma write_text_raises p s w e w' :
  write_text p s w = (Raise e, w') -> raised_by_io e.
Proof.
  unfold write_text. munfold. simpl.
  destruct (node_at (fs w) p) as [[rd [] d| |]|];
    try (intros H; inversion H; exact I).
  destruct (node_at (fs w) (parent p)) as [[]|];
    intros H; inversion H; exact I.
Qed.

Lemma os_mkdir_raises p w e w' :
  os_mkdir p w = (Raise e, w') -> raised_by_io e.
Proof.
  unfold os_mkdir. munfold.
  destruct (node_at (fs w) p); [intros H; inversion H; exact I|].
  destruct (node_at (fs w) (parent p)) as [[]|];
    intros H; inversion H; exact I.
Qed.

Lemma mkdir_except_OSError_raises p e0 w e w' :
  mkdir_except_OSError p e0 w = (Raise e, w') -> e = e0.
Proof.
  unfold mkdir_except_OSError. munfold.
  destruct (is_dir (fs w) p); intros H; now inversion H.
Qed.

Lemma mkdir_exist_ok_raises p w e w' :
  mkdir_exist_ok p w = (Raise e, w') -> raised_by_io e.
Proof.
  unfold mkdir_exist_ok, try_except.
  destruct (os_mkdir p w) as [[[]|e0] w0] eqn:E; [discriminate|].
  apply os_mkdir_raises in E.
  destruct e0; try contradiction;
    try (intros H; apply mkdir_except_OSError_raises in H; subst; exact I).
  unfold raise. intros H; inversion H; exact I.
Qed.

Lemma mkdir_parents_rev_raises rp : forall w e w',
  mkdir_parents_rev rp w = (Raise e, w') -> raised_by_io e.
Proof.
  induction rp as [|x rp IH]; intros w e w'; rewrite mkdir_parents_rev_unfold;
    unfold try_except;
    destruct (os_mkdir _ w) as [[[]|e0] w0] eqn:E; try discriminate;
    apply os_mkdir_raises in E;
    destruct e0; try contradiction;
    try (intros H; apply mkdir_except_OSError_raises in H; subst; exact I).
  - unfold raise. intros H; inversion H; exact I.
  - intros H. apply bind_inv in H as [([] & w1 & H1 & H2)|(e1 & H1 & H2)].
    + now apply mkdir_exist_ok_raises in H2.
    + inversion H2; subst. now apply IH in H1.
Qed.

Lemma mkdir_parents_exist_ok_raises p w e w' :
  mkdir_parents_exist_ok p w = (Raise e, w') -> raised_by_io e.
Proof.
  unfold mkdir_parents_exist_ok. rewrite bind_eq. unfold log_event.
  apply mkdir_parents_rev_raises.
Qed.

Lemma relative_to_prefix (p base : Path) :
  base `prefix_of` p <-> exists rel, relative_to p base = Some rel.
Proof.
  split.
  - intros [rel ->]. exists rel. apply relative_to_app.
  - intros [rel H]. apply relative_to_Some in H. subst. now apply prefix_app_r.
Qed.

Section BatchFurther.

Context (U : Unicodedata).

(** A turn over a readable file in a dry run. *)
Lemma process_file_dry p cfg acc w wr content rel :
  node_at (fs w) p = Some (File true wr (Text content)) ->
  relative_to p (source_dir cfg) = Some rel ->
  process_file U p cfg true acc w =
  (Ok (acc ++ [expected_report U content rel]),
   {| fs := fs w; stdin := stdin w; stdout := stdout w;
      log := log w ++ [EvRead p] |}).
Proof.
  intros Hn Hr. unfold process_file, read_text, relative_to_or_raise.
  munfold. cbn [fs]. rewrite Hn. cbv zeta. rewrite Hr. reflexivity.
Qed.

(** A turn over a readable file that is not below the source directory:
    the file is read and the turn ends there. *)
Lemma process_file_outside p cfg dry_run acc w wr content :
  node_at (fs w) p = Some (File true wr (Text content)) ->
  relative_to p (source_dir cfg) = None ->
  process_file U p cfg dry_run acc w =
  (Raise ValueError,
   {| fs := fs w; stdin := stdin w; stdout := stdout w;
      log := log w ++ [EvRead p] |}).
Proof.
  intros Hn Hr. unfold process_file, read_text, relative_to_or_raise.
  munfold. cbn [fs]. rewrite Hn. cbv zeta. rewrite Hr. reflexivity.
Qed.

(** A turn that fails has written no file, and fails with the error of a
    filesystem call unless the file is not below the source directory. *)
Lemma process_file_raises p cfg dry_run acc w e w' :
  process_file U p cfg dry_run acc w = (Raise e, w') ->
  evolves nowhere (fs w) (fs w') /\
  (raised_by_io e \/ e = ValueError /\ relative_to p (source_dir cfg) = None).
Proof.
  intros H. unfold process_file in H.
  apply bind_inv in H as [(content & w1 & H1 & H)|(e1 & H1 & He)].
  2:{ inversion He; subst e1. assert (H1' := H1).
      apply read_text_spec in H1 as (A1 & _). apply read_text_raises in H1'.
      split; [rewrite A1; apply evolves_refl | now left]. }
  apply read_text_spec in H1 as (A1 & _).
  cbv zeta in H.
  apply bind_inv in H as [(rel & w1' & H2 & H)|(e1 & H2 & He)];
    apply relative_to_or_raise_inv in H2 as [-> [(rel0 & Hr & Heq)|[Hr Heq]]];
    try discriminate.
  2:{ inversion He; subst. inversion Heq; subst.
      split; [rewrite A1; apply evolves_refl | now right]. }
  inversion Heq; subst rel0; clear Heq.
  apply bind_inv in H as [([] & w2 & H3 & H)|(e1 & H3 & He)].
  { apply ret_inv in H as [H _]. discriminate. }
  inversion He; subst e1; clear He.
  destruct dry_run; simpl in H3.
  { apply ret_inv in H3 as [H3 _]. discriminate. }
  assert (H3' := H3).
  apply (process_file_write _ _ _ rel) in H3 as (_ & _ & C3); [|exact Hr].
  split.
  - rewrite <- A1.
    destruct C3 as [(e1 & He & _ & Hfs)|(_ & f1 & Hf1 & _ & C3)]; [exact Hfs|].
    destruct C3 as [(He & _)|(e1 & _ & ->)]; [discriminate | exact Hf1].
  - left.
    apply bind_inv in H3' as [(rel' & w3 & H4 & H5)|(e1 & H4 & He)];
      apply relative_to_or_raise_inv in H4 as [-> [(rel0 & Hr0 & Heq)|[Hr0 Heq]]];
      try congruence.
    cbv zeta in H5.
    apply bind_inv in H5 as [([] & w4 & H5 & H6)|(e1 & H5 & He)].
    + now apply write_text_raises in H6.
    + inversion He; subst. now apply mkdir_parents_exist_ok_raises in H5.
Qed.

(** A loop that fails went well up to one file, whose turn failed. *)
Lemma process_loop_failure paths : forall cfg dry_run acc w e w',
  process_loop U paths cfg dry_run acc w = (Raise e, w') ->
  exists pre p post acc1 w1,
    paths = pre ++ p :: post /\
    process_loop U pre cfg dry_run acc w = (Ok acc1, w1) /\
    process_file U p cfg dry_run acc1 w1 = (Raise e, w').
Proof.
  induction paths as [|p paths IH]; intros cfg dry_run acc w e w' H.
  - apply ret_inv in H as [H _]. discriminate.
  - rewrite process_loop_cons in H.
    destruct (process_file U p cfg dry_run acc w) as [[acc1|e1] w1] eqn:E.
    + apply IH in H as (pre & q & post & acc2 & w2 & -> & H1 & H2).
      exists (p :: pre), q, post, acc2, w2.
      split; [reflexivity|]. split; [|exact H2].
      now rewrite process_loop_cons, E.
    + inversion H; subst. exists [], p, paths, acc, w.
      split; [reflexivity|]. split; [reflexivity | exact E].
Qed.

(** What [read_text] returns on a file that holds text, and that it
    depends on the filesystem only. *)
Lemma read_text_value p w wr content :
  node_at (fs w) p = Some (File true wr (Text content)) ->
  fst (read_text p w) = Ok content.
Proof.
  intros Hn. destruct (read_text p w) as [r w1] eqn:E.
  apply read_text_spec in E as (_ & _ & _ & _ & E).
  simpl. apply E. eauto.
Qed.

Lemma read_text_same_fs p w1 w2 content :
  fs w1 = fs w2 ->
  fst (read_text p w1) = Ok content -> fst (read_text p w2) = Ok content.
Proof.
  intros Hfs H. destruct (read_text p w1) as [r x] eqn:E.
  apply read_text_spec in E as (_ & _ & _ & _ & E).
  simpl in H. apply E in H as [wr Hn]. rewrite Hfs in Hn.
  now apply read_text_value in Hn.
Qed.

(** The turns of a loop that ends well, one after the other: the texts
    that they read, the calls that they log and the entries that they
    add. *)
Lemma process_loop_turns paths : forall cfg dry_run acc w acc' w',
  process_loop U paths cfg dry_run acc w = (Ok acc', w') ->
  exists contents,
    length contents = length paths /\
    log w' = log w ++ concat (zip_with (turn_events U cfg dry_run) paths contents) /\
    map characters_before acc'
    = map characters_before acc ++ map (fun c => Z.of_nat (length c)) contents /\
    forall i p c, paths !! i = Some p -> contents !! i = Some c ->
      exists acc_i w_i rel,
        process_loop U (take i paths) cfg dry_run acc w = (Ok acc_i, w_i) /\
        fst (read_text p w_i) = Ok c /\
        relative_to p (source_dir cfg) = Some rel /\
        acc' !! (length acc + i)%nat = Some (expected_report U c rel).
Proof.
  induction paths as [|p paths IH]; intros cfg dry_run acc w acc' w' H.
  - apply ret_inv in H as [H ->]. inversion H; subst. exists [].
    simpl. rewrite !app_nil_r. repeat split; auto. discriminate.
  - rewrite process_loop_cons in H.
    destruct (process_file U p cfg dry_run acc w) as [[acc1|e1] w1] eqn:E;
      [|discriminate].
    assert (E' := E).
    apply process_file_Ok in E
      as (content & wr & rel & Hn & Hrel & -> & _ & _ & Hlog).
    assert (Hmore : exists more, acc' = acc ++ [expected_report U content rel] ++ more).
    { rewrite process_loop_acc in H.
      destruct (process_loop U paths cfg dry_run [] w1) as [[more|e] w2];
        [|discriminate].
      inversion H; subst. exists more. now rewrite <- app_assoc. }
    apply IH in H as (contents & Hlen & Hl & Hc & Ht).
    exists (content :: contents). split; [simpl; now rewrite Hlen|].
    split; [|split].
    + rewrite Hl. simpl. unfold turn_events at 1, output_path_of.
      rewrite Hrel. destruct dry_run.
      * destruct Hlog as [_ ->]. now rewrite <- app_assoc.
      * destruct Hlog as [-> _]. now rewrite <- app_assoc.
    + rewrite Hc, map_app. simpl. now rewrite <- app_assoc.
    + intros [|i] q c Hq Hci; simpl in Hq, Hci.
      * inversion Hq; inversion Hci; subst q c. exists acc, w, rel.
        split; [reflexivity|]. split; [now apply read_text_value in Hn|].
        split; [exact Hrel|].
        destruct Hmore as [more ->]. rewrite Nat.add_0_r.
        rewrite lookup_app_r by lia. now rewrite Nat.sub_diag.
      * destruct (Ht i q c Hq Hci) as (acc_i & w_i & rel' & G1 & G2 & G3 & G4).
        exists acc_i, w_i, rel'.
        split.
        { change (take (S i) (p :: paths)) with (p :: take i paths).
          now rewrite process_loop_cons, E'. }
        split; [exact G2|]. split; [exact G3|].
        rewrite length_app in G4. simpl in G4.
        replace (length acc + S i)%nat with (length acc + 1 + i)%nat by lia.
        exact G4.
Qed.

End BatchFurther.

Section BatchTheorems.

Context (U : Unicodedata).

Lemma process_loop_raises paths cfg dry_run acc w e w' :
  (forall p, In p paths -> source_dir cfg `prefix_of` p) ->
  process_loop U paths cfg dry_run acc w = (Raise e, w') -> raised_by_io e.
Proof.
  intros Hall H.
  apply process_loop_failure in H as (pre & p & post & acc1 & w1 & -> & _ & H).
  apply process_file_raises in H as [_ [H|[_ H]]]; [exact H|].
  exfalso. destruct (proj1 (relative_to_prefix p (source_dir cfg))) as [rel Hr];
    [|congruence].
  apply Hall. apply in_or_app. right. now left.
Qed.

(** X5. Every path that [gather_files] returns has a path relative to the
    source directory, which is not empty and ends in the name of the file; so
    the [relative_to] calls of a batch over these paths never fail: when such
    a batch fails, it is with the error of a read, a [mkdir] or a write. *)
Theorem gathered_paths_are_relative f cfg dry_run w :
  (forall p, In p (gather_files f (source_dir cfg)) ->
     exists rel, relative_to p (source_dir cfg) = Some rel /\ rel <> [] /\
                 path_name rel = path_name p /\
                 py ".txt" `suffix_of` path_name rel) /\
  (forall e w',
     process_files U (gather_files f (source_dir cfg)) cfg dry_run w
     = (Raise e, w') -> raised_by_io e).
Proof.
  split.
  - intros p Hp. apply gather_files_members in Hp as (_ & [Hpre Hne] & _ & Hs).
    destruct (proj1 (relative_to_prefix _ _) Hpre) as [rel Hr].
    exists rel. split; [exact Hr|].
    apply relative_to_Some in Hr. subst p.
    assert (Hrel : rel <> []) by (intros ->; now rewrite app_nil_r in Hne).
    split; [exact Hrel|].
    assert (Hn : path_name rel = path_name (source_dir cfg ++ rel)).
    { unfold path_name. destruct rel as [|x rel] using rev_ind; [congruence|].
      now rewrite app_assoc, !last_last. }
    split; [exact Hn | now rewrite Hn].
  - intros e w' H.
    apply process_files_inv in H as [(reports & _ & H)|(e0 & H & He)];
      [discriminate|].
    inversion He; subst e0.
    eapply process_loop_raises; [|exact H].
    intros p Hp. now apply gather_files_members in Hp as (_ & [Hpre _] & _).
Qed.

(** X6. A path that is not below the source directory stops the batch: its
    file is read, then the computation of the relative path fails with
    [ValueError], before anything is written for the file; the files after it
    are not touched. *)
Theorem path_outside_source pre p post cfg dry_run w acc w1 wr content :
  process_loop U pre cfg dry_run [] w = (Ok acc, w1) ->
  node_at (fs w1) p = Some (File true wr (Text content)) ->
  ~ source_dir cfg `prefix_of` p ->
  process_files U (pre ++ p :: post) cfg dry_run w =
  (Raise ValueError,
   {| fs := fs w1; stdin := stdin w1; stdout := stdout w1;
      log := log w1 ++ [EvRead p] |}).
Proof.
  intros Hpre Hn Hout.
  assert (Hr : relative_to p (source_dir cfg) = None).
  { destruct (relative_to p (source_dir cfg)) as [rel|] eqn:E; [|reflexivity].
    exfalso. apply Hout. apply relative_to_prefix. eauto. }
  unfold process_files. rewrite bind_eq, process_loop_app, Hpre.
  rewrite process_loop_cons.
  now rewrite (process_file_outside U p cfg dry_run acc w1 wr content Hn Hr).
Qed.

(** The dry run behind a real run. *)
Lemma process_loop_dry_of_real paths : forall cfg acc wr wd acc' wr',
  no_alias cfg paths ->
  (forall q n, In q paths -> n <> Dir ->
     node_at (fs wr) q = Some n -> node_at (fs wd) q = Some n) ->
  process_loop U paths cfg false acc wr = (Ok acc', wr') ->
  process_loop U paths cfg true acc wd =
  (Ok acc', {| fs := fs wd; stdin := stdin wd; stdout := stdout wd;
               log := log wd ++ map EvRead paths |}).
Proof.
  induction paths as [|p paths IH]; intros cfg acc wr wd acc' wr' Hna Hinv H.
  - apply ret_inv in H as [H _]. inversion H; subst. simpl.
    unfold mret, M_ret. rewrite app_nil_r. now destruct wd.
  - rewrite process_loop_cons in H.
    destruct (process_file U p cfg false acc wr) as [[acc1|e] wr1] eqn:E;
      [|discriminate].
    assert (Hfr := E). apply process_file_frame in Hfr as (_ & _ & Hfr & _).
    apply process_file_Ok in E as (content & wx & rel & Hn & Hrel & -> & _).
    rewrite process_loop_cons.
    rewrite (process_file_dry U p cfg acc wd wx content rel);
      [|apply Hinv; [now left | discriminate | exact Hn] | exact Hrel].
    rewrite (IH cfg _ wr1 _ acc' wr'); [| | |exact H].
    + cbn [fs stdin stdout log]. rewrite <- app_assoc. reflexivity.
    + intros a b Ha Hb. apply Hna; now right.
    + intros q n Hq Hd Hq1. cbn [fs]. apply Hinv; [now right | exact Hd|].
      eapply evolves_file_back; [exact Hfr| |exact Hq1|exact Hd].
      intros [_ Hk]. apply (Hna p q); [now left | now right | exact Hk].
Qed.

(** X7. When no output path is itself an input file, the dry run foretells the
    real run: where the real run over a world ends well, the dry run over the
    same world ends well with the same entries, after reading every file and
    changing nothing. *)
Theorem dry_run_predicts_report paths cfg w report w' :
  no_alias cfg paths ->
  process_files U paths cfg false w = (Ok report, w') ->
  process_files U paths cfg true w =
  (Ok {| report_source_dir := report_source_dir report;
         report_output_dir := report_output_dir report;
         report_dry_run := true;
         files := files report |},
   {| fs := fs w; stdin := stdin w; stdout := stdout w;
      log := log w ++ map EvRead paths |}).
Proof.
  intros Hna H.
  apply process_files_inv in H as [(reports & H & Hr)|(e & _ & Hr)];
    [|discriminate].
  inversion Hr; subst report; clear Hr.
  unfold process_files. rewrite bind_eq.
  rewrite (process_loop_dry_of_real paths cfg [] w w reports w' Hna); auto.
Qed.


(** X9. The calls of a batch that ends well are those of its turns, one file
    after the other in the order of the paths: the file is read and, in a real
    run, the directory of its output is set up and the output is written
    before the next file is read. The text of each turn is the one that
    [read_text] returns on the file in the world that the turns before it
    left, which in a dry run is also what it returns in the world in which
    the batch began; the entry of the file in the report is built from that
    text, and its count of characters is the length of that text. *)
Theorem process_files_log paths cfg dry_run w report w' :
  process_files U paths cfg dry_run w = (Ok report, w') ->
  exists contents,
    length contents = length paths /\
    log w' = log w
             ++ concat (zip_with (turn_events U cfg dry_run) paths contents) /\
    (forall i p c, paths !! i = Some p -> contents !! i = Some c ->
       exists acc_i w_i rel,
         process_loop U (take i paths) cfg dry_run [] w = (Ok acc_i, w_i) /\
         fst (read_text p w_i) = Ok c /\
         (dry_run = true -> fst (read_text p w) = Ok c) /\
         relative_to p (source_dir cfg) = Some rel /\
         files report !! i = Some (expected_report U c rel)) /\
    map characters_before (files report)
    = map (fun c => Z.of_nat (length c)) contents /\
    (dry_run = true -> log w' = log w ++ map EvRead paths).
Proof.
  intros H.
  apply process_files_inv in H as [(reports & H & Hr)|(e & _ & Hr)];
    [|discriminate].
  inversion Hr; subst report; clear Hr. cbn [files].
  apply process_loop_turns in H as (contents & Hlen & Hl & Hc & Ht).
  exists contents. split; [exact Hlen|]. split; [exact Hl|].
  split; [|split; [exact Hc|]].
  - intros i p c Hp Hci.
    destruct (Ht i p c Hp Hci) as (acc_i & w_i & rel & G1 & G2 & G3 & G4).
    exists acc_i, w_i, rel. split; [exact G1|]. split; [exact G2|].
    split; [|split; [exact G3 | exact G4]].
    intros ->.
    apply process_loop_frame in G1 as (_ & _ & _ & Hfs & _).
    exact (read_text_same_fs p w_i w c (Hfs eq_refl) G2).
  - intros ->. rewrite Hl. f_equal. clear Hl Hc Ht.
    revert contents Hlen. induction paths as [|p paths IH]; intros [|c cs] Hlen;
      try discriminate; [reflexivity|].
    simpl. f_equal. apply IH. simpl in Hlen. lia.
Qed.

End BatchTheorems.

(** X10. The output path mirrors the input path: it lies below the output
    directory as the input lies below the source directory, under the same
    relative path; two inputs never share an output path, and an input has an
    output path exactly when it lies in the source directory or below. *)
Theorem output_path_mirrors cfg p :
  (forall k, output_path_of cfg p = Some k ->
     relative_to k (output_dir cfg) = relative_to p (source_dir cfg) /\
     output_dir cfg `prefix_of` k /\
     forall q, output_path_of cfg q = Some k -> q = p) /\
  (is_Some (output_path_of cfg p) <-> source_dir cfg `prefix_of` p).
Proof.
  split.
  - intros k Hk. split; [|split].
    + unfold output_path_of in Hk.
      destruct (relative_to p (source_dir cfg)) as [rel|]; [|discriminate].
      inversion Hk; subst. apply relative_to_app.
    + unfold output_path_of in Hk.
      destruct (relative_to p (source_dir cfg)) as [rel|]; [|discriminate].
      inversion Hk; subst. now apply prefix_app_r.
    + intros q Hq. eapply output_path_of_inj; eauto.
  - rewrite relative_to_prefix. unfold output_path_of.
    destruct (relative_to p (source_dir cfg)) as [rel|]; split.
    + eauto.
    + intros _. eauto.
    + intros [x Hx]. discriminate.
    + intros [x Hx]. discriminate.
Qed.

Lemma example_no_alias : no_alias example_config example_paths.
Proof.
  intros p q Hp Hq. rewrite example_paths_eq in Hp, Hq.
  destruct Hp as [<-|[<-|[]]]; destruct Hq as [<-|[<-|[]]];
    vm_compute; discriminate.
Qed.

Lemma path_outside_source_witness :
  process_files unicodedata
    [[py "proj"; py "data"; py "original_txt"; py "b.txt"]]
    in_place_config false (world_of example_fs [])
  = (Raise ValueError,
     {| fs := example_fs; stdin := []; stdout := [];
        log := [EvRead [py "proj"; py "data"; py "original_txt"; py "b.txt"]] |}).
Proof.
  apply (path_outside_source unicodedata []
           [py "proj"; py "data"; py "original_txt"; py "b.txt"] []
           in_place_config false (world_of example_fs []) []
           (world_of example_fs []) true [0x3000; 0x61]).
  - reflexivity.
  - vm_compute. reflexivity.
  - apply (bool_decide_eq_false_1 _). vm_compute. reflexivity.
Defined.

Lemma dry_run_predicts_report_witness :
  fst (process_files unicodedata example_paths example_config true
         (world_of example_fs []))
  = Ok {| report_source_dir := path_str (source_dir example_config);
          report_output_dir := path_str (output_dir example_config);
          report_dry_run := true;
          files := [ expected_report unicodedata [0x3000; 0x61] [py "b.txt"];
                     expected_report unicodedata [0x61] [py "sub"; py "a.txt"] ] |}.
Proof.
  assert (H : process_files unicodedata example_paths example_config false
                (world_of example_fs [])
              = (Ok {| report_source_dir := path_str (source_dir example_config);
                       report_output_dir := path_str (output_dir example_config);
                       report_dry_run := false;
                       files := [ expected_report unicodedata [0x3000; 0x61]
                                    [py "b.txt"];
                                  expected_report unicodedata [0x61]
                                    [py "sub"; py "a.txt"] ] |},
                 snd (process_files unicodedata example_paths example_config
                        false (world_of example_fs []))))
    by (apply pair_eq; vm_compute; reflexivity).
  exact (f_equal fst
           (dry_run_predicts_report unicodedata example_paths example_config
              (world_of example_fs []) _ _ example_no_alias H)).
Defined.


Lemma process_files_log_witness :
  exists contents,
    length contents = length example_paths /\
    log (snd (process_files unicodedata example_paths example_config false
                (world_of example_fs [])))
    = concat (zip_with (turn_events unicodedata example_config false)
                example_paths contents).
Proof.
  assert (H : process_files unicodedata example_paths example_config false
                (world_of example_fs [])
              = (Ok (value_of (process_files unicodedata example_paths
                                 example_config false (world_of example_fs []))
                       empty_report),
                 snd (process_files unicodedata example_paths example_config
                        false (world_of example_fs []))))
    by (apply pair_eq; vm_compute; reflexivity).
  destruct (process_files_log unicodedata example_paths example_config false
              (world_of example_fs []) _ _ H)
    as (contents & H1 & H2 & _).
  exists contents. split; [exact H1 | exact H2].
Defined.

(** ** The questions *)

Lemma lstrip_blank s : lstrip s = [] <-> blank s.
Proof.
  unfold blank. induction s as [|c s IH]; simpl.
  - split; [constructor | reflexivity].
  - destruct (isspace c) eqn:E.
    + rewrite IH. split; [now constructor | now inversion 1].
    + split; [discriminate|]. inversion 1. congruence.
Qed.

Lemma lstrip_head s c t : lstrip s = c :: t -> isspace c = false.
Proof.
  induction s as [|x s IH]; simpl; [discriminate|].
  destruct (isspace x) eqn:E; [exact IH|]. intros H. inversion H. congruence.
Qed.

Lemma lstrip_sublist s : exists ws, blank ws /\ s = ws ++ lstrip s.
Proof.
  induction s as [|c s (ws & Hws & IH)]; simpl.
  - exists []. split; [constructor | reflexivity].
  - destruct (isspace c) eqn:E.
    + exists (c :: ws). split; [now constructor|]. simpl. now f_equal.
    + exists []. split; [constructor | reflexivity].
Qed.

Lemma lstrip_pad ws s : blank ws -> lstrip (ws ++ s) = lstrip s.
Proof.
  unfold blank. induction 1 as [|c ws Hc _ IH]; [reflexivity|].
  simpl. now rewrite Hc.
Qed.

Lemma lstrip_app s t : lstrip s <> [] -> lstrip (s ++ t) = lstrip s ++ t.
Proof.
  induction s as [|c s IH]; simpl; [congruence|].
  destruct (isspace c); [exact IH | reflexivity].
Qed.

Lemma blank_rev s : blank s -> blank (rev s).
Proof. unfold blank. rewrite !Forall_forall. intros H c Hc. apply H.
  apply list_elem_of_In. apply list_elem_of_In in Hc. now apply in_rev. Qed.

Lemma blank_app s t : blank (s ++ t) <-> blank s /\ blank t.
Proof. apply Forall_app. Qed.

Lemma strip_blank s : strip s = [] <-> blank s.
Proof.
  unfold strip. split.
  - intros H. apply (f_equal (@rev Z)) in H. rewrite rev_involutive in H.
    simpl in H. apply lstrip_blank in H.
    apply blank_rev in H. rewrite rev_involutive in H.
    destruct (lstrip s) as [|c t] eqn:E; [now apply lstrip_blank|].
    apply lstrip_head in E. inversion H. congruence.
  - intros H. apply lstrip_blank in H. now rewrite H.
Qed.

(** White space around an answer is dropped. *)
Lemma strip_pad ws1 s ws2 :
  blank ws1 -> blank ws2 -> strip (ws1 ++ s ++ ws2) = strip s.
Proof.
  intros H1 H2. unfold strip. rewrite lstrip_pad by exact H1.
  destruct (lstrip s) as [|c t] eqn:E.
  - apply lstrip_blank in E.
    assert (Hb : lstrip (s ++ ws2) = [])
      by (apply lstrip_blank, blank_app; auto).
    now rewrite Hb.
  - rewrite lstrip_app by congruence. rewrite E.
    rewrite rev_app_distr. rewrite lstrip_pad by now apply blank_rev.
    reflexivity.
Qed.

Lemma lower_nil s : lower s = [] <-> s = [].
Proof. unfold lower. destruct s; simpl; split; congruence. Qed.

Lemma lower_char c t :
  0x61 <= t <= 0x7A ->
  (if (0x41 <=? c) && (c <=? 0x5A) then c + 0x20 else c) = t
  <-> c = t \/ c = t - 0x20.
Proof.
  intros Ht.
  destruct (Z.leb_spec 0x41 c); destruct (Z.leb_spec c 0x5A); simpl; lia.
Qed.

Lemma lower_yes s :
  lower s = py "y" \/ lower s = py "yes" <-> In s YES_ANSWERS.
Proof.
  change (py "y") with [0x79]. change (py "yes") with [0x79; 0x65; 0x73].
  unfold YES_ANSWERS. cbn [In].
  change (py "Y") with [0x59]. change (py "y") with [0x79].
  change (py "yes") with [0x79; 0x65; 0x73].
  change (py "yeS") with [0x79; 0x65; 0x53].
  change (py "yEs") with [0x79; 0x45; 0x73].
  change (py "yES") with [0x79; 0x45; 0x53].
  change (py "Yes") with [0x59; 0x65; 0x73].
  change (py "YeS") with [0x59; 0x65; 0x53].
  change (py "YEs") with [0x59; 0x45; 0x73].
  change (py "YES") with [0x59; 0x45; 0x53].
  unfold lower.
  destruct s as [|c1 [|c2 [|c3 [|c4 s]]]]; cbn [map].
  - split; [intros [H|H]; discriminate|].
    intros H; repeat (destruct H as [H|H]; [discriminate|]); contradiction.
  - pose proof (lower_char c1 0x79 ltac:(lia)) as H1.
    split.
    + intros [H|H]; [|discriminate]. inversion H as [H0].
      apply H1 in H0 as [->| ->]; auto.
    + intros H. left. f_equal. apply H1.
      repeat (destruct H as [H|H]; [inversion H; lia|]); contradiction.
  - split; [intros [H|H]; discriminate|].
    intros H; repeat (destruct H as [H|H]; [discriminate|]); contradiction.
  - pose proof (lower_char c1 0x79 ltac:(lia)) as H1.
    pose proof (lower_char c2 0x65 ltac:(lia)) as H2.
    pose proof (lower_char c3 0x73 ltac:(lia)) as H3.
    split.
    + intros [H|H]; [discriminate|]. inversion H as [[G1 G2 G3]].
      apply H1 in G1. apply H2 in G2. apply H3 in G3.
      destruct G1 as [->| ->]; destruct G2 as [->| ->]; destruct G3 as [->| ->];
        simpl; tauto.
    + intros H. right.
      repeat (destruct H as [H|H]; [inversion H; subst; reflexivity|]);
        contradiction.
  - split; [intros [H|H]; discriminate|].
    intros H; repeat (destruct H as [H|H]; [discriminate|]); contradiction.
Qed.

(** X11. [prompt_yes_no] prints its prompt and takes one line. A blank line
    gives the default; any other line gives yes when, white space around it
    dropped, it is "y" or "yes" in any mix of cases, and no otherwise,
    whatever the default. White space around an answer does not count. *)
Theorem prompt_yes_no_answers q default w a rest :
  stdin w = a :: rest ->
  prompt_yes_no q default w =
  (Ok (answer_value default a),
   {| fs := fs w; stdin := rest;
      stdout := stdout w ++ [LINE_PROMPT q default]; log := log w |}) /\
  (blank a -> answer_value default a = default) /\
  (~ blank a -> (answer_value default a = true <-> In (strip a) YES_ANSWERS)) /\
  (forall ws1 ws2, blank ws1 -> blank ws2 ->
     answer_value default (ws1 ++ a ++ ws2) = answer_value default a).
Proof.
  intros Hin. split; [|split; [|split]].
  - destruct (prompt_yes_no q default w) as [r w'] eqn:E.
    apply prompt_yes_no_spec in E as (A1 & A2 & A3 & [(A4 & _)|A4]);
      [congruence|].
    destruct A4 as (a0 & rest0 & A4 & A5 & ->).
    rewrite Hin in A4. inversion A4; subst a0 rest0.
    f_equal. destruct w'; simpl in *. congruence.
  - intros Hb. unfold answer_value. cbv zeta.
    apply strip_blank in Hb. rewrite Hb. reflexivity.
  - intros Hb. unfold answer_value. cbv zeta.
    rewrite bool_decide_eq_false_2.
    + rewrite orb_true_iff, !bool_decide_eq_true. apply lower_yes.
    + rewrite lower_nil, strip_blank. exact Hb.
  - intros ws1 ws2 H1 H2. unfold answer_value. cbv zeta.
    now rewrite strip_pad.
Qed.

Lemma prompt_yes_no_answers_witness :
  prompt_yes_no ASK_RUN_NOW true
    (world_of example_fs [[0x20; 0x59; 0x65; 0x53; 0x09]; []])
  = (Ok true,
     {| fs := example_fs; stdin := [[]];
        stdout := [LINE_PROMPT ASK_RUN_NOW true]; log := [] |}).
Proof.
  exact (proj1 (prompt_yes_no_answers ASK_RUN_NOW true
                  (world_of example_fs [[0x20; 0x59; 0x65; 0x53; 0x09]; []])
                  [0x20; 0x59; 0x65; 0x53; 0x09] [[]] eq_refl)).
Defined.

(** ** The entry point, further *)

(** [write_text] on a writable regular file replaces what the file
    holds. *)
Lemma write_text_over (p : Path) s w rd d :
  p <> [] -> fs w !! p = Some (File rd true d) ->
  write_text p s w =
  (Ok tt, {| fs := <[p := File rd true (Text s)]> (fs w);
             stdin := stdin w; stdout := stdout w;
             log := log w ++ [EvWrite p s] |}).
Proof.
  intros Hne Hp. unfold write_text. rewrite bind_eq. unfold log_event.
  rewrite bind_eq. unfold get_fs. cbn [fs].
  now rewrite (node_at_lookup _ _ Hne), Hp.
Qed.

Section RunFurther.

Context (U : Unicodedata).

(** The three ways in which [main_run] ends once it has files to process. *)
Lemma main_run_batch_inv cfg dry_run w r w' :
  is_dir (fs w) (source_dir cfg) = true ->
  gather_files (fs w) (source_dir cfg) <> [] ->
  main_run U cfg dry_run w = (r, w') ->
  let paths := gather_files (fs w) (source_dir cfg) in
  (exists e, process_files U paths cfg dry_run w = (Raise e, w') /\ r = Raise e)
  \/ (exists report w1 e,
        process_files U paths cfg dry_run w = (Ok report, w1) /\
        write_report report cfg w1 = (Raise e, w') /\ r = Raise e)
  \/ (exists report w1 w2,
        process_files U paths cfg dry_run w = (Ok report, w1) /\
        write_report report cfg w1 = (Ok tt, w2) /\ r = Ok 0 /\
        w' = {| fs := fs w2; stdin := stdin w2;
                stdout := stdout w2 ++ done_lines cfg dry_run;
                log := log w2 |}).
Proof.
  intros Hd Hg H paths. rewrite main_run_batch in H by assumption.
  fold paths in H.
  apply bind_inv in H as [(report & w1 & H1 & H2)|(e & H1 & ->)];
    [|left; eauto].
  apply bind_inv in H2 as [([] & w2 & H2 & H3)|(e & H2 & ->)];
    [|right; left; exists report, w1, e; auto].
  right. right. exists report, w1, w2.
  split; [exact H1|]. split; [exact H2|].
  unfold done_lines. destruct dry_run;
    unfold mbind, M_bind, mret, M_ret, print in H3; inversion H3; subst;
    split; try reflexivity.
  cbn [fs stdin stdout log]. now rewrite <- app_assoc.
Qed.

Lemma process_files_frame paths cfg dry_run w r w' :
  process_files U paths cfg dry_run w = (r, w') ->
  stdin w' = stdin w /\ stdout w' = stdout w /\
  evolves (fun k => dry_run = false /\ is_output cfg paths k) (fs w) (fs w') /\
  exists evs,
    log w' = log w ++ evs /\
    (forall p, In (EvRead p) evs -> In p paths) /\
    (forall q s, In (EvWrite q s) evs ->
                 dry_run = false /\ is_output cfg paths q).
Proof.
  intros H.
  apply process_files_inv in H as [(reports & H & _)|(e & H & _)];
    apply process_loop_frame in H as (A1 & A2 & A3 & _ & evs & A5 & _ & A6 & A7);
    eauto 10.
Qed.

Lemma write_report_frame report cfg w r w' :
  write_report report cfg w = (r, w') ->
  stdin w' = stdin w /\ stdout w' = stdout w /\
  evolves (eq (report_path cfg)) (fs w) (fs w') /\
  log w' = log w ++ [EvWrite (report_path cfg)
                       (json_dumps (report_payload report))].
Proof.
  unfold write_report. intros H.
  apply write_text_spec in H as (A1 & A2 & A3 & A4).
  repeat split; auto.
  destruct A4 as [(_ & _ & Hold & rd & ->)|(e & _ & ->)];
    [now apply evolves_write | apply evolves_refl].
Qed.

(** What [main_run] touches, however it ends. *)
Lemma main_run_touches cfg dry_run w r w' :
  main_run U cfg dry_run w = (r, w') ->
  let paths := gather_files (fs w) (source_dir cfg) in
  stdin w' = stdin w /\
  evolves (fun k => k = report_path cfg
                    \/ (dry_run = false /\ is_output cfg paths k))
    (fs w) (fs w') /\
  exists evs,
    log w' = log w ++ evs /\
    (forall p, In (EvRead p) evs -> In p paths) /\
    (forall q s, In (EvWrite q s) evs ->
       q = report_path cfg \/ (dry_run = false /\ is_output cfg paths q)).
Proof.
  intros H paths.
  assert (Hnone : forall w0 : World, fs w0 = fs w -> stdin w0 = stdin w ->
            log w0 = log w ->
            stdin w0 = stdin w /\
            evolves (fun k => k = report_path cfg
                              \/ (dry_run = false /\ is_output cfg paths k))
              (fs w) (fs w0) /\
            exists evs,
              log w0 = log w ++ evs /\
              (forall p, In (EvRead p) evs -> In p paths) /\
              (forall q s, In (EvWrite q s) evs ->
                 q = report_path cfg
                 \/ (dry_run = false /\ is_output cfg paths q))).
  { intros w0 F1 F2 F3. split; [exact F2|].
    split; [rewrite F1; apply evolves_refl|].
    exists []. rewrite app_nil_r. split; [exact F3|].
    split; intros; contradiction. }
  destruct (is_dir (fs w) (source_dir cfg)) eqn:Hd.
  2:{ rewrite main_run_missing in H by exact Hd. inversion H; subst.
      now apply Hnone. }
  destruct (decide (gather_files (fs w) (source_dir cfg) = [])) as [Hg|Hg].
  { rewrite main_run_empty in H by assumption. inversion H; subst.
    now apply Hnone. }
  assert (Hbatch : forall r1 w1,
            process_files U paths cfg dry_run w = (r1, w1) ->
            stdin w1 = stdin w /\
            evolves (fun k => k = report_path cfg
                              \/ (dry_run = false /\ is_output cfg paths k))
              (fs w) (fs w1) /\
            exists evs,
              log w1 = log w ++ evs /\
              (forall p, In (EvRead p) evs -> In p paths) /\
              (forall q s, In (EvWrite q s) evs ->
                 q = report_path cfg
                 \/ (dry_run = false /\ is_output cfg paths q))).
  { intros r1 w1 H1.
    apply process_files_frame in H1 as (A1 & _ & A3 & evs & A4 & A5 & A6).
    split; [exact A1|]. split.
    { eapply evolves_weaken; [|exact A3]. auto. }
    exists evs. split; [exact A4|]. split; [exact A5 | eauto]. }
  assert (Hreport : forall report r1 w1 r2 w2,
            process_files U paths cfg dry_run w = (r1, w1) ->
            write_report report cfg w1 = (r2, w2) ->
            stdin w2 = stdin w /\
            evolves (fun k => k = report_path cfg
                              \/ (dry_run = false /\ is_output cfg paths k))
              (fs w) (fs w2) /\
            exists evs,
              log w2 = log w ++ evs /\
              (forall p, In (EvRead p) evs -> In p paths) /\
              (forall q s, In (EvWrite q s) evs ->
                 q = report_path cfg
                 \/ (dry_run = false /\ is_output cfg paths q))).
  { intros report r1 w1 r2 w2 H1 H2.
    destruct (Hbatch _ _ H1) as (A1 & A2 & evs & A3 & A4 & A5).
    apply write_report_frame in H2 as (B1 & _ & B3 & B4).
    split; [congruence|]. split.
    { eapply evolves_trans; [exact A2|].
      eapply evolves_weaken; [|exact B3]. intros k <-. now left. }
    exists (evs ++ [EvWrite (report_path cfg)
                      (json_dumps (report_payload report))]).
    split; [rewrite B4, A3; now rewrite app_assoc|]. split.
    - intros p Hp. apply in_app_or in Hp as [Hp|[Hp|[]]];
        [now apply A4 | discriminate].
    - intros q s Hq. apply in_app_or in Hq as [Hq|[Hq|[]]];
        [eauto | inversion Hq; now left]. }
  apply main_run_batch_inv in H; [|exact Hd|exact Hg]. fold paths in H.
  destruct H as [(e & H1 & _)|[(report & w1 & e & H1 & H2 & _)
                               |(report & w1 & w2 & H1 & H2 & _ & ->)]].
  - exact (Hbatch _ _ H1).
  - exact (Hreport _ _ _ _ _ H1 H2).
  - exact (Hreport _ _ _ _ _ H1 H2).
Qed.

End RunFurther.

(** An output path of a discovered file lies below the output directory
    and bears the name of the file. *)
Lemma is_output_gathered f cfg k :
  is_output cfg (gather_files f (source_dir cfg)) k ->
  output_dir cfg `prefix_of` k /\ py ".txt" `suffix_of` path_name k.
Proof.
  intros (p & Hp & Hk).
  apply gather_files_members in Hp as (_ & [Hpre Hne] & _ & Hs).
  unfold output_path_of in Hk.
  destruct (relative_to p (source_dir cfg)) as [rel|] eqn:E; [|discriminate].
  inversion Hk; subst k. apply relative_to_Some in E. subst p.
  split; [now apply prefix_app_r|].
  destruct rel as [|x rel _] using rev_ind; [now rewrite app_nil_r in Hne|].
  unfold path_name, joinpath in *. now rewrite app_assoc, last_last in *.
Qed.

Lemma prompt_yes_no_eq q default w a rest :
  stdin w = a :: rest ->
  prompt_yes_no q default w =
  (Ok (answer_value default a), console w rest [LINE_PROMPT q default]).
Proof.
  intros Hin. destruct (prompt_yes_no q default w) as [r w'] eqn:E.
  apply prompt_yes_no_spec in E as (A1 & A2 & A3 & [(A4 & _)|A4]);
    [congruence|].
  destruct A4 as (a0 & rest0 & A4 & A5 & ->).
  rewrite Hin in A4. inversion A4; subst a0 rest0.
  f_equal. unfold console. destruct w'; simpl in *. congruence.
Qed.

Lemma prompt_yes_no_eof q default w :
  stdin w = [] ->
  prompt_yes_no q default w =
  (Raise EOFError, console w [] [LINE_PROMPT q default]).
Proof.
  intros Hin. unfold prompt_yes_no. rewrite bind_eq. unfold input.
  now rewrite Hin.
Qed.

Lemma console_console w i1 l1 i2 l2 :
  console (console w i1 l1) i2 l2 = console w i2 (l1 ++ l2).
Proof. unfold console. simpl. now rewrite <- app_assoc. Qed.

Lemma print_console l w : print l w = (Ok tt, console w (stdin w) [l]).
Proof. reflexivity. Qed.

Section PrologueFurther.

Context (PROJECT_ROOT : Path).

Local Abbreviation cfg_of := (config_of_args PROJECT_ROOT).

(** The prologue of [main] after the directories were set up, by mode and
    by what the console holds. *)
Lemma main_prologue_eq args w :
  main_prologue PROJECT_ROOT args w =
  match ensure_directories (cfg_of args) w with
  | (Raise e, w1) => (Raise e, w1)
  | (Ok _, w1) =>
      if args_interactive args then
        match stdin w1 with
        | [] =>
            (Raise EOFError,
             console w1 [] (BANNER ++ [LINE_PROMPT ASK_RUN_NOW true]))
        | a1 :: rest1 =>
            if answer_value true a1 then
              match rest1 with
              | [] =>
                  (Raise EOFError,
                   console w1 []
                     (BANNER ++ [LINE_PROMPT ASK_RUN_NOW true;
                                 LINE_PROMPT ASK_DRY_RUN (args_dry_run args)]))
              | a2 :: rest =>
                  (Ok (Some (answer_value (args_dry_run args) a2)),
                   console w1 rest
                     (BANNER ++ [LINE_PROMPT ASK_RUN_NOW true;
                                 LINE_PROMPT ASK_DRY_RUN (args_dry_run args)]))
              end
            else
              (Ok None,
               console w1 rest1
                 (BANNER ++ [LINE_PROMPT ASK_RUN_NOW true; LINE_CANCELLED]))
        end
      else
        (Ok (Some (args_dry_run args)),
         console w1 (stdin w1) (BANNER ++ [LINE_NON_INTERACTIVE]))
  end.
Proof.
  unfold main_prologue. cbv zeta. rewrite bind_eq.
  destruct (ensure_directories (cfg_of args) w) as [[[]|e] w1]; [|reflexivity].
  rewrite !bind_eq, !print_console. cbn [fst snd].
  rewrite !bind_eq, !print_console, !console_console.
  rewrite !bind_eq, !print_console, !console_console.
  cbn [console stdin app].
  destruct (args_interactive args).
  - rewrite bind_eq. destruct (stdin w1) as [|a1 rest1] eqn:E1.
    + rewrite prompt_yes_no_eof by reflexivity. rewrite console_console.
      reflexivity.
    + rewrite (prompt_yes_no_eq _ _ _ a1 rest1) by reflexivity.
      rewrite console_console.
      destruct (answer_value true a1); cbn [negb].
      * rewrite bind_eq. destruct rest1 as [|a2 rest].
        -- rewrite prompt_yes_no_eof by reflexivity.
           rewrite console_console. reflexivity.
        -- rewrite (prompt_yes_no_eq _ _ _ a2 rest) by reflexivity.
           rewrite console_console. reflexivity.
      * rewrite bind_eq, print_console, console_console. reflexivity.
  - rewrite bind_eq, print_console, console_console. reflexivity.
Qed.

End PrologueFurther.

Lemma ensure_directories_log cfg w r w' :
  ensure_directories cfg w = (r, w') ->
  exists evs, log w' = log w ++ evs /\
              forall e, In e evs -> exists q, e = EvMkdir q.
Proof.
  unfold ensure_directories. intros H.
  apply bind_inv in H as [([] & w1 & H1 & H2)|(e & H1 & ->)].
  - apply mkdir_parents_exist_ok_spec in H1 as (_ & _ & A3 & _).
    apply mkdir_parents_exist_ok_spec in H2 as (_ & _ & B3 & _).
    exists [EvMkdir (output_dir cfg); EvMkdir (parent (report_path cfg))].
    split; [rewrite B3, A3; now rewrite <- app_assoc|].
    intros e [<-|[<-|[]]]; eauto.
  - apply mkdir_parents_exist_ok_spec in H1 as (_ & _ & A3 & _).
    exists [EvMkdir (output_dir cfg)]. split; [exact A3|].
    intros e0 [<-|[]]; eauto.
Qed.

Section EntryPointFurther.

Context (U : Unicodedata) (PROJECT_ROOT : Path).

Local Abbreviation cfg_of := (config_of_args PROJECT_ROOT).

Lemma report_in_output_dir args :
  report_path (cfg_of args) = joinpath (output_dir (cfg_of args)) [py "report.json"].
Proof.
  unfold config_of_args, DEFAULT_CONFIG, joinpath.
  destruct (args_source args), (args_output args); cbn [report_path output_dir];
    try reflexivity; now rewrite <- app_assoc.
Qed.

Lemma report_path_ne args : report_path (cfg_of args) <> [].
Proof.
  intros H. pose proof (report_name PROJECT_ROOT args) as Hn.
  rewrite H in Hn. discriminate.
Qed.

(** X12. Whatever the overrides, the report is the file "report.json" of the
    output directory and the encoding is UTF-8; an override of the source
    alone leaves the output directory and the report where the defaults put
    them. The second [mkdir] of [ensure_directories] is therefore a repeat of
    the first: the set-up of [main] ends as the [mkdir] of the output
    directory ends, in the filesystem that this one call left. *)
Theorem config_of_args_layout args :
  let cfg := cfg_of args in
  source_dir cfg
  = default (source_dir (DEFAULT_CONFIG PROJECT_ROOT)) (args_source args) /\
  output_dir cfg
  = default (output_dir (DEFAULT_CONFIG PROJECT_ROOT)) (args_output args) /\
  report_path cfg = joinpath (output_dir cfg) [py "report.json"] /\
  parent (report_path cfg) = output_dir cfg /\
  encoding cfg = "utf-8"%string /\
  (forall w,
     fst (ensure_directories cfg w)
     = fst (mkdir_parents_exist_ok (output_dir cfg) w) /\
     fs (snd (ensure_directories cfg w))
     = fs (snd (mkdir_parents_exist_ok (output_dir cfg) w))).
Proof.
  intros cfg.
  assert (Hrp : report_path cfg = joinpath (output_dir cfg) [py "report.json"])
    by apply report_in_output_dir.
  assert (Hpar : parent (report_path cfg) = output_dir cfg).
  { rewrite Hrp. unfold parent, joinpath. apply removelast_last. }
  split; [subst cfg; unfold config_of_args;
          now destruct (args_source args), (args_output args)|].
  split; [subst cfg; unfold config_of_args;
          now destruct (args_source args), (args_output args)|].
  split; [exact Hrp|]. split; [exact Hpar|].
  split; [subst cfg; unfold config_of_args;
          now destruct (args_source args), (args_output args)|].
  intros w. unfold ensure_directories. rewrite bind_eq, Hpar.
  destruct (mkdir_parents_exist_ok (output_dir cfg) w) as [[[]|e] w1] eqn:E;
    [|split; reflexivity].
  apply mkdir_parents_exist_ok_spec in E as (_ & _ & _ & _ & E).
  rewrite mkdir_parents_exist_ok_existing by now apply E.
  split; reflexivity.
Qed.

(** X13. When the output directory is the path of something that is not a
    directory, [main] ends with the [FileExistsError] of the first [mkdir]
    before it has printed a line: nothing is read, written or asked. *)
Theorem main_output_not_directory args w n :
  node_at (fs w) (output_dir (cfg_of args)) = Some n -> n <> Dir ->
  main U PROJECT_ROOT args w =
  (Raise FileExistsError,
   {| fs := fs w; stdin := stdin w; stdout := stdout w;
      log := log w ++ [EvMkdir (output_dir (cfg_of args))] |}).
Proof.
  intros Hn Hd. rewrite main_eq, main_prologue_eq.
  unfold ensure_directories. rewrite bind_eq.
  now rewrite (mkdir_parents_exist_ok_occupied _ _ n Hn Hd).
Qed.

(** X14. An interactive run whose directories are set up asks its questions
    after the banner. At the end of the input the question that finds no line
    ends the run with [EOFError], nothing read or written. With two lines, the
    first of them a yes, the run goes on in the mode that the second answer
    gives, whatever the [--dry-run] flag, which is only the default of that
    answer. *)
Theorem main_interactive args w w1 :
  args_interactive args = true ->
  ensure_directories (cfg_of args) w = (Ok tt, w1) ->
  let ask1 := LINE_PROMPT ASK_RUN_NOW true in
  let ask2 := LINE_PROMPT ASK_DRY_RUN (args_dry_run args) in
  (stdin w = [] ->
   main U PROJECT_ROOT args w
   = (Raise EOFError, console w1 [] (BANNER ++ [ask1]))) /\
  (forall a1, stdin w = [a1] -> answer_value true a1 = true ->
   main U PROJECT_ROOT args w
   = (Raise EOFError, console w1 [] (BANNER ++ [ask1; ask2]))) /\
  (forall a1 a2 rest, stdin w = a1 :: a2 :: rest ->
   answer_value true a1 = true ->
   main U PROJECT_ROOT args w
   = main_run U (cfg_of args) (answer_value (args_dry_run args) a2)
       (console w1 rest (BANNER ++ [ask1; ask2]))).
Proof.
  intros Hi He ask1 ask2.
  assert (Hin : stdin w1 = stdin w)
    by now apply ensure_directories_spec in He as (Hin & _).
  split; [|split].
  - intros H. rewrite main_eq, main_prologue_eq, He, Hi, Hin, H. reflexivity.
  - intros a1 H Ha. rewrite main_eq, main_prologue_eq, He, Hi, Hin, H, Ha.
    reflexivity.
  - intros a1 a2 rest H Ha.
    rewrite main_eq, main_prologue_eq, He, Hi, Hin, H, Ha. reflexivity.
Qed.

(** X15. The ways in which [main] returns. The output of a run that returns an
    exit status is the banner, the lines of the mode and one closing line, and
    that line tells the outcome: the cancellation of an interactive run
    (status 0); the hint that follows the error message when the source
    directory is absent or not a directory (status 1, the only case of that
    status); the warning that no file was found (status 0); or the line that
    names the report, which has then been written for at least one file
    (status 0). In the first three cases the calls of the run are the two
    [mkdir] calls of the set-up. *)
Theorem main_outcome args w code w' :
  main U PROJECT_ROOT args w = (Ok code, w') ->
  let cfg := cfg_of args in
  let setup := [EvMkdir (output_dir cfg); EvMkdir (parent (report_path cfg))] in
  exists lines l,
    stdout w' = stdout w ++ BANNER ++ lines ++ [l] /\
    ((l = LINE_CANCELLED /\ code = 0 /\ args_interactive args = true /\
      log w' = log w ++ setup)
     \/ (l = LINE_HINT_SOURCE /\ code = 1 /\
         is_dir (fs w') (source_dir cfg) = false /\ log w' = log w ++ setup)
     \/ (l = LINE_WARN_EMPTY (source_dir cfg) /\ code = 0 /\
         is_dir (fs w') (source_dir cfg) = true /\
         gather_files (fs w') (source_dir cfg) = [] /\
         log w' = log w ++ setup)
     \/ ((l = LINE_DONE_DRY_RUN (report_path cfg)
          \/ l = LINE_REPORT (report_path cfg)) /\ code = 0 /\
         is_dir (fs w') (source_dir cfg) = true /\
         exists report rd,
           files report <> [] /\
           fs w' !! report_path cfg
           = Some (File rd true (Text (json_dumps (report_payload report)))))).
Proof.
  intros H cfg setup. rewrite main_eq in H.
  destruct (main_prologue PROJECT_ROOT args w) as [r0 w0] eqn:Hp.
  assert (Hspec := Hp). apply main_prologue_spec in Hspec as (_ & _ & _ & Hlog).
  rewrite main_prologue_eq in Hp.
  destruct (ensure_directories (cfg_of args) w) as [[[]|e] w1] eqn:He;
    [|inversion Hp; subst; discriminate].
  assert (Hout : stdout w1 = stdout w)
    by now apply ensure_directories_spec in He as (_ & Hout & _).
  assert (Hmode : exists lines0,
            stdout w0 = stdout w ++ BANNER ++ lines0 /\
            (r0 = Ok None ->
             args_interactive args = true /\
             exists lines, lines0 = lines ++ [LINE_CANCELLED])).
  { destruct (args_interactive args).
    - destruct (stdin w1) as [|a1 rest1].
      + inversion Hp; subst. cbn [console stdout]. rewrite Hout.
        eexists. split; [reflexivity | discriminate].
      + destruct (answer_value true a1).
        * destruct rest1 as [|a2 rest]; inversion Hp; subst;
            cbn [console stdout]; rewrite Hout;
            (eexists; split; [reflexivity | discriminate]).
        * inversion Hp; subst. cbn [console stdout]. rewrite Hout.
          eexists. split; [reflexivity|]. intros _. split; [reflexivity|].
          exists [LINE_PROMPT ASK_RUN_NOW true]. reflexivity.
    - inversion Hp; subst. cbn [console stdout]. rewrite Hout.
      eexists. split; [reflexivity | discriminate]. }
  destruct Hmode as (lines0 & Hstd & Hcancel).
  destruct r0 as [[dry_run|]|e]; [| |discriminate].
  2:{ inversion H; subst. destruct (Hcancel eq_refl) as (Hi & lines & ->).
      exists lines, LINE_CANCELLED. split; [exact Hstd|]. left.
      destruct (Hlog _ eq_refl) as (Hl & _). auto. }
  destruct (Hlog _ eq_refl) as (Hl & _). clear Hcancel Hlog.
  destruct (is_dir (fs w0) (source_dir cfg)) eqn:Hd.
  2:{ rewrite main_run_missing in H by exact Hd. inversion H; subst.
      cbn [fs stdout log].
      exists (lines0 ++ [LINE_ERROR_SOURCE (source_dir cfg)]), LINE_HINT_SOURCE.
      split; [rewrite Hstd; now rewrite <- !app_assoc|].
      right. left. auto. }
  destruct (decide (gather_files (fs w0) (source_dir cfg) = [])) as [Hg|Hg].
  { rewrite main_run_empty in H by assumption. inversion H; subst.
    cbn [fs stdout log].
    exists lines0, (LINE_WARN_EMPTY (source_dir cfg)).
    split; [rewrite Hstd; now rewrite <- !app_assoc|].
    right. right. left. auto. }
  apply main_run_batch_inv in H; [|exact Hd|exact Hg].
  destruct H as [(e & _ & H)|[(report & w2 & e & _ & _ & H)
                             |(report & w2 & w3 & H1 & H2 & Hcode & ->)]];
    try discriminate.
  inversion Hcode; subst code; clear Hcode.
  cbn [fs stdout log].
  assert (H1' := H1). apply process_files_frame in H1' as (_ & A2 & A3 & _).
  assert (H2' := H2). apply write_report_frame in H2' as (_ & B2 & B3 & _).
  assert (Hd3 : is_dir (fs w3) (source_dir cfg) = true).
  { eapply evolves_dir; [exact B3|]. eapply evolves_dir; [exact A3|exact Hd]. }
  assert (Hfiles : files report <> []).
  { apply process_files_inv in H1 as [(reports & H1 & Hr)|(e & _ & Hr)];
      [|discriminate].
    inversion Hr; subst report. cbn [files].
    apply process_loop_length in H1. intros ->.
    apply Hg, length_zero_iff_nil. simpl in H1. symmetry. exact H1. }
  apply write_report_Ok in H2 as [rd H2].
  unfold done_lines. destruct dry_run.
  - exists lines0, (LINE_DONE_DRY_RUN (report_path cfg)).
    split; [rewrite B2, A2, Hstd; now rewrite <- !app_assoc|].
    right. right. right. split; [now left|]. split; [reflexivity|].
    split; [exact Hd3|]. exists report, rd. auto.
  - exists (lines0 ++ [LINE_DONE (output_dir cfg)]),
      (LINE_REPORT (report_path cfg)).
    split; [rewrite B2, A2, Hstd; now rewrite <- !app_assoc|].
    right. right. right. split; [now right|]. split; [reflexivity|].
    split; [exact Hd3|]. exists report, rd. auto.
Qed.

End EntryPointFurther.

Section EntryPointRuns.

Context (U : Unicodedata) (PROJECT_ROOT : Path).

Local Abbreviation cfg_of := (config_of_args PROJECT_ROOT).

(** X16. A run over a project that has its report rewrites the report.
    After a set-up and questions that went well, over a source directory in
    which discovery finds files, if the batch ends well, the path of the
    report holds a writable regular file and the document of the report is
    text that UTF-8 encodes (no path in it has a surrogate), then [main]
    replaces what that file holds by the document, prints the closing lines
    of its mode and returns 0; the report is the last thing written. *)
Theorem main_completed args w dry_run w0 report w1 rd d :
  let cfg := cfg_of args in
  main_prologue PROJECT_ROOT args w = (Ok (Some dry_run), w0) ->
  is_dir (fs w0) (source_dir cfg) = true ->
  gather_files (fs w0) (source_dir cfg) <> [] ->
  process_files U (gather_files (fs w0) (source_dir cfg)) cfg dry_run w0
  = (Ok report, w1) ->
  fs w1 !! report_path cfg = Some (File rd true d) ->
  encodable (json_dumps (report_payload report)) ->
  main U PROJECT_ROOT args w =
  (Ok 0,
   {| fs := <[report_path cfg
              := File rd true (Text (json_dumps (report_payload report)))]>
              (fs w1);
      stdin := stdin w0;
      stdout := stdout w0 ++ done_lines cfg dry_run;
      log := log w1 ++ [EvWrite (report_path cfg)
                          (json_dumps (report_payload report))] |}).
Proof.
  intros cfg Hp Hd Hg Hb Hrp _.
  assert (Hw := write_text_over (report_path cfg)
                  (json_dumps (report_payload report)) w1 rd d
                  (report_path_ne PROJECT_ROOT args) Hrp).
  rewrite main_eq, Hp.
  rewrite main_run_batch by assumption.
  rewrite bind_eq. fold cfg. rewrite Hb. rewrite bind_eq.
  unfold write_report. cbv zeta. rewrite Hw.
  assert (Hb' := Hb). apply process_files_frame in Hb' as (A1 & A2 & _).
  unfold done_lines. destruct dry_run;
    unfold mbind, M_bind, mret, M_ret, print; cbn [fs stdin stdout log];
    rewrite A1, A2; [reflexivity|]. now rewrite <- app_assoc.
Qed.

(** X17. What a run of [main] touches, however it ends. It reads only files
    that lie below the source directory and whose name ends in ".txt". It
    writes only the report and files below the output directory whose name
    ends in ".txt"; beyond that the filesystem only gains directories, and
    nothing is ever removed. In a dry run the report is the only file written.
    Without [--interactive] the console input is not read. *)
Theorem main_touches args w :
  let cfg := cfg_of args in
  let w' := snd (main U PROJECT_ROOT args w) in
  evolves (may_write cfg) (fs w) (fs w') /\
  (exists evs,
     log w' = log w ++ evs /\
     (forall p, In (EvRead p) evs ->
        strictly_below (source_dir cfg) p /\
        py ".txt" `suffix_of` path_name p) /\
     (forall q s, In (EvWrite q s) evs -> may_write cfg q) /\
     (forall w0, main_prologue PROJECT_ROOT args w = (Ok (Some true), w0) ->
        evolves (eq (report_path cfg)) (fs w) (fs w') /\
        forall q s, In (EvWrite q s) evs -> q = report_path cfg)) /\
  (args_interactive args = false -> stdin w' = stdin w).
Proof.
  intros cfg w'. subst w'. rewrite main_eq.
  destruct (main_prologue PROJECT_ROOT args w) as [r0 w0] eqn:Hp.
  assert (Hs := Hp). apply main_prologue_spec in Hs as (Hev & _ & _ & _).
  rewrite main_prologue_eq in Hp.
  destruct (ensure_directories (cfg_of args) w) as [r1 w1] eqn:He.
  assert (He' := He).
  apply ensure_directories_log in He' as (evs1 & Hl1 & Hmk).
  apply ensure_directories_spec in He as (Hin & _).
  assert (Hw0 : log w0 = log w1 /\
                (args_interactive args = false -> stdin w0 = stdin w)).
  { destruct r1 as [[]|e]; [|inversion Hp; subst; split; congruence].
    destruct (args_interactive args).
    - split; [|discriminate].
      destruct (stdin w1) as [|a1 rest1]; [now inversion Hp|].
      destruct (answer_value true a1); [|now inversion Hp].
      destruct rest1; now inversion Hp.
    - inversion Hp; subst. cbn [console log stdin]. auto. }
  destruct Hw0 as [Hl0 Hin0]. clear Hp.
  assert (Hnone : forall p, In (EvRead p) evs1 -> False).
  { intros p Hp0. apply Hmk in Hp0 as [q Hq]. discriminate. }
  assert (Hnone' : forall q s, In (EvWrite q s) evs1 -> False).
  { intros q s Hq. apply Hmk in Hq as [q' Hq]. discriminate. }
  assert (Hstop : forall wx : World, wx = w0 ->
    evolves (may_write cfg) (fs w) (fs wx) /\
    (exists evs,
       log wx = log w ++ evs /\
       (forall p, In (EvRead p) evs ->
          strictly_below (source_dir cfg) p /\
          py ".txt" `suffix_of` path_name p) /\
       (forall q s, In (EvWrite q s) evs -> may_write cfg q) /\
       (forall w2, (r0, w0) = (Ok (Some true), w2) ->
          evolves (eq (report_path cfg)) (fs w) (fs wx) /\
          forall q s, In (EvWrite q s) evs -> q = report_path cfg)) /\
    (args_interactive args = false -> stdin wx = stdin w)).
  { intros wx ->. split; [eapply evolves_weaken; [|exact Hev]; intros k []|].
    split; [|exact Hin0].
    exists evs1. split; [congruence|].
    split; [intros p Hp0; exfalso; eauto|].
    split; [intros q s Hq; exfalso; eauto|].
    intros w2 _. split; [eapply evolves_weaken; [|exact Hev]; intros k []|].
    intros q s Hq. exfalso. eauto. }
  destruct r0 as [[dry_run|]|e]; [|now apply Hstop|now apply Hstop].
  clear Hstop. cbn [snd].
  destruct (main_run U (cfg_of args) dry_run w0) as [r w'] eqn:Hr. cbn [snd].
  apply main_run_touches in Hr as (B1 & B2 & evs & B3 & B4 & B5).
  split.
  { eapply evolves_trans;
      [eapply evolves_weaken; [|exact Hev]; intros k []|].
    eapply evolves_weaken; [|exact B2].
    intros k [->|[_ Hk]]; [now left|]. right. now apply is_output_gathered in Hk. }
  split; [|intros Hi; rewrite B1; auto].
  exists (evs1 ++ evs). split; [rewrite B3, Hl0, Hl1; now rewrite app_assoc|].
  split.
  { intros p Hp0. apply in_app_or in Hp0 as [Hp0|Hp0]; [exfalso; eauto|].
    apply B4 in Hp0. apply gather_files_members in Hp0 as (_ & Hb & _ & Hsuf).
    auto. }
  split.
  { intros q s Hq. apply in_app_or in Hq as [Hq|Hq]; [exfalso; eauto|].
    apply B5 in Hq as [->|[_ Hk]]; [now left|].
    right. now apply is_output_gathered in Hk. }
  intros w2 Hw2. inversion Hw2; subst dry_run w2; clear Hw2. split.
  { eapply evolves_trans;
      [eapply evolves_weaken; [|exact Hev]; intros k []|].
    eapply evolves_weaken; [|exact B2].
    intros k [->|[Hk _]]; [reflexivity | discriminate]. }
  intros q s Hq. apply in_app_or in Hq as [Hq|Hq]; [exfalso; eauto|].
  apply B5 in Hq as [->|[Hk _]]; [reflexivity | discriminate].
Qed.

End EntryPointRuns.

Lemma main_output_not_directory_witness :
  main unicodedata EXAMPLE_ROOT output_on_file_args (world_of example_fs [])
  = (Raise FileExistsError,
     {| fs := example_fs; stdin := []; stdout := [];
        log := [EvMkdir [py "proj"; py "data"; py "original_txt"; py "b.txt"]] |}).
Proof.
  apply (main_output_not_directory unicodedata EXAMPLE_ROOT output_on_file_args
           (world_of example_fs []) (File true true (Text [0x3000; 0x61]))).
  - vm_compute. reflexivity.
  - discriminate.
Defined.

Lemma main_interactive_witness :
  fst (main unicodedata EXAMPLE_ROOT (example_args false true)
         (world_of example_fs []))
  = Raise EOFError.
Proof.
  assert (H : ensure_directories
                (config_of_args EXAMPLE_ROOT (example_args false true))
                (world_of example_fs [])
              = (Ok tt, snd (ensure_directories
                               (config_of_args EXAMPLE_ROOT
                                  (example_args false true))
                               (world_of example_fs []))))
    by (apply pair_eq; vm_compute; reflexivity).
  exact (f_equal fst
           (proj1 (main_interactive unicodedata EXAMPLE_ROOT
                     (example_args false true) (world_of example_fs []) _
                     eq_refl H) eq_refl)).
Defined.

Lemma main_outcome_witness :
  exists lines l,
    stdout (snd (main unicodedata EXAMPLE_ROOT (example_args true false)
                   (world_of example_fs [])))
    = BANNER ++ lines ++ [l].
Proof.
  assert (H : main unicodedata EXAMPLE_ROOT (example_args true false)
                (world_of example_fs [])
              = (Ok 0, snd (main unicodedata EXAMPLE_ROOT
                              (example_args true false)
                              (world_of example_fs []))))
    by (apply pair_eq; vm_compute; reflexivity).
  destruct (main_outcome unicodedata EXAMPLE_ROOT (example_args true false)
              (world_of example_fs []) 0 _ H) as (lines & l & Hout & _).
  exists lines, l. exact Hout.
Defined.

Section CompletedRun.

Local Abbreviation args := (example_args false false).
Local Abbreviation w0 :=
  (snd (main_prologue EXAMPLE_ROOT args (world_of report_present_fs []))).
Local Abbreviation batch :=
  (process_files unicodedata
     (gather_files (fs w0) (source_dir (config_of_args EXAMPLE_ROOT args)))
     (config_of_args EXAMPLE_ROOT args) false w0).

Lemma main_completed_witness :
  fst (main unicodedata EXAMPLE_ROOT args (world_of report_present_fs []))
  = Ok 0.
Proof.
  assert (Hp : main_prologue EXAMPLE_ROOT args (world_of report_present_fs [])
               = (Ok (Some false), w0))
    by (apply pair_eq; vm_compute; reflexivity).
  assert (Hb : batch = (Ok (value_of batch empty_report), snd batch))
    by (apply pair_eq; vm_compute; reflexivity).
  assert (H1 : is_dir (fs w0) (source_dir (config_of_args EXAMPLE_ROOT args))
               = true)
    by (vm_compute; reflexivity).
  assert (H2 : gather_files (fs w0)
                 (source_dir (config_of_args EXAMPLE_ROOT args)) <> [])
    by (vm_compute; discriminate).
  assert (H3 : fs (snd batch) !! report_path (config_of_args EXAMPLE_ROOT args)
               = Some (File true true (Text (py "{}"))))
    by (vm_compute; reflexivity).
  assert (H4 : encodable (json_dumps (report_payload
                                        (value_of batch empty_report))))
    by (vm_compute; reflexivity).
  exact (f_equal fst
           (main_completed unicodedata EXAMPLE_ROOT args
              (world_of report_present_fs []) false w0
              (value_of batch empty_report) (snd batch) true (Text (py "{}"))
              Hp H1 H2 Hb H3 H4)).
Defined.

End CompletedRun.

(** [write_text] on a directory or on a file without write permission. *)
Lemma write_text_blocked (p : Path) s w n :
  fs w !! p = Some n -> p <> [] ->
  (n = Dir \/ exists rd d, n = File rd false d) ->
  write_text p s w =
  (Raise match n with Dir => IsADirectoryError | _ => PermissionError end,
   {| fs := fs w; stdin := stdin w; stdout := stdout w;
      log := log w ++ [EvWrite p s] |}).
Proof.
  intros Hn Hne Hk. unfold write_text. rewrite bind_eq. unfold log_event.
  rewrite bind_eq. unfold get_fs. cbn [fs].
  rewrite (node_at_lookup _ _ Hne), Hn.
  destruct Hk as [->|(rd & d & ->)]; reflexivity.
Qed.

Section EntryPointReport.

Context (U : Unicodedata) (PROJECT_ROOT : Path).

Local Abbreviation cfg_of := (config_of_args PROJECT_ROOT).

(** X18. A report that cannot be written fails the run at its very end. When
    the batch ends well but the path of the report is a directory, or a file
    without write permission, [main] ends with the error of the write
    ([IsADirectoryError], [PermissionError]) and prints no closing line; the
    filesystem is the one the batch left, outputs included. *)
Theorem main_report_unwritable args w dry_run w0 report w1 n :
  let cfg := cfg_of args in
  main_prologue PROJECT_ROOT args w = (Ok (Some dry_run), w0) ->
  is_dir (fs w0) (source_dir cfg) = true ->
  gather_files (fs w0) (source_dir cfg) <> [] ->
  process_files U (gather_files (fs w0) (source_dir cfg)) cfg dry_run w0
  = (Ok report, w1) ->
  fs w1 !! report_path cfg = Some n ->
  (n = Dir \/ exists rd d, n = File rd false d) ->
  main U PROJECT_ROOT args w =
  (Raise match n with Dir => IsADirectoryError | _ => PermissionError end,
   {| fs := fs w1; stdin := stdin w0; stdout := stdout w0;
      log := log w1 ++ [EvWrite (report_path cfg)
                          (json_dumps (report_payload report))] |}).
Proof.
  intros cfg Hp Hd Hg Hb Hn Hk.
  rewrite main_eq, Hp. rewrite main_run_batch by assumption.
  rewrite bind_eq. fold cfg. rewrite Hb. rewrite bind_eq.
  unfold write_report. cbv zeta.
  rewrite (write_text_blocked _ _ _ n Hn (report_path_ne PROJECT_ROOT args) Hk).
  apply process_files_frame in Hb as (A1 & A2 & _).
  now rewrite A1, A2.
Qed.

End EntryPointReport.

Section BlockedRun.

Local Abbreviation args := (example_args false false).
Local Abbreviation w0 :=
  (snd (main_prologue EXAMPLE_ROOT args (world_of report_blocked_fs []))).
Local Abbreviation batch :=
  (process_files unicodedata
     (gather_files (fs w0) (source_dir (config_of_args EXAMPLE_ROOT args)))
     (config_of_args EXAMPLE_ROOT args) false w0).

Lemma main_report_unwritable_witness :
  fst (main unicodedata EXAMPLE_ROOT args (world_of report_blocked_fs []))
  = Raise IsADirectoryError.
Proof.
  assert (Hp : main_prologue EXAMPLE_ROOT args (world_of report_blocked_fs [])
               = (Ok (Some false), w0))
    by (apply pair_eq; vm_compute; reflexivity).
  assert (Hb : batch = (Ok (value_of batch empty_report), snd batch))
    by (apply pair_eq; vm_compute; reflexivity).
  assert (H1 : is_dir (fs w0) (source_dir (config_of_args EXAMPLE_ROOT args))
               = true)
    by (vm_compute; reflexivity).
  assert (H2 : gather_files (fs w0)
                 (source_dir (config_of_args EXAMPLE_ROOT args)) <> [])
    by (vm_compute; discriminate).
  assert (H3 : fs (snd batch) !! report_path (config_of_args EXAMPLE_ROOT args)
               = Some Dir)
    by (vm_compute; reflexivity).
  exact (f_equal fst
           (main_report_unwritable unicodedata EXAMPLE_ROOT args
              (world_of report_blocked_fs []) false w0
              (value_of batch empty_report) (snd batch) Dir
              Hp H1 H2 Hb H3 (or_introl eq_refl))).
Defined.

End BlockedRun.

(** ** Discovery, further *)

Lemma gather_files_sorted f source_dir :
  StronglySorted path_le (gather_files f source_dir).
Proof. unfold gather_files. apply StronglySorted_merge_sort; apply _. Qed.

Lemma gather_files_NoDup f source_dir : NoDup (gather_files f source_dir).
Proof.
  unfold gather_files. rewrite merge_sort_Permutation.
  apply NoDup_ListNoDup, List.NoDup_filter, List.NoDup_filter.
  apply NoDup_ListNoDup. apply NoDup_fst_map_to_list.
Qed.

Lemma is_dir_agree (f f' : gmap Path node) (d : Path) :
  f' !! d = f !! d -> is_dir f' d = is_dir f d.
Proof.
  intros H. unfold is_dir. destruct d as [|x d]; [reflexivity|].
  now rewrite !node_at_cons, H.
Qed.

(** Discovery looks at the source directory and below it, nowhere else. *)
Lemma gather_files_local (f f' : gmap Path node) (source_dir : Path) :
  (forall k, source_dir `prefix_of` k -> f' !! k = f !! k) ->
  gather_files f' source_dir = gather_files f source_dir.
Proof.
  intros Hagree.
  apply (StronglySorted_unique path_le);
    [apply gather_files_sorted | apply gather_files_sorted|].
  apply NoDup_Permutation; [apply gather_files_NoDup | apply gather_files_NoDup|].
  intros p. rewrite !list_elem_of_In, !gather_files_members.
  assert (Hreach : strictly_below source_dir p ->
            (reachable f' source_dir p <-> reachable f source_dir p)).
  { intros _. unfold reachable.
    split; intros H d H1 H2 H3;
      [rewrite <- (is_dir_agree f f' d) | rewrite (is_dir_agree f f' d)];
      auto. }
  split; intros (H1 & H2 & H3 & H4).
  - rewrite <- (Hagree p) by apply H2. repeat split; try tauto; apply H2.
  - rewrite (Hagree p) by apply H2. repeat split; try tauto; apply H2.
Qed.

(** X19. [gather_files] on a path that is not a directory finds nothing: a
    source directory that is absent, or a file, gives the empty list and no
    error. *)
Theorem gather_files_not_directory (f : gmap Path node) (source_dir : Path) :
  is_dir f source_dir = false -> gather_files f source_dir = [].
Proof.
  intros Hd. destruct (gather_files f source_dir) as [|p l] eqn:E;
    [reflexivity|].
  assert (Hp : In p (gather_files f source_dir)) by (rewrite E; now left).
  apply gather_files_members in Hp as (_ & [Hpre Hne] & Hr & _).
  rewrite (Hr source_dir) in Hd; [discriminate|reflexivity|exact Hpre|exact Hne].
Qed.

Lemma gather_files_not_directory_witness :
  gather_files example_fs [py "proj"; py "elsewhere"] = [] /\
  gather_files example_fs [py "proj"; py "data"; py "original_txt"; py "b.txt"]
  = [].
Proof.
  split; apply gather_files_not_directory; vm_compute; reflexivity.
Defined.

(** ** Where a run leaves its marks *)

Lemma agree_outside_refl P f : agree_outside P f f.
Proof. intros k. now left. Qed.

Lemma agree_outside_weaken (P Q : Path -> Prop) f f' :
  (forall k, P k -> Q k) -> agree_outside P f f' -> agree_outside Q f f'.
Proof. intros HPQ H k. destruct (H k); auto. Qed.

Lemma agree_outside_trans P f1 f2 f3 :
  agree_outside P f1 f2 -> agree_outside P f2 f3 -> agree_outside P f1 f3.
Proof.
  intros H12 H23 k. destruct (H12 k) as [A|A]; [|now right].
  destruct (H23 k) as [B|B]; [left; congruence | now right].
Qed.

Lemma creates_dirs_agree D f f' : creates_dirs D f f' -> agree_outside D f f'.
Proof. intros H k. destruct (H k) as [A|(A & _)]; auto. Qed.

Lemma write_text_agree (p : Path) s w r w' :
  write_text p s w = (r, w') -> agree_outside (eq p) (fs w) (fs w').
Proof.
  intros H. apply write_text_spec in H as (_ & _ & _ & H).
  destruct H as [(_ & _ & _ & rd & ->)|(e & _ & ->)];
    [|apply agree_outside_refl].
  intros k. destruct (decide (p = k)) as [->|Hne]; [now right|].
  left. now rewrite lookup_insert_ne.
Qed.

Section Marks.

Context (U : Unicodedata).

(** One turn changes the filesystem on the way to its output path only. *)
Lemma process_file_agree p cfg dry_run acc w r w' :
  process_file U p cfg dry_run acc w = (r, w') ->
  agree_outside
    (fun k => exists out, output_path_of cfg p = Some out /\ k `prefix_of` out)
    (fs w) (fs w').
Proof.
  intros H. unfold process_file in H.
  apply bind_inv in H as [(content & w1 & H1 & H)|(e & H1 & ->)];
    apply read_text_spec in H1 as (A1 & _);
    [|rewrite A1; apply agree_outside_refl].
  cbv zeta in H.
  apply bind_inv in H as [(rel & w1' & H2 & H)|(e & H2 & ->)];
    apply relative_to_or_raise_inv in H2 as [-> [(rel0 & Hr & Heq)|[Hr Heq]]];
    try discriminate; [|rewrite A1; apply agree_outside_refl].
  inversion Heq; subst rel0; clear Heq.
  assert (Hout : output_path_of cfg p = Some (joinpath (output_dir cfg) rel))
    by (unfold output_path_of; now rewrite Hr).
  assert (Hw : forall r3 w3,
            (if negb dry_run
             then rel' ← relative_to_or_raise p (source_dir cfg);
                  let output_path := joinpath (output_dir cfg) rel' in
                  mkdir_parents_exist_ok (parent output_path) ;;
                  write_text output_path (normalise_text U content)
             else mret tt) w1 = (r3, w3) ->
            agree_outside
              (fun k => exists out, output_path_of cfg p = Some out
                                    /\ k `prefix_of` out)
              (fs w) (fs w3)).
  { intros r3 w3 H3. rewrite <- A1. destruct dry_run; simpl in H3.
    - apply ret_inv in H3 as [_ ->]. apply agree_outside_refl.
    - apply bind_inv in H3 as [(rel' & w4 & H4 & H5)|(e & H4 & ->)];
        apply relative_to_or_raise_inv in H4
          as [-> [(rel0 & Hr0 & Heq)|[Hr0 Heq]]];
        try congruence.
      assert (rel' = rel) by congruence. subst rel'. cbv zeta in H5.
      assert (Hmk : forall r5 w5,
                mkdir_parents_exist_ok
                  (parent (joinpath (output_dir cfg) rel)) w1 = (r5, w5) ->
                agree_outside
                  (fun k => exists out, output_path_of cfg p = Some out
                                        /\ k `prefix_of` out)
                  (fs w1) (fs w5)).
      { intros r5 w5 H6. apply mkdir_parents_exist_ok_creates in H6.
        apply creates_dirs_agree in H6.
        eapply agree_outside_weaken; [|exact H6].
        intros k Hk. exists (joinpath (output_dir cfg) rel).
        split; [exact Hout|]. etransitivity; [exact Hk|].
        unfold parent. generalize (joinpath (output_dir cfg) rel). intros l.
        destruct l as [|x l _] using rev_ind; [reflexivity|].
        rewrite removelast_last. now apply prefix_app_r. }
      apply bind_inv in H5 as [([] & w5 & H5 & H6)|(e & H5 & ->)];
        [|now apply Hmk in H5].
      apply Hmk in H5. apply write_text_agree in H6.
      eapply agree_outside_trans; [exact H5|].
      eapply agree_outside_weaken; [|exact H6].
      intros k <-. eauto. }
  apply bind_inv in H as [([] & w2 & H3 & H)|(e & H3 & ->)].
  - apply ret_inv in H as [_ ->]. eapply Hw; eauto.
  - eapply Hw; eauto.
Qed.

Lemma process_loop_agree paths : forall cfg dry_run acc w r w',
  process_loop U paths cfg dry_run acc w = (r, w') ->
  agree_outside
    (fun k => exists p out, In p paths /\ output_path_of cfg p = Some out
                            /\ k `prefix_of` out)
    (fs w) (fs w').
Proof.
  induction paths as [|p paths IH]; intros cfg dry_run acc w r w' H.
  - apply ret_inv in H as [_ ->]. apply agree_outside_refl.
  - rewrite process_loop_cons in H.
    destruct (process_file U p cfg dry_run acc w) as [[acc1|e] w1] eqn:E;
      apply process_file_agree in E.
    + apply IH in H. eapply agree_outside_trans.
      * eapply agree_outside_weaken; [|exact E].
        intros k (out & H1 & H2). exists p, out. split; [now left | auto].
      * eapply agree_outside_weaken; [|exact H].
        intros k (q & out & H1 & H2). exists q, out. split; [now right | auto].
    + inversion H; subst. eapply agree_outside_weaken; [|exact E].
      intros k (out & H1 & H2). exists p, out. split; [now left | auto].
Qed.

Lemma output_on_line cfg p out k :
  output_path_of cfg p = Some out -> k `prefix_of` out -> on_output_line cfg k.
Proof.
  intros Hout Hk. unfold output_path_of in Hout.
  destruct (relative_to p (source_dir cfg)) as [rel|]; [|discriminate].
  inversion Hout; subst out.
  apply (prefix_weak_total _ _ (joinpath (output_dir cfg) rel));
    [exact Hk | now apply prefix_app_r].
Qed.

Lemma main_run_agree cfg dry_run w r w' :
  output_dir cfg `prefix_of` report_path cfg ->
  main_run U cfg dry_run w = (r, w') ->
  agree_outside (on_output_line cfg) (fs w) (fs w').
Proof.
  intros Hrp H.
  destruct (is_dir (fs w) (source_dir cfg)) eqn:Hd.
  2:{ rewrite main_run_missing in H by exact Hd. inversion H; subst.
      apply agree_outside_refl. }
  destruct (decide (gather_files (fs w) (source_dir cfg) = [])) as [Hg|Hg].
  { rewrite main_run_empty in H by assumption. inversion H; subst.
    apply agree_outside_refl. }
  assert (Hbatch : forall r1 w1,
            process_files U (gather_files (fs w) (source_dir cfg)) cfg dry_run w
            = (r1, w1) ->
            agree_outside (on_output_line cfg) (fs w) (fs w1)).
  { intros r1 w1 H1.
    apply process_files_inv in H1 as [(reports & H1 & _)|(e & H1 & _)];
      apply process_loop_agree in H1;
      (eapply agree_outside_weaken; [|exact H1]);
      intros k (p & out & _ & H2 & H3); eapply output_on_line; eauto. }
  assert (Hwrite : forall report r2 w1 w2,
            write_report report cfg w1 = (r2, w2) ->
            agree_outside (on_output_line cfg) (fs w1) (fs w2)).
  { intros report r2 w1 w2 H2. unfold write_report in H2.
    apply write_text_agree in H2.
    eapply agree_outside_weaken; [|exact H2]. intros k <-. now right. }
  apply main_run_batch_inv in H; [|exact Hd|exact Hg].
  destruct H as [(e & H1 & _)|[(report & w1 & e & H1 & H2 & _)
                               |(report & w1 & w2 & H1 & H2 & _ & ->)]].
  - eapply Hbatch; eauto.
  - eapply agree_outside_trans; [eapply Hbatch|eapply Hwrite]; eauto.
  - cbn [fs].
    eapply agree_outside_trans; [eapply Hbatch|eapply Hwrite]; eauto.
Qed.

End Marks.

(** When neither directory contains the other, no path of the source
    tree is on the line of the output directory. *)
Lemma separate_off_line cfg k :
  separate cfg -> source_dir cfg `prefix_of` k -> ~ on_output_line cfg k.
Proof.
  intros [H1 H2] Hk [H|H].
  - apply H1. now transitivity k.
  - destruct (prefix_weak_total _ _ _ Hk H); contradiction.
Qed.

Section MarksOfMain.

Context (U : Unicodedata) (PROJECT_ROOT : Path).

Local Abbreviation cfg_of := (config_of_args PROJECT_ROOT).

Lemma main_agree args w :
  agree_outside (on_output_line (cfg_of args))
    (fs w) (fs (snd (main U PROJECT_ROOT args w))).
Proof.
  assert (Hrp : output_dir (cfg_of args) `prefix_of` report_path (cfg_of args)).
  { rewrite report_in_output_dir. now apply prefix_app_r. }
  assert (Hpar : parent (report_path (cfg_of args)) = output_dir (cfg_of args)).
  { rewrite report_in_output_dir. unfold parent, joinpath.
    apply removelast_last. }
  rewrite main_eq, main_prologue_eq.
  destruct (ensure_directories (cfg_of args) w) as [r1 w1] eqn:He.
  assert (Hset : agree_outside (on_output_line (cfg_of args)) (fs w) (fs w1)).
  { assert (Hc := He). apply ensure_directories_dirs in Hc.
    apply creates_dirs_agree in Hc.
    eapply agree_outside_weaken; [|exact Hc].
    intros k [Hk|Hk]; left; [exact Hk | now rewrite <- Hpar]. }
  destruct r1 as [[]|e]; [|exact Hset].
  assert (Hrun : forall dry_run lines input,
            agree_outside (on_output_line (cfg_of args)) (fs w)
              (fs (snd (main_run U (cfg_of args) dry_run
                          (console w1 input lines))))).
  { intros dry_run lines input.
    destruct (main_run U (cfg_of args) dry_run (console w1 input lines))
      as [r w'] eqn:Hr.
    apply main_run_agree in Hr; [|exact Hrp].
    eapply agree_outside_trans; [exact Hset | exact Hr]. }
  destruct (args_interactive args); [|apply Hrun].
  destruct (stdin w1) as [|a1 rest1]; [exact Hset|].
  destruct (answer_value true a1); [|exact Hset].
  destruct rest1 as [|a2 rest]; [exact Hset | apply Hrun].
Qed.

End MarksOfMain.

Section MarksTheorems.

Context (U : Unicodedata) (PROJECT_ROOT : Path).

Local Abbreviation cfg_of := (config_of_args PROJECT_ROOT).

(** X20. A run of [main], however it ends, changes the filesystem on the line
    of the output directory only: every entry that is not the output
    directory, a directory above it or something below it is after the run
    what it was before. *)
Theorem main_stays_on_output_line args w :
  let cfg := cfg_of args in
  let w' := snd (main U PROJECT_ROOT args w) in
  forall k,
    fs w' !! k = fs w !! k
    \/ k `prefix_of` output_dir cfg \/ output_dir cfg `prefix_of` k.
Proof. intros cfg w' k. apply (main_agree U PROJECT_ROOT args w k). Qed.

(** X21. When neither of the source and output directories is the other or
    lies in the other, the two trees are kept apart: no output path of a
    discovered file is itself a discovered file, and a run of [main], however
    it ends, leaves every entry of the source tree as it was, so that
    discovery after the run finds what it found before. *)
Theorem separate_trees args w :
  separate (cfg_of args) ->
  let cfg := cfg_of args in
  let w' := snd (main U PROJECT_ROOT args w) in
  (forall f, no_alias cfg (gather_files f (source_dir cfg))) /\
  (forall k, source_dir cfg `prefix_of` k -> fs w' !! k = fs w !! k) /\
  gather_files (fs w') (source_dir cfg) = gather_files (fs w) (source_dir cfg).
Proof.
  intros Hsep cfg w'.
  assert (Hkeep : forall k, source_dir cfg `prefix_of` k ->
                            fs w' !! k = fs w !! k).
  { intros k Hk. destruct (main_agree U PROJECT_ROOT args w k) as [A|A];
      [exact A|].
    exfalso. eapply separate_off_line; eauto. }
  split; [|split; [exact Hkeep | now apply gather_files_local]].
  intros f p q Hp Hq Hout.
  apply gather_files_members in Hq as (_ & [Hq _] & _).
  apply (separate_off_line cfg q Hsep Hq).
  eapply output_on_line; [exact Hout | reflexivity].
Qed.

End MarksTheorems.

Lemma separate_trees_witness :
  gather_files
    (fs (snd (main unicodedata EXAMPLE_ROOT (example_args false false)
                (world_of example_fs []))))
    (source_dir (config_of_args EXAMPLE_ROOT (example_args false false)))
  = gather_files (fs (world_of example_fs []))
      (source_dir (config_of_args EXAMPLE_ROOT (example_args false false))).
Proof.
  apply (separate_trees unicodedata EXAMPLE_ROOT (example_args false false)
           (world_of example_fs [])).
  split; apply (bool_decide_eq_false_1 _); vm_compute; reflexivity.
Defined.

(** ** The report document, further *)

Lemma escape_char_plain c : plain c -> escape_char c = [c].
Proof.
  intros (H1 & H2 & H3). unfold escape_char.
  repeat match goal with
         | |- context [?a =? ?b] => destruct (Z.eqb_spec a b); [lia|]
         end.
  destruct (Z.ltb_spec c 0x20); [lia|]. now rewrite andb_false_r.
Qed.

Lemma encode_basestring_plain s :
  Forall plain s -> encode_basestring s = [0x22] ++ s ++ [0x22].
Proof.
  intros H. unfold encode_basestring. do 2 f_equal.
  induction H as [|c s Hc _ IH]; [reflexivity|].
  cbn [flat_map]. now rewrite escape_char_plain, IH.
Qed.

Lemma contains_refl s : contains s s.
Proof. exists [], []. now rewrite app_nil_r. Qed.

Lemma contains_app_l s t u : contains s t -> contains s (u ++ t).
Proof.
  intros (pre & post & ->). exists (u ++ pre), post. now rewrite <- app_assoc.
Qed.

Lemma contains_app_r s t u : contains s t -> contains s (t ++ u).
Proof.
  intros (pre & post & ->). exists pre, (post ++ u). now rewrite <- !app_assoc.
Qed.

Lemma contains_cons s t c : contains s t -> contains s (c :: t).
Proof. intros H. now apply (contains_app_l s t [c]). Qed.

Lemma contains_items enc sep v l s :
  In v l -> contains s (enc v) -> contains s (encode_items enc sep l).
Proof.
  intros Hin Hs. induction l as [|y l IH]; [contradiction|].
  rewrite encode_items_cons. apply contains_cons, contains_app_l.
  destruct Hin as [->|Hin].
  - now apply contains_app_r.
  - apply contains_app_l. now apply IH.
Qed.

Lemma contains_array level v l s :
  In v l -> (forall n, contains s (iterencode n v)) ->
  contains s (iterencode level (JArray l)).
Proof.
  intros Hin Hs. destruct l as [|x l]; [contradiction|].
  rewrite iterencode_array. apply contains_cons, contains_app_l.
  destruct Hin as [->|Hin].
  - apply contains_app_r, Hs.
  - apply contains_app_l, contains_app_r.
    eapply contains_items; [exact Hin | apply Hs].
Qed.

Lemma contains_path_member item n :
  Forall plain (path item) ->
  contains (path_member (path item)) (iterencode n (asdict item)).
Proof.
  intros Hp. unfold asdict. rewrite iterencode_object.
  apply contains_cons, contains_app_l.
  change (iterencode (S n) (JString (path item)))
    with (encode_basestring (path item)).
  rewrite (encode_basestring_plain (path item)) by exact Hp.
  change (encode_basestring (py "path")) with ([0x22] ++ py "path" ++ [0x22]).
  exists [], (encode_members (iterencode (S n)) (newline_indent (S n))
                [(py "changed", JBool (changed item));
                 (py "characters_before", JInt (characters_before item));
                 (py "characters_after", JInt (characters_after item))]
              ++ newline_indent n ++ [0x7D]).
  unfold path_member.
  change (py "path") with [0x70; 0x61; 0x74; 0x68].
  change (py ": ") with [0x3A; 0x20].
  cbn [app]. repeat rewrite <- app_assoc. cbn [app]. reflexivity.
Qed.

(** X22. Characters that need no escape are written as they are, whether ASCII
    or not: the relative path of every file stands in the report document as
    the member ["path": "..."] with the very characters of the path between
    the quotes. *)
Theorem report_paths_literal report item :
  In item (files report) ->
  Forall plain (path item) ->
  json_dumps (JString (path item)) = [0x22] ++ path item ++ [0x22] /\
  contains (path_member (path item)) (json_dumps (report_payload report)).
Proof.
  intros Hin Hp. split; [now apply encode_basestring_plain|].
  unfold json_dumps, report_payload. rewrite iterencode_object.
  apply contains_cons, contains_app_l, contains_app_l, contains_app_l,
    contains_app_l, contains_app_r.
  rewrite !encode_members_cons.
  apply contains_cons, contains_app_l, contains_app_l, contains_app_l,
    contains_app_l.
  apply contains_cons, contains_app_l, contains_app_l, contains_app_l,
    contains_app_l.
  apply contains_cons, contains_app_l, contains_app_l, contains_app_l,
    contains_app_r.
  apply (contains_array 1 (asdict item)).
  - now apply in_map.
  - intros n. now apply contains_path_member.
Qed.

Lemma report_paths_literal_witness :
  contains (path_member [0x4E2D; 0x6587; 0x2E; 0x74; 0x78; 0x74])
    (json_dumps (report_payload chinese_report)).
Proof.
  apply (report_paths_literal chinese_report
           {| path := [0x4E2D; 0x6587; 0x2E; 0x74; 0x78; 0x74];
              changed := false;
              characters_before := 12;
              characters_after := 12 |}).
  - left. reflexivity.
  - unfold plain. repeat constructor; simpl; lia.
Defined.

(** ** A second run *)

Section Again.

Context (U : Unicodedata).

Lemma write_text_same (p : Path) s w rd :
  p <> [] -> fs w !! p = Some (File rd true (Text s)) ->
  write_text p s w =
  (Ok tt, {| fs := fs w; stdin := stdin w; stdout := stdout w;
             log := log w ++ [EvWrite p s] |}).
Proof.
  intros Hne Hp. unfold write_text. rewrite bind_eq. unfold log_event.
  rewrite bind_eq. unfold get_fs. cbn [fs].
  rewrite (node_at_lookup _ _ Hne), Hp. unfold put_fs. cbn [fs stdin stdout log].
  now rewrite insert_id by exact Hp.
Qed.

(** A turn over a file whose output is in place writes what is there. *)
Lemma process_file_settled p cfg acc w entry :
  settled U cfg (fs w) p entry ->
  exists evs,
    process_file U p cfg false acc w =
    (Ok (acc ++ [entry]),
     {| fs := fs w; stdin := stdin w; stdout := stdout w;
        log := log w ++ evs |}).
Proof.
  intros (content & wr & rel & rd & Hn & Hr & Hrel & Hd & Hout & ->).
  assert (Hne : joinpath (output_dir cfg) rel <> []).
  { unfold joinpath. intros E. apply app_eq_nil in E as [_ E]. contradiction. }
  exists [EvRead p; EvMkdir (parent (joinpath (output_dir cfg) rel));
          EvWrite (joinpath (output_dir cfg) rel) (normalise_text U content)].
  unfold process_file, read_text, relative_to_or_raise. munfold.
  cbn [fs]. rewrite Hn. cbv zeta. rewrite Hr. cbn [negb].
  rewrite mkdir_parents_exist_ok_existing by exact Hd.
  rewrite (write_text_same _ _ _ rd) by (assumption || exact Hout).
  cbn [fs stdin stdout log]. rewrite <- !app_assoc. reflexivity.
Qed.

(** A loop over files whose outputs are in place. *)
Lemma process_loop_settled paths : forall cfg acc w entries,
  Forall2 (settled U cfg (fs w)) paths entries ->
  exists evs,
    process_loop U paths cfg false acc w =
    (Ok (acc ++ entries),
     {| fs := fs w; stdin := stdin w; stdout := stdout w;
        log := log w ++ evs |}).
Proof.
  induction paths as [|p paths IH]; intros cfg acc w entries H.
  - apply Forall2_nil_inv_l in H as ->. exists [].
    rewrite !app_nil_r. unfold process_loop, mret, M_ret. now destruct w.
  - apply Forall2_cons_inv_l in H as (entry & rest & H1 & H2 & ->).
    destruct (process_file_settled p cfg acc w entry H1) as [evs1 E1].
    rewrite process_loop_cons, E1.
    destruct (IH cfg (acc ++ [entry])
                {| fs := fs w; stdin := stdin w; stdout := stdout w;
                   log := log w ++ evs1 |} rest H2) as [evs2 E2].
    exists (evs1 ++ evs2). rewrite E2. cbn [fs stdin stdout log].
    now rewrite <- !app_assoc.
Qed.

(** A dry loop over files that can be read. *)
Lemma process_loop_readable paths : forall cfg acc w entries,
  Forall2 (readable U cfg (fs w)) paths entries ->
  process_loop U paths cfg true acc w =
  (Ok (acc ++ entries),
   {| fs := fs w; stdin := stdin w; stdout := stdout w;
      log := log w ++ map EvRead paths |}).
Proof.
  induction paths as [|p paths IH]; intros cfg acc w entries H.
  - apply Forall2_nil_inv_l in H as ->.
    rewrite !app_nil_r. unfold process_loop, mret, M_ret. now destruct w.
  - apply Forall2_cons_inv_l in H as (entry & rest & H1 & H2 & ->).
    destruct H1 as (content & wr & rel & Hn & Hr & ->).
    rewrite process_loop_cons.
    rewrite (process_file_dry U p cfg acc w wr content rel Hn Hr).
    rewrite (IH cfg (acc ++ [expected_report U content rel])
               {| fs := fs w; stdin := stdin w; stdout := stdout w;
                  log := log w ++ [EvRead p] |} rest H2).
    cbn [fs stdin stdout log map].
    now rewrite <- !app_assoc.
Qed.

End Again.

Section AgainBatch.

Context (U : Unicodedata).

(** With the two trees apart a loop leaves the source tree as it is. *)
Lemma process_loop_source paths cfg dry_run acc w r w' :
  separate cfg ->
  process_loop U paths cfg dry_run acc w = (r, w') ->
  forall k, source_dir cfg `prefix_of` k -> fs w' !! k = fs w !! k.
Proof.
  intros Hsep H k Hk. apply process_loop_agree in H.
  destruct (H k) as [A|(p & out & _ & H1 & H2)]; [exact A|].
  exfalso. apply (separate_off_line cfg k Hsep Hk).
  eapply output_on_line; eauto.
Qed.

Lemma node_at_agree (f f' : gmap Path node) (p : Path) :
  f' !! p = f !! p -> node_at f' p = node_at f p.
Proof. intros H. destruct p; [reflexivity | exact H]. Qed.

(** After a batch over discovered files that ended well, and after the
    report was written, every file can still be read as the batch read it,
    and after a real batch its output is in place. *)
Lemma batch_settles f cfg dry_run w0 report w1 f2 :
  separate cfg ->
  path_name (report_path cfg) = py "report.json" ->
  output_dir cfg `prefix_of` report_path cfg ->
  process_files U (gather_files f (source_dir cfg)) cfg dry_run w0
  = (Ok report, w1) ->
  agree_outside (eq (report_path cfg)) (fs w1) f2 ->
  (forall d, is_dir (fs w1) d = true -> is_dir f2 d = true) ->
  report = {| report_source_dir := path_str (source_dir cfg);
              report_output_dir := path_str (output_dir cfg);
              report_dry_run := dry_run;
              files := files report |} /\
  Forall2 (readable U cfg f2) (gather_files f (source_dir cfg)) (files report) /\
  (dry_run = false ->
   Forall2 (settled U cfg f2) (gather_files f (source_dir cfg)) (files report)).
Proof.
  intros Hsep Hname Hrp H Hf2 Hdirs.
  set (paths := gather_files f (source_dir cfg)) in *.
  apply process_files_inv in H as [(reports & H & Hr)|(e & _ & Hr)];
    [|discriminate].
  inversion Hr; subst report; clear Hr. cbn [files].
  split; [reflexivity|].
  assert (Hlen : length paths = length reports).
  { apply process_loop_length in H. simpl in H. symmetry. exact H. }
  assert (Hoff : forall k, source_dir cfg `prefix_of` k -> k <> report_path cfg).
  { intros k Hk ->. apply (separate_off_line cfg _ Hsep Hk). right. exact Hrp. }
  assert (Hsrc : forall k, source_dir cfg `prefix_of` k -> f2 !! k = fs w0 !! k).
  { intros k Hk. destruct (Hf2 k) as [A|A]; [|exfalso; apply (Hoff k Hk); now symmetry].
    rewrite A. eapply process_loop_source; eauto. }
  assert (Hcore : forall i p entry, paths !! i = Some p -> reports !! i = Some entry ->
            exists acc_i w_i content wr rel,
              process_loop U (take i paths) cfg dry_run [] w0 = (Ok acc_i, w_i) /\
              node_at (fs w_i) p = Some (File true wr (Text content)) /\
              node_at f2 p = Some (File true wr (Text content)) /\
              relative_to p (source_dir cfg) = Some rel /\ rel <> [] /\
              entry = expected_report U content rel).
  { intros i p entry Hi He.
    destruct (process_loop_entries U paths cfg dry_run [] w0 reports w1 H i p Hi)
      as (acc_i & w_i & content & wr & rel & G1 & G2 & G3 & G4).
    simpl in G4. rewrite He in G4. inversion G4; subst entry.
    assert (Hp : In p paths).
    { apply list_elem_of_In. eapply list_elem_of_lookup_2; eauto. }
    apply gather_files_members in Hp as (_ & [Hpre Hne] & _).
    exists acc_i, w_i, content, wr, rel.
    split; [exact G1|]. split; [exact G2|]. split; [|split; [exact G3|split]].
    - rewrite <- G2. apply node_at_agree. rewrite (Hsrc p Hpre). symmetry.
      eapply process_loop_source; eauto.
    - intros ->. apply relative_to_Some in G3. rewrite app_nil_r in G3.
      congruence.
    - reflexivity. }
  split.
  - apply Forall2_same_length_lookup_2; [exact Hlen|].
    intros i p entry Hi He.
    destruct (Hcore i p entry Hi He)
      as (_ & _ & content & wr & rel & _ & _ & G2 & G3 & _ & G5).
    exists content, wr, rel. auto.
  - intros ->. apply Forall2_same_length_lookup_2; [exact Hlen|].
    intros i p entry Hi He.
    destruct (Hcore i p entry Hi He)
      as (acc_i & w_i & content & wr & rel & G1 & G1' & G2 & G3 & G4 & G5).
    destruct (process_loop_outputs U paths cfg [] w0 reports w1
                (gather_files_NoDup _ _) H i p Hi)
      as (acc_j & w_j & content' & wr' & rel' & rd & K1 & K2 & K3 & K4 & K5).
    rewrite G1 in K1. inversion K1; subst acc_j w_j.
    rewrite G1' in K2. inversion K2; subst content' wr'.
    rewrite G3 in K3. inversion K3; subst rel'.
    exists content, wr, rel, rd.
    split; [exact G2|]. split; [exact G3|]. split; [exact G4|].
    split; [now apply Hdirs|]. split; [|exact G5].
    destruct (Hf2 (joinpath (output_dir cfg) rel)) as [A|A]; [now rewrite A|].
    exfalso.
    assert (Hp : In p paths).
    { apply list_elem_of_In. eapply list_elem_of_lookup_2; eauto. }
    apply (output_not_report f cfg p Hp Hname).
    unfold output_path_of. rewrite G3. now rewrite A.
Qed.

End AgainBatch.

Section AgainRun.

Context (U : Unicodedata).

Lemma write_report_agree report cfg w r w' :
  write_report report cfg w = (r, w') ->
  agree_outside (eq (report_path cfg)) (fs w) (fs w').
Proof. unfold write_report. apply write_text_agree. Qed.

(** A batch over files that are settled, or that can be read in a dry
    run, gives their entries and leaves the filesystem as it is. *)
Lemma process_files_settled paths cfg dry_run w entries :
  Forall2 (readable U cfg (fs w)) paths entries ->
  (dry_run = false -> Forall2 (settled U cfg (fs w)) paths entries) ->
  exists w1,
    process_files U paths cfg dry_run w =
    (Ok {| report_source_dir := path_str (source_dir cfg);
           report_output_dir := path_str (output_dir cfg);
           report_dry_run := dry_run;
           files := entries |}, w1) /\
    fs w1 = fs w /\ stdin w1 = stdin w /\ stdout w1 = stdout w.
Proof.
  intros Hread Hset. unfold process_files. rewrite bind_eq.
  destruct dry_run.
  - rewrite (process_loop_readable U paths cfg [] w entries Hread).
    eexists. split; [reflexivity|]. auto.
  - destruct (process_loop_settled U paths cfg [] w entries (Hset eq_refl))
      as [evs ->].
    eexists. split; [reflexivity|]. auto.
Qed.

(** [main_run] over the filesystem that a run of it left does the same
    again and leaves that filesystem as it is. *)
Lemma main_run_again cfg dry_run w0 code w' wb :
  separate cfg ->
  path_name (report_path cfg) = py "report.json" ->
  output_dir cfg `prefix_of` report_path cfg ->
  main_run U cfg dry_run w0 = (Ok code, w') ->
  fs wb = fs w' ->
  exists w'', main_run U cfg dry_run wb = (Ok code, w'') /\ fs w'' = fs wb.
Proof.
  intros Hsep Hname Hrp H Hwb.
  destruct (is_dir (fs w0) (source_dir cfg)) eqn:Hd.
  2:{ rewrite main_run_missing in H by exact Hd. inversion H; subst.
      cbn [fs] in Hwb. rewrite main_run_missing by now rewrite Hwb.
      eexists. split; reflexivity. }
  destruct (decide (gather_files (fs w0) (source_dir cfg) = [])) as [Hg|Hg].
  { rewrite main_run_empty in H by assumption. inversion H; subst.
    cbn [fs] in Hwb. rewrite main_run_empty by now rewrite Hwb.
    eexists. split; reflexivity. }
  assert (Hagree := H). apply main_run_agree in Hagree; [|exact Hrp].
  assert (Hsame : gather_files (fs wb) (source_dir cfg)
                  = gather_files (fs w0) (source_dir cfg)).
  { apply gather_files_local. intros k Hk. rewrite Hwb.
    destruct (Hagree k) as [A|A]; [exact A|].
    exfalso. now apply (separate_off_line cfg k Hsep Hk). }
  assert (Hfr := H). apply main_run_frame in Hfr as (Hev & _).
  assert (Hdb : is_dir (fs wb) (source_dir cfg) = true).
  { rewrite Hwb. eapply evolves_dir; eauto. }
  apply main_run_batch_inv in H; [|exact Hd|exact Hg].
  destruct H as [(e & _ & H)|[(report & w1 & e & _ & _ & H)
                             |(report & w1 & w2 & H1 & H2 & Hcode & ->)]];
    try discriminate.
  inversion Hcode; subst code; clear Hcode. cbn [fs] in Hwb.
  assert (H2' := H2). apply write_report_Ok in H2' as [rd Hdoc].
  assert (Hag : agree_outside (eq (report_path cfg)) (fs w1) (fs w2))
    by (eapply write_report_agree; eauto).
  assert (Hdirs : forall d, is_dir (fs w1) d = true -> is_dir (fs w2) d = true).
  { intros d Hdd. apply write_report_frame in H2 as (_ & _ & B3 & _).
    exact (evolves_dir _ _ _ _ B3 Hdd). }
  destruct (batch_settles U (fs w0) cfg dry_run w0 report w1 (fs w2)
              Hsep Hname Hrp H1 Hag Hdirs) as (Hrep & Hread & Hset).
  rewrite <- Hwb in Hread, Hset, Hdoc.
  destruct (process_files_settled _ cfg dry_run wb _ Hread Hset)
    as (wb1 & Hb & F1 & F2 & F3).
  rewrite <- Hrep in Hb.
  rewrite main_run_batch; [|exact Hdb|now rewrite Hsame].
  rewrite Hsame, bind_eq, Hb, bind_eq.
  unfold write_report. cbv zeta.
  rewrite (write_text_same _ _ _ rd);
    [| |rewrite F1; exact Hdoc].
  2:{ intros E. rewrite E in Hname. discriminate. }
  destruct dry_run; unfold mbind, M_bind, mret, M_ret, print;
    cbn [fs stdin stdout log]; eexists; (split; [reflexivity | exact F1]).
Qed.

End AgainRun.

Section AgainMain.

Context (U : Unicodedata) (PROJECT_ROOT : Path).

Local Abbreviation cfg_of := (config_of_args PROJECT_ROOT).

(** A run without questions. *)
Lemma main_batch_mode args w :
  args_interactive args = false ->
  main U PROJECT_ROOT args w =
  match ensure_directories (cfg_of args) w with
  | (Raise e, w1) => (Raise e, w1)
  | (Ok _, w1) =>
      main_run U (cfg_of args) (args_dry_run args)
        (console w1 (stdin w1) (BANNER ++ [LINE_NON_INTERACTIVE]))
  end.
Proof.
  intros Hi. rewrite main_eq, main_prologue_eq, Hi.
  now destruct (ensure_directories (cfg_of args) w) as [[[]|e] w1].
Qed.

(** X23. With the source and output trees apart, a run without questions can
    be repeated: when [main] returns an exit status, [main] with the same
    arguments over the filesystem that the run left returns the same status
    and leaves that filesystem exactly as it found it. *)
Theorem main_again args w code w' :
  args_interactive args = false ->
  separate (cfg_of args) ->
  main U PROJECT_ROOT args w = (Ok code, w') ->
  exists w'',
    main U PROJECT_ROOT args w' = (Ok code, w'') /\ fs w'' = fs w'.
Proof.
  intros Hi Hsep H.
  assert (Hrp : output_dir (cfg_of args) `prefix_of` report_path (cfg_of args)).
  { rewrite report_in_output_dir. now apply prefix_app_r. }
  assert (Hpar : parent (report_path (cfg_of args)) = output_dir (cfg_of args)).
  { rewrite report_in_output_dir. unfold parent, joinpath.
    apply removelast_last. }
  rewrite main_batch_mode in H by exact Hi.
  destruct (ensure_directories (cfg_of args) w) as [[[]|e] w1] eqn:He;
    [|discriminate].
  apply ensure_directories_spec in He as (_ & _ & _ & _ & He).
  destruct (He eq_refl) as (_ & Hout & _).
  assert (Hfr := H). apply main_run_frame in Hfr as (Hev & _).
  cbn [console fs] in Hev.
  assert (Hout' : is_dir (fs w') (output_dir (cfg_of args)) = true)
    by (eapply evolves_dir; eauto).
  rewrite main_batch_mode by exact Hi.
  unfold ensure_directories. rewrite bind_eq.
  rewrite mkdir_parents_exist_ok_existing by exact Hout'.
  rewrite Hpar.
  rewrite mkdir_parents_exist_ok_existing by exact Hout'.
  match goal with
  | |- context [main_run U _ _ ?wb] =>
      destruct (main_run_again U (cfg_of args) (args_dry_run args) _ code w' wb
                  Hsep (report_name PROJECT_ROOT args) Hrp H eq_refl)
        as (w'' & E1 & E2)
  end.
  exists w''. split; [exact E1 | exact E2].
Qed.

End AgainMain.

Lemma main_again_witness :
  fst (main unicodedata EXAMPLE_ROOT (example_args false false)
         (snd (main unicodedata EXAMPLE_ROOT (example_args false false)
                 (world_of example_fs []))))
  = Ok 0 /\
  fs (snd (main unicodedata EXAMPLE_ROOT (example_args false false)
             (snd (main unicodedata EXAMPLE_ROOT (example_args false false)
                     (world_of example_fs [])))))
  = fs (snd (main unicodedata EXAMPLE_ROOT (example_args false false)
               (world_of example_fs []))).
Proof.
  assert (H : main unicodedata EXAMPLE_ROOT (example_args false false)
                (world_of example_fs [])
              = (Ok 0, snd (main unicodedata EXAMPLE_ROOT
                              (example_args false false)
                              (world_of example_fs []))))
    by (apply pair_eq; vm_compute; reflexivity).
  assert (Hsep : separate (config_of_args EXAMPLE_ROOT (example_args false false)))
    by (split; apply (bool_decide_eq_false_1 _); vm_compute; reflexivity).
  destruct (main_again unicodedata EXAMPLE_ROOT (example_args false false)
              (world_of example_fs []) 0 _ eq_refl Hsep H) as (w'' & E1 & E2).
  rewrite E1. split; [reflexivity | exact E2].
Defined.
